(* ===== verification/_CoqProject ===== *)
-Q . S2P
Prelude.v
Fmt.v
Error.v
ErrorDebug.v
Bytes.v
Crc32.v
Codec.v
Auth.v
Mux.v
Recv.v
Connect.v
Channels.v
View.v
Scenarios.v
