(* ===== verification/Prelude.v ===== *)
(** * Verification of the adb_client protocol engine

    The repository is a host-side client for the Android Debug Bridge wire
    protocol.  Its one source file is [src/adb_client/src/error.rs], the
    closed error union [RustADBError] that every fallible operation of the
    crate returns through the alias [Result<T>].  The protocol engine that
    raises those errors is described by [spec.md] only: a device registry
    selects a transport, the authentication handshake negotiates over
    messages framed by the codec, and the stream multiplexer then owns the
    transport and serves the callers' streams.

    ** Files

    - [Prelude] (this file): what the other files share.  The Rust standard
      library as far as [error.rs] relies on it: [result] with [bind] and
      the [?] operator ([try_], notations [let*] and [let?] in the scope
      [adb_scope]), the traits [From], [Display] and [Error] as type
      classes, error trait objects as a client observes them through
      [Display] and [source()] ([DynError], [as_dyn]); unsigned
      machine integers as [Z] with the range predicates [u8_range],
      [u16_range], [u32_range]; facts on decimal rendering ([pretty]) and
      on strings with a literal prefix; the tactic [case_result] and the
      hint databases [adb] and [adb_rw]; [result_rel], a relation lifted
      to the successes of a [result]; runs of a machine whose steps carry
      events ([trace]) and the simulation lemma [simulation_trace].
    - [Error]: [error.rs], line by line.  [Wrapped] names the thirteen
      foreign error types the enum wraps and the class [Extern] is what the
      crates that own them must provide (a type, its [Display], its
      [Debug], its [source]); every theorem holds for every instance, and
      [dyn_extern] is the instance the concrete examples run on.
      [RustADBError] has the source's twenty-seven constructors, [fmt] is
      the [Display] impl that the [#[error(...)]] attributes generate,
      [source] the
      [Error::source] impl, [From_*] the thirteen [From] impls of the
      [#[from]] attributes, [from_wrapped] their dispatch on the type of
      the argument, [error_attr] the [#[error(...)]] attribute of each
      variant with its format string as the source has it,
      [display_of_attr] what the derive makes of an attribute,
      [variant_name] the name of each variant, and [Result] the alias of
      line 4.
    - [ErrorDebug]: the [Debug] impl of [#[derive(Debug)]],
      [Debug_RustADBError]: [variant_name] followed by [debug_fields], on
      one line under [{:?}] and a line per field under [{:#?}].
      [text_extern] and [raw_extern] are instances of [Extern] whose
      wrapped errors are texts, printed escaped and as they are, for the
      examples that need foreign errors told apart by their [Debug] text
      or printed on several lines.
    - [Fmt]: [std::fmt] as far as the derives rely on it: the class
      [Debug] with the [alternate] flag of the formatter, the escaped text
      of a [String] ([escape_debug], after [char::escape_debug]),
      integers, the layout of a tuple variant on one line ([debug_tuple])
      and on a line per field ([debug_tuple_pretty], which indents through
      [pad_adapter]), the lines of a text ([lines], [unlines], [indent]),
      and format strings with positional arguments ([scan_format],
      [render], [format]).
    - [Bytes]: bytes and little-endian words ([to_le_bytes],
      [from_le_bytes], [u32_not]) with their round trips and ranges.
    - [Crc32]: the CRC-32 of a payload, bit by bit ([crc_shift],
      [crc_update], [crc32]), from section 4.1 of the specification.
    - [Codec]: the message codec of sections 4.1 and 6: [Command],
      [Message], [encode_header], [encode], and [decode] with its three
      faults [Fault], of which [InvalidIntegrity] is the variant of
      [RustADBError].
    - [Auth]: the handshake of section 4.2: [AuthState], the collaborator
      interface [Client] (version, banner, signing, public key),
      [auth_step] for one reply of the device, [auth_run] for the replies
      in order and [handshake] for the whole exchange.
    - [Mux]: the stream multiplexer of sections 4.3 and 5: the session
      table [Mux] as a finite map from local ids to [Session]s, the entry
      points [open] (with [await_open], the wait for the device's answer),
      [write], [read] and [close], the receive loop [recv], the failure of
      the transport [teardown], and [mux_step], the interleaving of all of
      them.
    - [Recv]: the transport as a stream of bytes and the receive context
      of section 5: [read_exact], [read_frame], the loop [recv_loop] that
      decodes frame after frame and hands the messages to [recv], its
      total form [recv_all], and [wire], the bytes of the frames sent.  The
      I/O errors the engine raises itself are the class [Transport].
    - [Connect]: the layers composed, sections 2, 5 and 6: [auth_recv]
      runs the handshake on the stream (a frame read, decoded and handed
      to [auth_step], until the handshake ends) and [connect] sends the
      client's [CNXN], runs it and starts the multiplexer on the bytes
      that follow.
    - [Channels]: the contract of the multiplexer as an abstract machine,
      one queue of payloads per session.  A step carries the event seen of
      it ([ChanEvent]: the id [open] returns, the payload of a [WRTE] an
      open session takes, the payload [read] returns); [chan_step] is the
      step of the queues for an event (open, push at the back, pop at the
      front, nothing for a silent step), [mux_event] the step of the
      multiplexer with its event, and [channels] the abstraction function
      from the session table.
    - [View]: what a caller can observe of a multiplexer: [same_view]
      relates two states with the same sessions, next id and fault,
      whatever they have sent.
    - [Scenarios]: the scenarios of section 8 of the specification,
      evaluated from the bytes of the device to what the callers get.

    Only [Error] and [ErrorDebug] (with the parts of [Prelude] and [Fmt]
    they stand on) are translated from source.  [Crc32], [Codec], [Auth],
    [Mux], [Recv] and [Connect] follow the words of the specification,
    because the crate has no source for them; where the specification
    leaves a choice open the file says which one the model takes.

    ** What the theorems show

    - [Error]: the [Display] impl is the expansion of the [#[error(...)]]
      attributes, whose format strings refer to every field once and in
      order; the messages of the crate's own variants determine the
      variant and its payload ([fmt] is injective away from the
      transparent variants, and twelve bytes of a message name the
      variant, eleven do not); transparent variants are observationally
      the wrapped error (same message, same cause); the [From] impls
      produce exactly the transparent variants, and only those report a
      cause; messages of well-formed errors are printable and bounded in
      length.  Two examples record what the text of an error does not
      tell: a transparent variant can print the message of another
      variant, so callers must match on the union and not on text, and
      the union has no variant for two of the faults the specification
      names.
    - [ErrorDebug]: the [Debug] text names the variant for every error,
      transparent or not, and determines the error, payload included,
      whenever the [Debug] texts of the wrapped types determine their
      values (so, unlike [Display], it has no collision); it is printable
      whatever control characters an ASCII payload has, and one line
      whatever bytes it has, while the message is one line exactly when
      the payload is; under [{:#?}] an own variant prints a line per
      field, indented once, and a line feed in a payload starts no line; a
      wrapped error prints between the parentheses of its variant, its
      lines moved four columns to the right; the [{:#?}] text determines
      the error as the [{:?}] text does, and the [{:?}] text still does
      when any text follows it; the [{:?}] text is at most
      forty-eight bytes and six per byte of payload.  An example records
      that the variants that report a failed conversion carry no context.
    - [Fmt]: an escaped character is read back by [unescape_debug_char],
      so the escaped text of a [String] ends at its closing quote and
      determines the [String]; escaped text has no line feed and at most
      six bytes per byte of text; [pad_adapter] moves every line of what
      is written through it four columns to the right and loses nothing
      ([pad_adapter_lines], [pad_adapter_inj]); fields that print on one
      line each are read back from the layout of [{:#?}].
    - [Crc32]: the checksum is a [u32]; the update by one byte is injective
      in the register and in the byte, hence a payload with one byte
      changed has another checksum.
    - [Codec]: [decode] inverts [encode] and [encode] inverts [decode] on
      headers of 24 bytes; a wrong magic is reported before the checksum is
      looked at; a payload with one byte changed is reported as
      [InvalidIntegrity] with the expected and the computed checksum.
    - [Auth]: the handshake ends [Authenticated] only on a [CNXN] of the
      device; terminal states absorb; the exchange with a refused signature
      sends [CNXN], the signature and the public key in this order; the
      handshake completes whenever the device sends [CNXN] after any
      number of tokens.
    - [Mux]: frames are routed by local id and queued in arrival order;
      the multiplexer sends [OPEN], [WRTE] and [CLSE] only, each under a
      local id it handed out ([wf_outbox]); at
      most one write per session is outstanding, and the credit comes back
      with the session's [OKAY] and with nothing else; the caller of
      [open] waits until the device answers, gets the remote id on [OKAY]
      and an error on [CLSE]; a [CLSE] fails the writer it finds waiting;
      the failure of the transport closes every session and fails every
      later call, and a second failure changes nothing; [wf_mux]
      (ids positive and below the next one, open sessions know their peer,
      no session open on a failed transport) holds in every state reachable
      by [mux_step], so the id [open] hands out is fresh.
    - [Recv]: the receive loop terminates, with a result that does not
      depend on the fuel above the length of the stream; on the bytes of
      frames written whole it does what [recv] does on the messages, in
      their order; a frame that fails the checksum is reported and reaches
      no session; a stream that ends inside a frame is a short read, not
      a fault of integrity.
    - [Connect]: on the bytes of the device's replies [connect] is the
      handshake on the messages, and the multiplexer gets exactly the
      bytes after the accepting [CNXN]; whatever the bytes, a session is
      made only after a frame that decodes to a [CNXN]; a stream that ends
      during the handshake fails with [ADBRequestFailed]; the handshake on
      the stream returns with any fuel above the length of the stream, and
      ends [Authenticated] without an error or [Failed] with one.
    - [Channels]: every run of the multiplexer from the initial state is,
      with the same events, a run of [chan_step] on the queues
      ([simulation_trace], the generic simulation lemma of this file,
      applied to one lemma per operation).  An event allows one step of
      the queues at most ([chan_step_det]), so the events of a run
      determine the queues; hence what the readers of a session got,
      followed by what is still queued, is what the open session took
      from the device, in the order of the frames ([mux_fifo]): no
      interleaving reorders, repeats or drops a queued payload.  The steps
      with an event are the steps of [mux_step], no more and no fewer.
    - [View]: [same_view] is an equivalence, every entry point and the
      receive loop are morphisms for it ([Proper] instances), and it is a
      bisimulation for [mux_step]: the frames already sent change nothing
      a caller can observe later; along a run the log of frames sent grows
      at its end only.
    - [Scenarios]: the trusted and the corrupted handshake, two streams
      with interleaved frames, a write before and after its credit, and
      the error of an unknown framebuffer version, by evaluation.

    ** Conventions, bounds and fuel

    A [u32] is a [Z] with [0 <= z < 2^32]; nothing wraps in [error.rs], so
    ranges appear as hypotheses of the theorems that need them
    ([wf_error]), and the codec reduces what it reads to 32 bits by
    construction.  A Rust [String] is a [string], the bytes of its UTF-8
    text; [escape_debug] is exact on ASCII and on printable text and
    copies the bytes of a character above U+007F that std would escape.
    A byte string is a [list byte].  No definition uses fuel: every
    function is structurally recursive or not recursive ([crc_update] iterates eight times,
    [auth_run] and the runs of [recv] recurse on the list of inbound
    messages, [scan_format] on the format string), with two exceptions:
    [recv_loop] and [auth_recv] recurse on fuel, because each turn drops a
    frame of a length read from the stream.  A frame has at least 24
    bytes, so fuel above the length of the stream is never used up
    ([recv_loop_terminates], [auth_recv_total]), and [recv_all] and
    [connect] run their loops with that fuel: every result stated is a
    result the function returns.
    A call of the multiplexer that would suspend its caller returns [None]
    and changes nothing; local ids count up from 1 and are not reused, and
    the model does not bound them by 32 bits.

    ** Not modelled

    USB and TCP, key storage and RSA, image encoding, mDNS discovery and
    the command line are I/O behind collaborator interfaces; of these only
    what the handshake and the receive loop need appears, as the classes
    [Client] and [Transport].  Format strings are modelled with positional
    arguments and brace escapes, which is all the source uses; of the
    flags of a formatter only [alternate], the one the [Debug] impl reads.
    The framebuffer decoder and the device registry have no source; the
    specification gives neither the header versions and pixel layouts the
    decoder dispatches on nor the device-state strings of the registry,
    and it calls the descriptors of the registry observational, not owned
    by the protocol engine; their error variants are part of [Error], and
    a lookup that fails with [DeviceNotFound] or a dispatch that fails
    with [UnimplementedFramebufferImageVersion] would be a definition
    whose theorems restate it.  The negotiated maximum payload length,
    threads and deadlines are not modelled, and a local id is not reduced
    to 32 bits: a frame of a session beyond the first [2^32] is outside
    [wf_message]. *)

From stdpp Require Export base tactics option strings pretty list numbers
  relations.
From Stdlib Require Export ZArith Lia Ascii.

Declare Scope adb_scope.
Delimit Scope adb_scope with adb.
Open Scope Z_scope.

(** ** [std::result::Result] and the [?] operator *)

Inductive result (T E : Type) : Type :=
| Ok (t : T)
| Err (e : E).
Arguments Ok {T E} t.
Arguments Err {T E} e.

(** [std::convert::From]: a total conversion. *)
Class From (A B : Type) := from : A -> B.
Global Hint Mode From ! ! : typeclass_instances.
Arguments from {A B _} _ : simpl never.

(** [std::fmt::Display]: the text [to_string] produces. *)
Class Display (T : Type) := fmt : T -> string.
Global Hint Mode Display ! : typeclass_instances.

(** An error trait object as a client can observe it: its message and the
    object [source()] returns. *)
Inductive DynError : Type :=
| root (msg : string)
| caused (msg : string) (src : DynError).

Definition dyn (msg : string) (src : option DynError) : DynError :=
  match src with
  | None => root msg
  | Some d => caused msg d
  end.

Definition dyn_msg (d : DynError) : string :=
  match d with root m | caused m _ => m end.

Definition dyn_src (d : DynError) : option DynError :=
  match d with root _ => None | caused _ s => Some s end.

(** [std::error::Error]: [source] is the lower-level cause, if any. *)
Class Error (T : Type) `{Display T} := source : T -> option DynError.
Global Hint Mode Error ! - : typeclass_instances.

(** The upcast [&e as &dyn Error]. *)
Definition as_dyn `{Error T} (e : T) : DynError := dyn (fmt e) (source e).

Definition bind {T U E} (r : result T E) (k : T -> result U E) : result U E :=
  match r with
  | Ok t => k t
  | Err e => Err e
  end.

Definition map_err {T E F} (f : E -> F) (r : result T E) : result T F :=
  match r with
  | Ok t => Ok t
  | Err e => Err (f e)
  end.

(** [r?] followed by [k]: an error leaves the function converted by [From]. *)
Definition try_ {T U E F} `{From E F} (r : result T E)
    (k : T -> result U F) : result U F :=
  bind (map_err from r) k.

Definition is_ok {T E} (r : result T E) : bool :=
  match r with Ok _ => true | Err _ => false end.

Notation "'let?' x := r 'in' k" := (try_ r (fun x => k))
  (at level 10, x name, r at level 100, k at level 200) : adb_scope.
Notation "'let*' x := r 'in' k" := (bind r (fun x => k))
  (at level 10, x name, r at level 100, k at level 200) : adb_scope.
Open Scope adb_scope.

(** [impl<T> From<T> for T] *)
#[export] Instance From_refl (T : Type) : From T T | 100 := fun x => x.

(** [Display] of [String] and of the unsigned integers. *)
#[export] Instance Display_string : Display string := fun s => s.
#[export] Instance Display_Z : Display Z := fun z => pretty z.

(** ** Machine integers *)

Definition u8_range (z : Z) : Prop := 0 <= z < 2 ^ 8.
Definition u16_range (z : Z) : Prop := 0 <= z < 2 ^ 16.
Definition u32_range (z : Z) : Prop := 0 <= z < 2 ^ 32.

#[export] Instance u8_range_dec z : Decision (u8_range z).
Proof. unfold u8_range. apply _. Defined.
#[export] Instance u16_range_dec z : Decision (u16_range z).
Proof. unfold u16_range. apply _. Defined.
#[export] Instance u32_range_dec z : Decision (u32_range z).
Proof. unfold u32_range. apply _. Defined.

(** ** Automation *)

Create HintDb adb discriminated.
Create Rewrite HintDb adb_rw.
#[export] Hint Unfold u8_range u16_range u32_range : adb.

(** Case analysis on every [result] scrutinised in the goal. *)
Ltac case_result :=
  repeat match goal with
  | |- context [bind ?r _] => destruct r eqn:?; simpl
  | |- context [map_err _ ?r] => destruct r eqn:?; simpl
  | |- context [match ?r with Ok _ => _ | Err _ => _ end] =>
      destruct r eqn:?; simpl
  end.

(** ** The result monad *)

Section result_laws.
Context {T U V E : Type}.
Implicit Types (r : result T E) (k : T -> result U E).

Lemma bind_ok t k : bind (Ok t) k = k t.
Proof. reflexivity. Qed.

Lemma bind_err (e : E) k : bind (Err e) k = Err e.
Proof. reflexivity. Qed.

Lemma bind_ret r : bind r Ok = r.
Proof. by destruct r. Qed.

Lemma bind_assoc r k (h : U -> result V E) :
  bind (bind r k) h = bind r (fun t => bind (k t) h).
Proof. by destruct r. Qed.

Lemma bind_Ok_inv r k u :
  bind r k = Ok u <-> exists t, r = Ok t /\ k t = Ok u.
Proof.
  destruct r as [t|e]; simpl; split; try done.
  - by exists t.
  - by intros (? & [= <-] & ?).
  - by intros (? & ? & _).
Qed.

Lemma bind_Err_inv r k e :
  bind r k = Err e <-> r = Err e \/ exists t, r = Ok t /\ k t = Err e.
Proof.
  destruct r as [t|e']; simpl; split.
  - right. by exists t.
  - by intros [?|(? & [= <-] & ?)].
  - intros [= ->]. by left.
  - by intros [[= ->]|(? & ? & _)].
Qed.

End result_laws.

#[export] Hint Rewrite @bind_ok @bind_err @bind_ret @bind_assoc : adb_rw.

Section try_laws.
Context {T U E F : Type} `{!From E F}.

Lemma try_ok (t : T) (k : T -> result U F) : try_ (E:=E) (Ok t) k = k t.
Proof. reflexivity. Qed.

Lemma try_err (e : E) (k : T -> result U F) : try_ (Err e) k = Err (from e).
Proof. reflexivity. Qed.

End try_laws.

#[export] Hint Rewrite @try_ok @try_err : adb_rw.

(** ** Results up to a relation on the values *)

(** Two results are related when both fail with the same error or both
    succeed with related values. *)
Definition result_rel {T E} (R : relation T) : relation (result T E) :=
  fun a b =>
    match a, b with
    | Ok x, Ok y => R x y
    | Err e, Err e' => e = e'
    | _, _ => False
    end.

#[export] Instance result_rel_equivalence {T E} (R : relation T) :
  Equivalence R -> Equivalence (result_rel (E := E) R).
Proof.
  intros HR. split.
  - intros [x|e]; simpl; reflexivity.
  - intros [x|e] [y|e']; simpl; by try symmetry.
  - intros [x|e] [y|e'] [z|e'']; simpl; try done; intros; by etrans.
Qed.

(** With the reflexive conversion [?] is [bind]. *)
Lemma try_refl {T U E} (r : result T E) (k : T -> result U E) :
  try_ r k = bind r k.
Proof. by destruct r. Qed.

(** ** Labelled runs and simulation

    A step of a machine carries what an observer sees of it, [None] when
    the step is silent.  [trace step a evs b] is a run from [a] to [b]
    with the events [evs] in their order. *)

Inductive trace {A L : Type} (step : A -> L -> A -> Prop)
    : A -> list L -> A -> Prop :=
  | trace_nil a : trace step a [] a
  | trace_cons a l b ls c :
      step a l b -> trace step b ls c -> trace step a (l :: ls) c.

Lemma trace_app {A L} (step : A -> L -> A -> Prop) a ls b ls' c :
  trace step a ls b -> trace step b ls' c -> trace step a (ls ++ ls') c.
Proof. induction 1; simpl; eauto using @trace. Qed.

(** A run without its events. *)
Lemma trace_rtc {A L} (step : A -> L -> A -> Prop) (R : relation A) a ls b :
  (forall a l b, step a l b -> R a b) -> trace step a ls b -> rtc R a b.
Proof. intros HR. induction 1; eauto using rtc_l, rtc_refl. Qed.

(** Where each event allows one step at most, the events of a run
    determine where it ends. *)
Lemma trace_det {A L} (step : A -> L -> A -> Prop) a ls b b' :
  (forall a l b b', step a l b -> step a l b' -> b = b') ->
  trace step a ls b -> trace step a ls b' -> b = b'.
Proof.
  intros Hdet Hb. revert b'. induction Hb as [a|a l a1 ls b Hs _ IH];
    inversion_clear 1 as [|????? Hs' Hb']; [done|].
  rewrite <-(Hdet _ _ _ _ Hs Hs') in Hb'. auto.
Qed.

(** A detailed machine implements an abstract one through an abstraction
    function when every step of the first, from a state that satisfies an
    invariant of it, is a step of the second with the same event.  Then
    every run of the detailed machine is a run of the abstract one with
    the same events. *)

Section simulation.
Context {C A L : Type}.
Context (cstep : C -> L -> C -> Prop) (astep : A -> L -> A -> Prop).
Context (abs : C -> A) (inv : C -> Prop).
Hypothesis inv_step : forall c l c', inv c -> cstep c l c' -> inv c'.
Hypothesis sim_step :
  forall c l c', inv c -> cstep c l c' -> astep (abs c) l (abs c').

Lemma simulation_trace (c c' : C) (ls : list L) :
  inv c -> trace cstep c ls c' -> trace astep (abs c) ls (abs c').
Proof.
  intros Hinv Htr. induction Htr as [c|c l c1 ls c' Hstep _ IH];
    eauto using @trace.
Qed.

End simulation.

(** ** Strings and decimal rendering *)

(** [char::is_ascii_digit] *)
Definition is_digit (c : ascii) : bool :=
  let n := Ascii.N_of_ascii c in ((48 <=? n) && (n <=? 57))%N.

Fixpoint all_digits (s : string) : bool :=
  match s with
  | EmptyString => true
  | String c s' => is_digit c && all_digits s'
  end.

(** A graphic ASCII character or the space. *)
Definition is_printable (c : ascii) : bool :=
  let n := Ascii.N_of_ascii c in ((32 <=? n) && (n <=? 126))%N.

Fixpoint all_printable (s : string) : bool :=
  match s with
  | EmptyString => true
  | String c s' => is_printable c && all_printable s'
  end.

Lemma length_string_app (s t : string) :
  String.length (s +:+ t) = (String.length s + String.length t)%nat.
Proof. induction s as [|c s IH]; simpl; [done|by rewrite IH]. Qed.

Lemma string_app_assoc (s t u : string) : s +:+ (t +:+ u) = (s +:+ t) +:+ u.
Proof. induction s as [|c s IH]; [done|]. exact (f_equal (String c) IH). Qed.

Lemma string_app_nil_r (s : string) : s +:+ "" = s.
Proof. induction s as [|c s IH]; [done|]. exact (f_equal (String c) IH). Qed.

Lemma string_app_inv_head (s t u : string) : s +:+ t = s +:+ u -> t = u.
Proof. induction s; simpl; [done|]. intros [= ?]. auto. Qed.

(** A text is split unambiguously at a separator that is no digit when
    what precedes it is all digits. *)

Lemma string_app_inv_tail (s t u : string) : s +:+ u = t +:+ u -> s = t.
Proof.
  revert t. induction s as [|c s IH]; intros [|c' t] Heq; [done|..];
    [apply (f_equal String.length) in Heq;
     rewrite !length_string_app in Heq; simpl in Heq; lia..|].
  injection Heq as -> Heq. by rewrite (IH t).
Qed.

Lemma digits_sep_inj (a a' b b' : string) (c : ascii) :
  all_digits a -> all_digits a' -> is_digit c = false ->
  a +:+ String c b = a' +:+ String c b' -> a = a' /\ b = b'.
Proof.
  intros Ha Ha' Hc. revert a' Ha'.
  induction a as [|x a IH]; intros [|x' a'] Ha'; simpl.
  - by intros [= ->].
  - intros [= <- _]. simpl in Ha'. by rewrite Hc in Ha'.
  - intros [= -> _]. simpl in Ha. by rewrite Hc in Ha.
  - intros [= <- Heq]. simpl in Ha, Ha'.
    apply andb_prop_elim in Ha as [_ Ha], Ha' as [_ Ha'].
    by destruct (IH Ha a' Ha' Heq) as [-> ->].
Qed.

Lemma is_digit_pretty_N_char (x : N) : is_digit (pretty_N_char x) = true.
Proof. unfold pretty_N_char. by repeat case_match. Qed.

Lemma all_digits_pretty_N_go (x : N) (s : string) :
  all_digits s -> all_digits (pretty_N_go x s).
Proof.
  revert s. induction (N.lt_wf_0 x) as [x _ IH]; intros s Hs.
  destruct (decide (x = 0)%N) as [->|]; [by rewrite pretty_N_go_0|].
  rewrite pretty_N_go_step by lia. apply IH; [apply N.div_lt; lia|].
  simpl. by rewrite is_digit_pretty_N_char.
Qed.

Lemma length_pretty_N_go (x : N) (s : string) (k : nat) :
  (x < 10 ^ N.of_nat k)%N ->
  (String.length (pretty_N_go x s) <= k + String.length s)%nat.
Proof.
  revert s k. induction (N.lt_wf_0 x) as [x _ IH]; intros s k Hx.
  destruct (decide (x = 0)%N) as [->|]; [rewrite pretty_N_go_0; lia|].
  rewrite pretty_N_go_step by lia.
  destruct k as [|k]; [simpl in Hx; lia|].
  etrans; [apply (IH (x `div` 10)%N) with (k := k)|simpl; lia].
  - apply N.div_lt; lia.
  - apply N.Div0.div_lt_upper_bound.
    by rewrite Nat2N.inj_succ, N.pow_succ_r' in Hx.
Qed.

Lemma pretty_Z_to_N (z : Z) : 0 <= z -> pretty z = pretty (Z.to_N z).
Proof. by destruct z. Qed.

(** The decimal text of a non-negative integer has digits only. *)
Lemma all_digits_pretty (z : Z) : 0 <= z -> all_digits (pretty z).
Proof.
  intros Hz. rewrite pretty_Z_to_N by done. unfold pretty, pretty_N.
  case_decide; [done|]. by apply all_digits_pretty_N_go.
Qed.

(** It has at most [k] characters below [10 ^ k]. *)
Lemma length_pretty (z : Z) (k : nat) :
  0 <= z < 10 ^ Z.of_nat k -> (0 < k)%nat ->
  (String.length (pretty z) <= k)%nat.
Proof.
  intros Hz Hk. rewrite pretty_Z_to_N by lia. unfold pretty, pretty_N.
  case_decide; [simpl; lia|].
  etrans; [apply length_pretty_N_go with (k := k)|simpl; lia].
  apply N2Z.inj_lt. rewrite Z2N.id, N2Z.inj_pow, nat_N_Z by lia. simpl. lia.
Qed.

Lemma length_pretty_u16 (z : Z) :
  u16_range z -> (String.length (pretty z) <= 5)%nat.
Proof. intros [??]. apply length_pretty; simpl; lia. Qed.

Lemma length_pretty_u32 (z : Z) :
  u32_range z -> (String.length (pretty z) <= 10)%nat.
Proof. intros [??]. apply length_pretty; simpl; lia. Qed.

(** ** Printable text *)

Lemma all_printable_app (s t : string) :
  all_printable s -> all_printable t -> all_printable (s +:+ t).
Proof.
  intros Hs Ht. induction s as [|c s IH]; simpl in *; [done|].
  apply andb_prop_elim in Hs as [Hc Hs]. apply andb_prop_intro. auto.
Qed.

Lemma is_digit_printable (c : ascii) : is_digit c -> is_printable c.
Proof.
  unfold is_digit, is_printable.
  intros [?%Is_true_true%N.leb_le ?%Is_true_true%N.leb_le]%andb_prop_elim.
  apply andb_prop_intro; split; apply Is_true_true, N.leb_le; lia.
Qed.

Lemma all_digits_printable (s : string) : all_digits s -> all_printable s.
Proof.
  induction s as [|c s IH]; simpl; [done|].
  intros [Hc Hs]%andb_prop_elim.
  apply andb_prop_intro. auto using is_digit_printable.
Qed.

Lemma all_printable_pretty (z : Z) : 0 <= z -> all_printable (pretty z).
Proof. intros. by apply all_digits_printable, all_digits_pretty. Qed.

#[export] Hint Resolve all_printable_app all_printable_pretty : adb.
