(* ===== verification/Fmt.v ===== *)
(** * [std::fmt]: [Debug] of text, integers and tuple structs, and format
      strings

    What [#[derive(Debug)]] relies on: the [Debug] text of a [String]
    (the text between double quotes, each character through
    [char::escape_debug]), of an unsigned integer (its decimal digits) and
    the layout [Formatter::debug_tuple] gives a tuple variant, on one line
    and, under [{:#?}], on a line per field, with the lines of a text
    ([lines], [unlines], [indent]) to say what the indentation does.  A
    [String]
    is a list of bytes here: the escapes are those of the ASCII range, and
    a byte of a multi-byte character is copied, as std does for printable
    text.  [unescape_debug_char] reads one escaped character back; it is
    the inverse that makes the escaped text unambiguous.  What
    [#[error("...")]] relies on: [format], the expansion of a format
    string with positional arguments. *)

From S2P Require Import Prelude.

#[local] Open Scope N_scope.

(** [Debug::fmt], by the one flag of the [Formatter] the impls of this
    development look at: [alternate], set by [{:#?}]. *)
Class Debug (T : Type) := debug_fmt : bool -> T -> string.
Global Hint Mode Debug ! : typeclass_instances.

(** [format!("{:?}", x)] and [format!("{:#?}", x)] *)
Definition fmt_debug `{Debug T} : T -> string := debug_fmt false.
Definition fmt_debug_alt `{Debug T} : T -> string := debug_fmt true.

(** The double quote and the backslash. *)
Definition quote : ascii := "034"%char.
Definition backslash : ascii := "092"%char.

(** A hexadecimal digit in lower case. *)
Definition hex_digit (n : N) : ascii :=
  ascii_of_N (if n <? 10 then 48 + n else 87 + n).

(** [char::escape_unicode] without the braces: the digits of a code point
    below 256, with no leading zero. *)
Definition hex (n : N) : string :=
  if n <? 16 then String (hex_digit n) ""
  else String (hex_digit (n / 16)) (String (hex_digit (n mod 16)) "").

(** [char::escape_debug] as [<str as Debug>::fmt] calls it: the double
    quote is escaped and the single quote is not. *)
Definition escape_debug_char (c : ascii) : string :=
  let n := N_of_ascii c in
  if n =? 0 then String backslash "0"
  else if n =? 9 then String backslash "t"
  else if n =? 13 then String backslash "r"
  else if n =? 10 then String backslash "n"
  else if n =? 92 then String backslash (String backslash "")
  else if n =? 34 then String backslash (String quote "")
  else if (n <? 32) || (n =? 127) then
    String backslash ("u{" +:+ hex n +:+ "}")
  else String c "".

Fixpoint escape_debug (s : string) : string :=
  match s with
  | EmptyString => EmptyString
  | String c s' => escape_debug_char c +:+ escape_debug s'
  end.

(** [impl Debug for str] *)
#[export] Instance Debug_string : Debug string := fun _ s =>
  String quote (escape_debug s +:+ String quote "").

(** [impl Debug for u32], [u16]: as [Display]; the alternate flag changes
    the hexadecimal forms only. *)
#[export] Instance Debug_Z : Debug Z := fun _ => pretty.

(** [Formatter::debug_tuple(name).field(..).finish()]: the name alone
    without fields, else the fields between parentheses, separated by a
    comma and a space. *)
Definition debug_tuple (name : string) (fields : list string) : string :=
  match fields with
  | [] => name
  | f :: fs =>
      name +:+ "(" +:+ f +:+ foldr (fun x acc => ", " +:+ x +:+ acc) ")" fs
  end.

(** The line feed. *)
Definition newline : ascii := "010"%char.

(** [PadAdapter::write_str]: four spaces in front of every line of the
    text written through it.  [on_newline] is the state of the adapter:
    whether the next character starts a line. *)
Fixpoint pad_adapter (on_newline : bool) (s : string) : string :=
  match s with
  | EmptyString => EmptyString
  | String c r =>
      (if on_newline then "    " else "")
      +:+ String c (pad_adapter (Ascii.eqb c newline) r)
  end.

(** [str::split('\n')]: the lines of a text, the last one being what
    follows the last line feed. *)
Fixpoint lines (s : string) : list string :=
  match s with
  | EmptyString => [EmptyString]
  | String c r =>
      if Ascii.eqb c newline then EmptyString :: lines r
      else match lines r with
           | l :: ls => String c l :: ls
           | [] => [String c EmptyString]
           end
  end.

(** Every line followed by a line feed. *)
Definition unlines (ls : list string) : string :=
  foldr (fun l acc => l +:+ String newline acc) EmptyString ls.

(** Every line moved four columns to the right. *)
Definition indent (ls : list string) : list string :=
  (fun l => "    " +:+ l) <$> ls.

(** [debug_tuple] under [{:#?}]: the name alone without fields, else an
    opening parenthesis, every field on lines of its own through a fresh
    [PadAdapter] and followed by a comma, and the closing parenthesis. *)
Definition debug_tuple_pretty (name : string) (fields : list string)
    : string :=
  match fields with
  | [] => name
  | _ =>
      name +:+ String "(" (String newline "")
      +:+ foldr (fun x acc =>
                   pad_adapter true (x +:+ String "," (String newline ""))
                   +:+ acc) ")" fields
  end.

(** ** Format strings

    [format_args!] as far as the [#[error("...")]] attributes use it: text
    copied character by character, the positional argument [{n}], and the
    escapes [{{] and [}}].  Named arguments, the implicit [{}] and format
    specs after a colon are outside the model: [scan_format] gives [None]
    on them. *)

(** A piece of a format string: a character to copy, or the positional
    argument [{n}]. *)
Inductive Piece : Type :=
| Lit (c : ascii)
| Arg (n : nat).

(** Where the scanner is: in text, after an opening brace, in the digits
    of an index, after a closing brace. *)
Inductive Scan : Type :=
| Text
| Opened
| Index (n : nat)
| Closed.

Definition digit_value (c : ascii) : nat := N.to_nat (N_of_ascii c - 48).

Fixpoint scan_format (st : Scan) (s : string) : option (list Piece) :=
  match s with
  | EmptyString => match st with Text => Some [] | _ => None end
  | String c r =>
      match st with
      | Text =>
          if Ascii.eqb c "{" then scan_format Opened r
          else if Ascii.eqb c "}" then scan_format Closed r
          else cons (Lit c) <$> scan_format Text r
      | Opened =>
          if Ascii.eqb c "{" then cons (Lit c) <$> scan_format Text r
          else if is_digit c then scan_format (Index (digit_value c)) r
          else None
      | Index n =>
          if Ascii.eqb c "}" then cons (Arg n) <$> scan_format Text r
          else if is_digit c then
            scan_format (Index (10 * n + digit_value c)%nat) r
          else None
      | Closed =>
          if Ascii.eqb c "}" then cons (Lit c) <$> scan_format Text r
          else None
      end
  end.

(** The pieces in order, each argument by its position; a position past
    the arguments is an error. *)
Fixpoint render (ps : list Piece) (args : list string) : option string :=
  match ps with
  | [] => Some EmptyString
  | Lit c :: ps => String c <$> render ps args
  | Arg n :: ps => a ← args !! n; String.app a <$> render ps args
  end.

(** [format!(f, args...)] *)
Definition format (f : string) (args : list string) : option string :=
  ps ← scan_format Text f; render ps args.

(** The positions a format string refers to, in the order of the text. *)
Definition placeholders (f : string) : option (list nat) :=
  fmap (M := option)
    (omap (M := list)
       (fun p => match p with Arg n => Some n | Lit _ => None end))
    (scan_format Text f).

(** A text without braces. *)
Fixpoint no_braces (s : string) : bool :=
  match s with
  | EmptyString => true
  | String c r =>
      negb (Ascii.eqb c "{") && negb (Ascii.eqb c "}") && no_braces r
  end.

(** [str::is_ascii] *)
Fixpoint is_ascii_text (s : string) : bool :=
  match s with
  | EmptyString => true
  | String c r => (N_of_ascii c <? 128) && is_ascii_text r
  end.

(** A text without a line feed. *)
Fixpoint no_newline (s : string) : bool :=
  match s with
  | EmptyString => true
  | String c r => negb (Ascii.eqb c newline) && no_newline r
  end.

(** The value of a hexadecimal digit in lower case. *)
Definition unhex_digit (c : ascii) : option N :=
  let n := N_of_ascii c in
  if (48 <=? n) && (n <=? 57) then Some (n - 48)
  else if (97 <=? n) && (n <=? 102) then Some (n - 87)
  else None.

(** Reads one escaped character off the front of a text; [None] at the
    closing quote and at text that is no escape. *)
Definition unescape_debug_char (s : string) : option (ascii * string) :=
  match s with
  | EmptyString => None
  | String c r =>
      if Ascii.eqb c quote then None
      else if negb (Ascii.eqb c backslash) then Some (c, r)
      else
        match r with
        | String "0" r' => Some (ascii_of_N 0, r')
        | String "t" r' => Some (ascii_of_N 9, r')
        | String "r" r' => Some (ascii_of_N 13, r')
        | String "n" r' => Some (ascii_of_N 10, r')
        | String "u" (String "{" (String a (String "}" r'))) =>
            n ← unhex_digit a; Some (ascii_of_N n, r')
        | String "u" (String "{" (String a (String b (String "}" r')))) =>
            n ← unhex_digit a; k ← unhex_digit b; Some (ascii_of_N (16 * n + k), r')
        | String e r' =>
            if Ascii.eqb e backslash || Ascii.eqb e quote then Some (e, r')
            else None
        | EmptyString => None
        end
  end.

Example debug_string_escapes :
  fmt_debug ("a" +:+ String quote "b" +:+ String (ascii_of_N 10) ""
             +:+ String (ascii_of_N 27) "[")
  = String quote ("a" +:+ String backslash (String quote "b")
                  +:+ String backslash "n"
                  +:+ String backslash "u{1b}[" +:+ String quote "").
Proof. reflexivity. Qed.

(** ** Escaped text is read back *)

Lemma unescape_escape_debug_char (c : ascii) (r : string) :
  unescape_debug_char (escape_debug_char c +:+ r) = Some (c, r).
Proof. by destruct c as [[] [] [] [] [] [] [] []]. Qed.

Lemma unescape_debug_char_quote (r : string) :
  unescape_debug_char (String quote r) = None.
Proof. reflexivity. Qed.

(** The escaped text ends at the first quote that is not escaped: a text
    and what follows its closing quote are determined by the escaped
    text. *)
Lemma escape_debug_inj (s s' r r' : string) :
  escape_debug s +:+ String quote r = escape_debug s' +:+ String quote r' ->
  s = s' /\ r = r'.
Proof.
  revert s'. induction s as [|c s IH]; intros [|c' s']; cbn [escape_debug];
    rewrite <-?string_app_assoc; intros Heq.
  - by simplify_eq.
  - apply (f_equal unescape_debug_char) in Heq.
    by rewrite unescape_escape_debug_char in Heq.
  - apply (f_equal unescape_debug_char) in Heq.
    by rewrite unescape_escape_debug_char in Heq.
  - apply (f_equal unescape_debug_char) in Heq.
    rewrite !unescape_escape_debug_char in Heq. simplify_eq.
    by destruct (IH s') as [-> ->].
Qed.

Lemma fmt_debug_string_inj (s s' r r' : string) :
  fmt_debug s +:+ r = fmt_debug s' +:+ r' -> s = s' /\ r = r'.
Proof.
  intros Heq.
  change (String quote ((escape_debug s +:+ String quote "") +:+ r)
          = String quote ((escape_debug s' +:+ String quote "") +:+ r')) in Heq.
  rewrite <-!string_app_assoc in Heq. injection Heq as Heq.
  by apply escape_debug_inj.
Qed.

Lemma Debug_string_inj : Inj (=) (=) (fmt_debug (T := string)).
Proof.
  intros s s' Heq. apply (f_equal (fun t => t +:+ "")) in Heq.
  by apply fmt_debug_string_inj in Heq as [-> _].
Qed.

(** ** Escaped text is printable *)

Lemma all_printable_escape_debug_char (c : ascii) :
  N_of_ascii c <? 128 -> all_printable (escape_debug_char c).
Proof. by destruct c as [[] [] [] [] [] [] [] []]. Qed.

Lemma all_printable_escape_debug (s : string) :
  is_ascii_text s -> all_printable (escape_debug s).
Proof.
  induction s as [|c s IH]; simpl; [done|].
  intros [Hc Hs]%andb_prop_elim.
  auto using all_printable_app, all_printable_escape_debug_char.
Qed.

(** The [Debug] text of an ASCII text has no control character: a line
    break in the text is printed as a backslash and an [n]. *)
Lemma all_printable_fmt_debug_string (s : string) :
  is_ascii_text s -> all_printable (fmt_debug s).
Proof.
  intros Hs. change (all_printable (String quote "" +:+ escape_debug s
                                    +:+ String quote "")).
  auto using all_printable_app, all_printable_escape_debug.
Qed.

#[export] Hint Resolve all_printable_escape_debug
  all_printable_fmt_debug_string : adb.

(** ** The indentation of [{:#?}] *)

Lemma no_newline_app (s t : string) :
  no_newline s -> no_newline t -> no_newline (s +:+ t).
Proof.
  induction s as [|c s IH]; simpl; [done|].
  intros [Hc Hs]%andb_prop_elim Ht. apply andb_prop_intro. auto.
Qed.

Lemma no_newline_app_iff (s t : string) :
  no_newline (s +:+ t) <-> no_newline s /\ no_newline t.
Proof.
  split; [|intros []; by apply no_newline_app].
  induction s as [|c s IH]; simpl; [done|].
  intros [Hc [Hs Ht]%IH]%andb_prop_elim. split; [|done].
  by apply andb_prop_intro.
Qed.

Lemma no_newline_digits (s : string) : all_digits s -> no_newline s.
Proof.
  induction s as [|c s IH]; simpl; [done|].
  intros [Hc Hs]%andb_prop_elim. apply andb_prop_intro. split; [|auto].
  by destruct c as [[] [] [] [] [] [] [] []].
Qed.

Lemma no_newline_escape_debug_char (c : ascii) :
  no_newline (escape_debug_char c).
Proof. by destruct c as [[] [] [] [] [] [] [] []]. Qed.

Lemma no_newline_escape_debug (s : string) : no_newline (escape_debug s).
Proof.
  induction s as [|c s IH]; simpl; [done|].
  auto using no_newline_app, no_newline_escape_debug_char.
Qed.

(** A line feed in a text is escaped by [Debug]: the text stays on its
    line under either flag. *)
Lemma no_newline_debug_string (alt : bool) (s : string) :
  no_newline (debug_fmt alt s).
Proof.
  change (no_newline (String quote "" +:+ escape_debug s +:+ String quote "")).
  auto using no_newline_app, no_newline_escape_debug.
Qed.

Lemma no_newline_debug_Z (alt : bool) (z : Z) :
  (0 <= z)%Z -> no_newline (debug_fmt alt z).
Proof. intros Hz. by apply no_newline_digits, all_digits_pretty. Qed.

Lemma pad_adapter_line (s t : string) :
  no_newline s -> pad_adapter false (s +:+ t) = s +:+ pad_adapter false t.
Proof.
  induction s as [|c s IH]; simpl; [done|].
  intros [Hc Hs]%andb_prop_elim. destruct (Ascii.eqb c newline); [done|].
  exact (f_equal (String c) (IH Hs)).
Qed.

(** A field that prints on one line is indented once and followed by its
    comma. *)
Lemma pad_adapter_field (s : string) :
  no_newline s ->
  pad_adapter true (s +:+ String "," (String newline ""))
  = "    " +:+ s +:+ String "," (String newline "").
Proof.
  destruct s as [|c s]; simpl; [done|].
  intros [Hc Hs]%andb_prop_elim. destruct (Ascii.eqb c newline); [done|].
  do 5 f_equal. by rewrite pad_adapter_line.
Qed.

Lemma foldr_pad_adapter_lines (fs : list string) :
  Forall (fun f => no_newline f) fs ->
  foldr (fun x acc =>
           pad_adapter true (x +:+ String "," (String newline "")) +:+ acc)
    ")" fs
  = foldr (fun f acc => "    " +:+ f +:+ String "," (String newline acc))
      ")" fs.
Proof.
  induction 1 as [|f fs Hf _ IH]; [done|]. simpl.
  rewrite IH, pad_adapter_field by done. by rewrite <-!string_app_assoc.
Qed.

Lemma debug_tuple_pretty_lines (name : string) (fs : list string) :
  Forall (fun f => no_newline f) fs ->
  debug_tuple_pretty name fs
  = match fs with
    | [] => name
    | _ =>
        name +:+ String "(" (String newline "")
        +:+ foldr (fun f acc =>
                     "    " +:+ f +:+ String "," (String newline acc)) ")" fs
    end.
Proof.
  intros Hfs. destruct fs as [|f fs]; [done|]. unfold debug_tuple_pretty.
  by rewrite foldr_pad_adapter_lines.
Qed.

(** The adapter on whole lines: what it writes for a text and the line
    feed after it is the lines of the text, each moved four columns to the
    right; the first one stays where the adapter is not at the start of a
    line. *)
Lemma lines_cons (s : string) : exists l ls, lines s = l :: ls.
Proof.
  induction s as [|c s (l & ls & IH)]; simpl; [by eauto|].
  destruct (Ascii.eqb c newline); rewrite ?IH; eauto.
Qed.

Lemma pad_adapter_lines_from (b : bool) (s : string) :
  pad_adapter b (s +:+ String newline "")
  = match lines s with
    | l :: ls =>
        (if b then "    " else "") +:+ l +:+ String newline (unlines (indent ls))
    | [] => ""
    end.
Proof.
  revert b. induction s as [|c s IH]; intros b; [by destruct b|].
  change (String c s +:+ String newline "")
    with (String c (s +:+ String newline "")).
  cbn [pad_adapter lines]. rewrite IH.
  destruct (lines_cons s) as (l & ls & ->).
  by destruct (Ascii.eqb_spec c newline) as [->|], b.
Qed.

Lemma pad_adapter_lines (s : string) :
  pad_adapter true (s +:+ String newline "") = unlines (indent (lines s)).
Proof.
  rewrite pad_adapter_lines_from. by destruct (lines_cons s) as (l & ls & ->).
Qed.

(** The lines of a text have no line feed, and put together again they
    are the text. *)
Lemma no_newline_lines (s : string) :
  Forall (fun l => no_newline l) (lines s).
Proof.
  induction s as [|c s IH]; simpl; [by repeat constructor|].
  destruct (Ascii.eqb c newline) eqn:Hc; [by constructor|].
  destruct IH as [|l ls Hl Hls]; constructor; simpl; try done.
  all: by rewrite Hc.
Qed.

Lemma unlines_lines (s : string) :
  unlines (lines s) = s +:+ String newline "".
Proof.
  induction s as [|c s IH]; [done|].
  change (String c s +:+ String newline "")
    with (String c (s +:+ String newline "")).
  cbn [lines]. destruct (Ascii.eqb_spec c newline) as [->|];
    [exact (f_equal (String newline) IH)|].
  destruct (lines_cons s) as (l & ls & Hl). rewrite Hl in *.
  exact (f_equal (String c) IH).
Qed.

(** The adapter loses nothing of what is written through it. *)
Lemma pad_adapter_inj (b : bool) : Inj (=) (=) (pad_adapter b).
Proof.
  intros s. revert b. induction s as [|c s IH]; intros b [|c' s'] Heq.
  - done.
  - by destruct b.
  - by destruct b.
  - cbn [pad_adapter] in Heq. apply string_app_inv_head in Heq.
    injection Heq as -> Heq. by rewrite (IH _ _ Heq).
Qed.

(** A tuple of one field under [{:#?}]: the lines of the field between
    the parentheses, four columns to the right, a comma after the last. *)
Lemma debug_tuple_pretty_one (name f : string) :
  debug_tuple_pretty name [f]
  = name +:+ String "(" (String newline "")
    +:+ unlines (indent (lines (f +:+ ","))) +:+ ")".
Proof.
  unfold debug_tuple_pretty. simpl. do 2 f_equal.
  by rewrite <-pad_adapter_lines, <-string_app_assoc.
Qed.

(** A text without a line feed ends at the first line feed after it. *)
Lemma newline_split_inj (s s' r r' : string) :
  no_newline s -> no_newline s' ->
  s +:+ String newline r = s' +:+ String newline r' -> s = s' /\ r = r'.
Proof.
  revert s'. induction s as [|c s IH]; intros [|c' s']; simpl.
  - by intros _ _ [= ->].
  - intros _ [Hc _]%andb_prop_elim [= <- _]. by destruct Hc.
  - intros [Hc _]%andb_prop_elim _ [= -> _]. by destruct Hc.
  - intros [_ Hs]%andb_prop_elim [_ Hs']%andb_prop_elim [= -> Heq].
    by destruct (IH _ Hs Hs' Heq) as [-> ->].
Qed.

(** A field that prints on one line ends at its comma and line feed. *)
Lemma pretty_field_inj (g g' acc acc' : string) :
  no_newline g -> no_newline g' ->
  g +:+ String "," (String newline acc)
    = g' +:+ String "," (String newline acc') ->
  g = g' /\ acc = acc'.
Proof.
  intros Hg Hg' Heq.
  assert (forall x a, x +:+ String "," (String newline a)
                      = (x +:+ ",") +:+ String newline a) as Hassoc
    by (intros; apply (string_app_assoc _ ",")).
  rewrite !Hassoc in Heq.
  apply newline_split_inj in Heq as [Hf Hacc]; [|by apply no_newline_app..].
  by apply string_app_inv_tail in Hf as ->.
Qed.

Lemma pretty_fields_inj (fs fs' : list string) :
  Forall (fun f => no_newline f) fs -> Forall (fun f => no_newline f) fs' ->
  foldr (fun f acc => "    " +:+ f +:+ String "," (String newline acc)) ")" fs
  = foldr (fun f acc => "    " +:+ f +:+ String "," (String newline acc))
      ")" fs' -> fs = fs'.
Proof.
  intros Hfs. revert fs'.
  induction Hfs as [|f fs Hf _ IH]; intros ? [|f' fs' Hf' Hfs']; simpl;
    try done.
  intros [= Heq]. apply pretty_field_inj in Heq as [-> Heq]; [|done..].
  by rewrite (IH fs').
Qed.

(** Fields that print on one line each are read back from the layout
    of [{:#?}]. *)
Lemma debug_tuple_pretty_inj (name : string) (fs fs' : list string) :
  Forall (fun f => no_newline f) fs -> Forall (fun f => no_newline f) fs' ->
  debug_tuple_pretty name fs = debug_tuple_pretty name fs' -> fs = fs'.
Proof.
  intros Hfs Hfs'. rewrite !debug_tuple_pretty_lines by done.
  destruct fs as [|f fs], fs' as [|f' fs']; try done.
  - intros Heq. rewrite <-(string_app_nil_r name) in Heq at 1.
    by apply string_app_inv_head in Heq.
  - intros Heq. rewrite <-(string_app_nil_r name) in Heq at 2.
    by apply string_app_inv_head in Heq.
  - intros Heq%string_app_inv_head%string_app_inv_head.
    by apply pretty_fields_inj.
Qed.

(** A wrapped error that prints on two lines is indented on both. *)
Example pad_adapter_two_lines :
  pad_adapter true ("Custom {" +:+ String newline "}," +:+ String newline "")
  = "    Custom {" +:+ String newline "    }," +:+ String newline "".
Proof. reflexivity. Qed.

(** ** The length of escaped text *)

Lemma length_escape_debug_char (c : ascii) :
  (String.length (escape_debug_char c) <= 6)%nat.
Proof. destruct c as [[] [] [] [] [] [] [] []]; vm_compute; lia. Qed.

Lemma length_escape_debug (s : string) :
  (String.length (escape_debug s) <= 6 * String.length s)%nat.
Proof.
  induction s as [|c s IH]; simpl; [done|]. rewrite length_string_app.
  pose proof (length_escape_debug_char c). lia.
Qed.

Lemma length_debug_string (alt : bool) (s : string) :
  (String.length (debug_fmt alt s) <= 2 + 6 * String.length s)%nat.
Proof.
  change (String.length (String quote (escape_debug s +:+ String quote ""))
          <= 2 + 6 * String.length s)%nat.
  cbn [String.length]. rewrite length_string_app.
  pose proof (length_escape_debug s). simpl. lia.
Qed.

(** ** Format strings *)

Example format_positional :
  format "{1}{{{0}}}" ["a"; "bc"] = Some "bc{a}".
Proof. reflexivity. Qed.

Example format_unindexed : format "{}" ["a"] = None.
Proof. reflexivity. Qed.

Example format_missing : format "{2}" ["a"; "b"] = None.
Proof. reflexivity. Qed.

(** A text without braces is a format string for itself. *)
Lemma scan_format_no_braces (s : string) :
  no_braces s -> exists ps, scan_format Text s = Some ps /\
    forall args, render ps args = Some s.
Proof.
  induction s as [|c s IH]; simpl; [by exists []|].
  intros [[Ho Hc]%andb_prop_elim Hs]%andb_prop_elim.
  destruct (Ascii.eqb c "{"), (Ascii.eqb c "}"); try done.
  destruct (IH Hs) as (ps & -> & Hps). exists (Lit c :: ps).
  split; [done|]. intros args. simpl. by rewrite Hps.
Qed.

Lemma format_no_braces (s : string) (args : list string) :
  no_braces s -> format s args = Some s.
Proof.
  intros (ps & Hps & Hr)%scan_format_no_braces. unfold format.
  rewrite Hps. simpl. apply Hr.
Qed.
