(* ===== verification/Error.v ===== *)
(** * The error union of the crate ([src/adb_client/src/error.rs])

    [RustADBError] with the impls that [#[derive(Error)]] and the
    [#[error(...)]] and [#[from]] attributes generate: [Display]
    ([Display_RustADBError]), [Error::source] ([Error_RustADBError]), one
    [From] per wrapped type ([From_*], collected by [from_wrapped]), and
    the alias [Result].  The attributes themselves are [error_attr], with
    the format strings of the source, and [display_of_attr] is their
    expansion, which [Display_RustADBError] is proved to be.  The wrapped
    types belong to other crates; [Wrapped] names them and [Extern] states
    what the model needs of them.  The [Debug] impl of [#[derive(Debug)]]
    is in [ErrorDebug.v]. *)

From S2P Require Import Prelude Fmt.

(** The thirteen foreign error types the enum wraps, by their Rust paths. *)
Inductive Wrapped : Type :=
| std_io_Error
| std_str_Utf8Error
| std_string_FromUtf8Error
| std_net_AddrParseError
| regex_Error
| std_num_ParseIntError
| image_ImageError
| homedir_GetHomeError
| rusb_Error
| base64_DecodeError
| base64_EncodeSliceError
| rsa_Error
| std_array_TryFromSliceError.

#[export] Instance Wrapped_eq_dec : EqDecision Wrapped.
Proof. solve_decision. Defined.

(** What the owning crates provide: each wrapped type implements
    [std::error::Error], hence [Display], [Debug] and [source]. *)
Class Extern := {
  ext : Wrapped -> Type;
  ext_Display k :: Display (ext k);
  ext_Debug k :: Debug (ext k);
  ext_Error k :: Error (ext k);
}.

Section error.
Context `{Extern}.

Inductive RustADBError : Type :=
| IOError (e : ext std_io_Error)
| ADBRequestFailed (s : string)
| UnknownResponseType (s : string)
| UnknownDeviceState (s : string)
| Utf8StrError (e : ext std_str_Utf8Error)
| Utf8StringError (e : ext std_string_FromUtf8Error)
| AddrParseError (e : ext std_net_AddrParseError)
| RegexError (e : ext regex_Error)
| RegexParsingError
| ParseIntError (e : ext std_num_ParseIntError)
| ConversionError
| ADBShellNotSupported
| DeviceNotFound (s : string)
| ADBDeviceNotPaired
| FramebufferImageError (e : ext image_ImageError)
| FramebufferConversionError
| UnimplementedFramebufferImageVersion (v : Z)
| HomeError (e : ext homedir_GetHomeError)
| NoHomeDirectory
| UsbError (e : ext rusb_Error)
| USBDeviceNotFound (vid pid : Z)
| USBNoDescriptorFound
| InvalidIntegrity (expected got : Z)
| Base64DecodeError (e : ext base64_DecodeError)
| Base64EncodeError (e : ext base64_EncodeSliceError)
| RSAError (e : ext rsa_Error)
| TryFromSliceError (e : ext std_array_TryFromSliceError).

(** [pub type Result<T> = std::result::Result<T, RustADBError>] *)
Definition Result (T : Type) : Type := result T RustADBError.

(** The payload types: [u32] for the framebuffer version and the two
    checksums, [u16] for the USB vendor and product ids. *)
Definition wf_error (err : RustADBError) : Prop :=
  match err with
  | UnimplementedFramebufferImageVersion v => u32_range v
  | USBDeviceNotFound vid pid => u16_range vid /\ u16_range pid
  | InvalidIntegrity expected got => u32_range expected /\ u32_range got
  | _ => True
  end.

(** The variants marked [#[error(transparent)]]. *)
Definition is_transparent (err : RustADBError) : bool :=
  match err with
  | IOError _ | Utf8StrError _ | Utf8StringError _ | AddrParseError _
  | RegexError _ | ParseIntError _ | FramebufferImageError _ | HomeError _
  | UsbError _ | Base64DecodeError _ | Base64EncodeError _ | RSAError _
  | TryFromSliceError _ => true
  | ADBRequestFailed _ | UnknownResponseType _ | UnknownDeviceState _
  | RegexParsingError | ConversionError | ADBShellNotSupported
  | DeviceNotFound _ | ADBDeviceNotPaired | FramebufferConversionError
  | UnimplementedFramebufferImageVersion _ | NoHomeDirectory
  | USBDeviceNotFound _ _ | USBNoDescriptorFound | InvalidIntegrity _ _ => false
  end.

(** [impl Display for RustADBError]: the format string of each
    [#[error("...")]] with its positional arguments rendered by their own
    [Display]; a transparent variant prints as the error it wraps. *)
#[export] Instance Display_RustADBError : Display RustADBError := fun err =>
  match err with
  | IOError e => fmt e
  | ADBRequestFailed s => "ADB request failed - " +:+ fmt s
  | UnknownResponseType s => "Unknown response type " +:+ fmt s
  | UnknownDeviceState s => "Unknown device state " +:+ fmt s
  | Utf8StrError e => fmt e
  | Utf8StringError e => fmt e
  | AddrParseError e => fmt e
  | RegexError e => fmt e
  | RegexParsingError => "Regex parsing error: missing field"
  | ParseIntError e => fmt e
  | ConversionError => "Conversion error"
  | ADBShellNotSupported => "Remote ADB server does not support shell feature"
  | DeviceNotFound s => "Device not found: " +:+ fmt s
  | ADBDeviceNotPaired => "Device not paired before attempting to connect"
  | FramebufferImageError e => fmt e
  | FramebufferConversionError => "Cannot convert framebuffer into image"
  | UnimplementedFramebufferImageVersion v =>
      "Unimplemented framebuffer image version: " +:+ fmt v
  | HomeError e => fmt e
  | NoHomeDirectory => "Cannot get home directory"
  | UsbError e => fmt e
  | USBDeviceNotFound vid pid =>
      "USB Device not found: " +:+ fmt vid +:+ " " +:+ fmt pid
  | USBNoDescriptorFound => "No USB descriptor found"
  | InvalidIntegrity expected got =>
      "Invalid integrity. Expected CRC32 " +:+ fmt expected +:+ ", got " +:+ fmt got
  | Base64DecodeError e => fmt e
  | Base64EncodeError e => fmt e
  | RSAError e => fmt e
  | TryFromSliceError e => fmt e
  end.

(** [impl std::error::Error for RustADBError]: a transparent variant
    forwards [source] to the error it wraps; no other variant has a
    [#[source]] or [#[from]] field. *)
#[export] Instance Error_RustADBError : Error RustADBError := fun err =>
  match err with
  | IOError e => source e
  | Utf8StrError e => source e
  | Utf8StringError e => source e
  | AddrParseError e => source e
  | RegexError e => source e
  | ParseIntError e => source e
  | FramebufferImageError e => source e
  | HomeError e => source e
  | UsbError e => source e
  | Base64DecodeError e => source e
  | Base64EncodeError e => source e
  | RSAError e => source e
  | TryFromSliceError e => source e
  | ADBRequestFailed _ | UnknownResponseType _ | UnknownDeviceState _
  | RegexParsingError | ConversionError | ADBShellNotSupported
  | DeviceNotFound _ | ADBDeviceNotPaired | FramebufferConversionError
  | UnimplementedFramebufferImageVersion _ | NoHomeDirectory
  | USBDeviceNotFound _ _ | USBNoDescriptorFound | InvalidIntegrity _ _ => None
  end.

(** The [From] impls, one per [#[from]] field. *)
#[export] Instance From_io_Error :
  From (ext std_io_Error) RustADBError := IOError.
#[export] Instance From_Utf8Error :
  From (ext std_str_Utf8Error) RustADBError := Utf8StrError.
#[export] Instance From_FromUtf8Error :
  From (ext std_string_FromUtf8Error) RustADBError := Utf8StringError.
#[export] Instance From_AddrParseError :
  From (ext std_net_AddrParseError) RustADBError := AddrParseError.
#[export] Instance From_regex_Error :
  From (ext regex_Error) RustADBError := RegexError.
#[export] Instance From_ParseIntError :
  From (ext std_num_ParseIntError) RustADBError := ParseIntError.
#[export] Instance From_ImageError :
  From (ext image_ImageError) RustADBError := FramebufferImageError.
#[export] Instance From_GetHomeError :
  From (ext homedir_GetHomeError) RustADBError := HomeError.
#[export] Instance From_rusb_Error :
  From (ext rusb_Error) RustADBError := UsbError.
#[export] Instance From_DecodeError :
  From (ext base64_DecodeError) RustADBError := Base64DecodeError.
#[export] Instance From_EncodeSliceError :
  From (ext base64_EncodeSliceError) RustADBError := Base64EncodeError.
#[export] Instance From_rsa_Error :
  From (ext rsa_Error) RustADBError := RSAError.
#[export] Instance From_TryFromSliceError :
  From (ext std_array_TryFromSliceError) RustADBError := TryFromSliceError.

(** The [From] impl selected by the type of the converted value. *)
Definition from_wrapped (k : Wrapped) : ext k -> RustADBError :=
  match k with
  | std_io_Error => from (From := From_io_Error)
  | std_str_Utf8Error => from (From := From_Utf8Error)
  | std_string_FromUtf8Error => from (From := From_FromUtf8Error)
  | std_net_AddrParseError => from (From := From_AddrParseError)
  | regex_Error => from (From := From_regex_Error)
  | std_num_ParseIntError => from (From := From_ParseIntError)
  | image_ImageError => from (From := From_ImageError)
  | homedir_GetHomeError => from (From := From_GetHomeError)
  | rusb_Error => from (From := From_rusb_Error)
  | base64_DecodeError => from (From := From_DecodeError)
  | base64_EncodeSliceError => from (From := From_EncodeSliceError)
  | rsa_Error => from (From := From_rsa_Error)
  | std_array_TryFromSliceError => from (From := From_TryFromSliceError)
  end.

(** The name [#[derive(Debug)]] prints for the variant. *)
Definition variant_name (err : RustADBError) : string :=
  match err with
  | IOError _ => "IOError"
  | ADBRequestFailed _ => "ADBRequestFailed"
  | UnknownResponseType _ => "UnknownResponseType"
  | UnknownDeviceState _ => "UnknownDeviceState"
  | Utf8StrError _ => "Utf8StrError"
  | Utf8StringError _ => "Utf8StringError"
  | AddrParseError _ => "AddrParseError"
  | RegexError _ => "RegexError"
  | RegexParsingError => "RegexParsingError"
  | ParseIntError _ => "ParseIntError"
  | ConversionError => "ConversionError"
  | ADBShellNotSupported => "ADBShellNotSupported"
  | DeviceNotFound _ => "DeviceNotFound"
  | ADBDeviceNotPaired => "ADBDeviceNotPaired"
  | FramebufferImageError _ => "FramebufferImageError"
  | FramebufferConversionError => "FramebufferConversionError"
  | UnimplementedFramebufferImageVersion _ =>
      "UnimplementedFramebufferImageVersion"
  | HomeError _ => "HomeError"
  | NoHomeDirectory => "NoHomeDirectory"
  | UsbError _ => "UsbError"
  | USBDeviceNotFound _ _ => "USBDeviceNotFound"
  | USBNoDescriptorFound => "USBNoDescriptorFound"
  | InvalidIntegrity _ _ => "InvalidIntegrity"
  | Base64DecodeError _ => "Base64DecodeError"
  | Base64EncodeError _ => "Base64EncodeError"
  | RSAError _ => "RSAError"
  | TryFromSliceError _ => "TryFromSliceError"
  end.

(** The [#[error(...)]] attribute of a variant: [transparent], or a format
    string over the fields of the variant. *)
Inductive ErrorAttr : Type :=
| transparent
| message (fmt_string : string).

Definition error_attr (err : RustADBError) : ErrorAttr :=
  match err with
  | IOError _ => transparent
  | ADBRequestFailed _ => message "ADB request failed - {0}"
  | UnknownResponseType _ => message "Unknown response type {0}"
  | UnknownDeviceState _ => message "Unknown device state {0}"
  | Utf8StrError _ => transparent
  | Utf8StringError _ => transparent
  | AddrParseError _ => transparent
  | RegexError _ => transparent
  | RegexParsingError => message "Regex parsing error: missing field"
  | ParseIntError _ => transparent
  | ConversionError => message "Conversion error"
  | ADBShellNotSupported =>
      message "Remote ADB server does not support shell feature"
  | DeviceNotFound _ => message "Device not found: {0}"
  | ADBDeviceNotPaired =>
      message "Device not paired before attempting to connect"
  | FramebufferImageError _ => transparent
  | FramebufferConversionError =>
      message "Cannot convert framebuffer into image"
  | UnimplementedFramebufferImageVersion _ =>
      message "Unimplemented framebuffer image version: {0}"
  | HomeError _ => transparent
  | NoHomeDirectory => message "Cannot get home directory"
  | UsbError _ => transparent
  | USBDeviceNotFound _ _ => message "USB Device not found: {0} {1}"
  | USBNoDescriptorFound => message "No USB descriptor found"
  | InvalidIntegrity _ _ =>
      message "Invalid integrity. Expected CRC32 {0}, got {1}"
  | Base64DecodeError _ => transparent
  | Base64EncodeError _ => transparent
  | RSAError _ => transparent
  | TryFromSliceError _ => transparent
  end.

(** The fields of the variant in their order, each by its own [Display]:
    what [{0}], [{1}] stand for in the format string. *)
Definition display_fields (err : RustADBError) : list string :=
  match err with
  | IOError e => [fmt e]
  | ADBRequestFailed s | UnknownResponseType s | UnknownDeviceState s
  | DeviceNotFound s => [fmt s]
  | Utf8StrError e => [fmt e]
  | Utf8StringError e => [fmt e]
  | AddrParseError e => [fmt e]
  | RegexError e => [fmt e]
  | ParseIntError e => [fmt e]
  | FramebufferImageError e => [fmt e]
  | UnimplementedFramebufferImageVersion v => [fmt v]
  | HomeError e => [fmt e]
  | UsbError e => [fmt e]
  | USBDeviceNotFound vid pid => [fmt vid; fmt pid]
  | InvalidIntegrity expected got => [fmt expected; fmt got]
  | Base64DecodeError e => [fmt e]
  | Base64EncodeError e => [fmt e]
  | RSAError e => [fmt e]
  | TryFromSliceError e => [fmt e]
  | RegexParsingError | ConversionError | ADBShellNotSupported
  | ADBDeviceNotPaired | FramebufferConversionError | NoHomeDirectory
  | USBNoDescriptorFound => []
  end.

(** What [#[derive(Error)]] makes of an attribute: a transparent variant
    has one field and prints it; a format string is expanded over the
    fields. *)
Definition display_of_attr (a : ErrorAttr) (fields : list string)
    : option string :=
  match a with
  | transparent => match fields with [x] => Some x | _ => None end
  | message f => format f fields
  end.

End error.

(** A stand-in for the foreign crates: a wrapped error is any error
    object, observed through its message and its cause.  It instantiates
    the theorems at concrete errors. *)
Definition dyn_extern : Extern :=
  {| ext := fun _ => DynError;
     ext_Display := fun _ => dyn_msg;
     ext_Debug := fun _ alt d => debug_fmt alt (dyn_msg d);
     ext_Error := fun _ => dyn_src |}.

(** The text of the [String] field of a variant that has one. *)
Definition payload_text `{Extern} (err : RustADBError) : string :=
  match err with
  | ADBRequestFailed s | UnknownResponseType s | UnknownDeviceState s
  | DeviceNotFound s => s
  | _ => ""
  end.

(** Unfolds the [Display] impls down to [pretty] and string append. *)
Ltac unfold_fmt :=
  cbv [fmt Display_RustADBError Display_string Display_Z] in *;
  simpl in *.

(** Runs the scanner on the format string in the goal. *)
Ltac scan_attr :=
  lazymatch goal with
  | |- context [scan_format Text ?f] =>
      let r := eval vm_compute in (scan_format Text f) in
      replace (scan_format Text f) with r by (vm_compute; reflexivity)
  end.

Section error_facts.
Context `{Extern}.
Implicit Types (err : RustADBError) (k : Wrapped).

(** *** The [From] impls *)

Lemma is_transparent_from_wrapped k (x : ext k) :
  is_transparent (from_wrapped k x) = true.
Proof. by destruct k. Qed.

Lemma is_transparent_inv err :
  is_transparent err = true -> exists k (x : ext k), err = from_wrapped k x.
Proof.
  destruct err; try done; intros _;
    by repeat match goal with x : ext ?k |- _ => exists k, x end.
Qed.

(** C16: the variants with a [#[from]] field are the transparent ones:
    an error is transparent exactly when a [From] impl produces it. *)
Theorem transparent_iff_from err :
  is_transparent err = true <-> exists k (x : ext k), err = from_wrapped k x.
Proof.
  split; [apply is_transparent_inv|].
  intros (k & x & ->). apply is_transparent_from_wrapped.
Qed.

(** *** [Display] and [source] *)

(** C3: a transparent variant is observationally the error it wraps: the
    trait object of [from_wrapped k x] has the message and the cause of
    [x], for each of the thirteen wrapped types. *)
Theorem transparent_as_dyn k (x : ext k) :
  as_dyn (from_wrapped k x) = as_dyn x.
Proof. by destruct k. Qed.

(** C11: only a transparent variant reports a cause: an error of the crate
    whose [source()] is [Some] wraps a foreign error. *)
Theorem source_Some_transparent err :
  is_Some (source err) -> is_transparent err = true.
Proof. destruct err; try done; by intros [? [=]]. Qed.

(** C22: the first twelve bytes of the message of an own variant name the
    variant, whatever the payload: a caller that tests a message with
    [starts_with] on that much text selects one variant. *)
Theorem fmt_prefix_variant ea eb :
  is_transparent ea = false -> is_transparent eb = false ->
  String.substring 0 12 (fmt ea) = String.substring 0 12 (fmt eb) ->
  variant_name ea = variant_name eb.
Proof.
  destruct ea; try done; intros _; destruct eb; try done; intros _;
    by unfold_fmt.
Qed.

Lemma pretty_sep_inj (a a' b b' : Z) (sep : string) (c : ascii) :
  0 <= a -> 0 <= a' -> is_digit c = false ->
  pretty a +:+ String c (sep +:+ pretty b)
    = pretty a' +:+ String c (sep +:+ pretty b') ->
  a = a' /\ b = b'.
Proof.
  intros Ha Ha' Hc [Heq1 Heq2]%digits_sep_inj;
    auto using all_digits_pretty.
  split; [by apply (inj pretty)|].
  by apply string_app_inv_head, (inj pretty) in Heq2.
Qed.

(** C1: the messages of the crate's own variants are unambiguous: two
    well-formed errors that are not transparent and print the same text
    are the same variant with the same payload. *)
Theorem fmt_own_inj ea eb :
  is_transparent ea = false -> is_transparent eb = false ->
  wf_error ea -> wf_error eb ->
  fmt ea = fmt eb -> ea = eb.
Proof.
  destruct ea; try done; intros _; destruct eb; try done; intros _;
    unfold_fmt; try done; intros Hw1 Hw2 Heq; simplify_eq; try done;
    destruct Hw1 as [[??] _], Hw2 as [[??] _].
  - by apply (pretty_sep_inj _ _ _ _ "") in Heq as [-> ->].
  - by apply (pretty_sep_inj _ _ _ _ " got ") in Heq as [-> ->].
Qed.

(** *** The [#[error(...)]] attributes *)

(** C5: the [Display] impl is the expansion of the attributes: for every
    variant, the text [fmt] prints is the format string of the variant's
    [#[error("...")]] attribute with [{0}], [{1}] replaced by the fields of
    the variant, and the text of the one field when the attribute is
    [transparent]; no attribute refers to a field the variant does not
    have. *)
Theorem fmt_error_attr err :
  display_of_attr (error_attr err) (display_fields err) = Some (fmt err).
Proof.
  destruct err; unfold display_of_attr, error_attr, format; try done;
    scan_attr; cbn -[String.append fmt]; by rewrite ?string_app_nil_r.
Qed.

(** C21: a message loses no field: the format string of a variant that is
    not transparent refers to every field of the variant exactly once, in
    the order of the fields. *)
Theorem error_attr_placeholders err f :
  error_attr err = message f ->
  placeholders f = Some (seq 0 (length (display_fields err))).
Proof. destruct err; intros [= <-]; reflexivity. Qed.

(** C31: a message of the crate is short: at most sixty bytes beside the
    text the caller put in the error. *)
Theorem fmt_length_bound err :
  is_transparent err = false -> wf_error err ->
  (String.length (fmt err) <= 60 + String.length (payload_text err))%nat.
Proof.
  destruct err; try done; intros _ Hwf;
    cbv [fmt Display_RustADBError Display_string Display_Z payload_text];
    rewrite ?length_string_app; cbn [String.length]; try lia.
  - pose proof (length_pretty_u32 _ Hwf). lia.
  - destruct Hwf as [Hv%length_pretty_u16 Hp%length_pretty_u16]. lia.
  - destruct Hwf as [He%length_pretty_u32 Hg%length_pretty_u32]. lia.
Qed.

(** C30: a message of the crate is printable ASCII whenever the text the
    caller put in the error is: the format strings and the decimal
    payloads add no control character and no byte above [0x7E]. *)
Theorem fmt_printable err :
  is_transparent err = false -> wf_error err ->
  all_printable (payload_text err) -> all_printable (fmt err).
Proof.
  destruct err; try done; intros _ Hwf Hp;
    cbv [fmt Display_RustADBError Display_string Display_Z payload_text] in *;
    repeat apply all_printable_app; try done;
    apply all_printable_pretty; unfold wf_error, u32_range, u16_range in Hwf;
    lia.
Qed.

End error_facts.

(** *** The theorems at concrete errors *)

Lemma fmt_own_inj_witness :
  fmt (USBDeviceNotFound (H := dyn_extern) 1 23)
    <> fmt (USBDeviceNotFound (H := dyn_extern) 12 3).
Proof.
  intros Heq. apply fmt_own_inj in Heq; [discriminate Heq|done..| |];
    by vm_compute.
Defined.

Lemma source_Some_transparent_witness :
  is_transparent
    (IOError (H := dyn_extern) (caused "read failed" (root "EOF"))) = true.
Proof. apply source_Some_transparent. by eexists. Defined.

Lemma fmt_length_bound_witness :
  (String.length (fmt (InvalidIntegrity (H := dyn_extern) 4294967295 4294967295))
    <= 60 + 0)%nat.
Proof.
  apply (fmt_length_bound (InvalidIntegrity 4294967295 4294967295));
    [done|by vm_compute].
Defined.

Lemma fmt_printable_witness :
  all_printable (fmt (DeviceNotFound (H := dyn_extern) "emulator-5554")).
Proof. by apply fmt_printable. Defined.

Lemma transparent_iff_from_witness :
  exists k x, UsbError (H := dyn_extern) (root "NoDevice") = from_wrapped k x.
Proof. by apply transparent_iff_from. Defined.

Lemma fmt_prefix_variant_witness :
  String.substring 0 12 (fmt (DeviceNotFound (H := dyn_extern) ""))
    <> String.substring 0 12 (fmt (ADBDeviceNotPaired (H := dyn_extern))).
Proof.
  intros Heq. apply fmt_prefix_variant in Heq; [discriminate Heq|done..].
Defined.

(** Twelve is the least such length: [DeviceNotFound] and
    [ADBDeviceNotPaired] agree on the first eleven bytes of their
    messages. *)
Example fmt_prefix_tight :
  String.substring 0 11 (fmt (DeviceNotFound (H := dyn_extern) "emulator-5554"))
    = String.substring 0 11 (fmt (ADBDeviceNotPaired (H := dyn_extern)))
  /\ variant_name (DeviceNotFound (H := dyn_extern) "emulator-5554")
       <> variant_name (ADBDeviceNotPaired (H := dyn_extern)).
Proof. by split. Qed.

Lemma error_attr_placeholders_witness :
  placeholders "Invalid integrity. Expected CRC32 {0}, got {1}"
  = Some (seq 0
      (length (display_fields (InvalidIntegrity (H := dyn_extern) 1 2)))).
Proof. by apply (error_attr_placeholders (InvalidIntegrity 1 2)). Defined.

(** *** What the text of an error does not tell *)

(** Injectivity of the messages stops at the own variants: a transparent
    variant prints whatever the wrapped error prints, here the message of
    [ConversionError]. *)
Example fmt_transparent_collision :
  fmt (IOError (H := dyn_extern) (root "Conversion error"))
    = fmt (ConversionError (H := dyn_extern))
  /\ IOError (H := dyn_extern) (root "Conversion error") <> ConversionError.
Proof. by split. Qed.

(** The union has no variant named [UnknownCommand] or [InvalidMagic],
    the two decoding faults the specification names beside
    [InvalidIntegrity]. *)
Example no_variant_for_codec_faults `{Extern} (err : RustADBError) :
  variant_name err <> "UnknownCommand" /\ variant_name err <> "InvalidMagic".
Proof. by destruct err. Qed.
