(* ===== verification/ErrorDebug.v ===== *)
(** * [#[derive(Debug)]] on the error union
      ([src/adb_client/src/error.rs], line 7)

    [Debug_RustADBError] is the [Debug] impl the derive writes for
    [RustADBError]: the name of the variant and its fields as a tuple, on
    one line under [{:?}] and on a line per field under [{:#?}].  The
    theorems say what the text determines (the variant always, and the
    whole error when the texts of the wrapped types determine their
    values, under either flag and also when a text follows), that it is
    safe to log and stays on one line, how it is laid out under [{:#?}],
    for own and for wrapped errors, and how long it can be. *)

From S2P Require Import Prelude Fmt Error.

Section debug.
Context `{Extern}.

(** The fields of the variant, each by its own [Debug] under the flag of
    the formatter. *)
Definition debug_fields (alt : bool) (err : RustADBError) : list string :=
  match err with
  | IOError e => [debug_fmt alt e]
  | ADBRequestFailed s | UnknownResponseType s | UnknownDeviceState s
  | DeviceNotFound s => [debug_fmt alt s]
  | Utf8StrError e => [debug_fmt alt e]
  | Utf8StringError e => [debug_fmt alt e]
  | AddrParseError e => [debug_fmt alt e]
  | RegexError e => [debug_fmt alt e]
  | ParseIntError e => [debug_fmt alt e]
  | FramebufferImageError e => [debug_fmt alt e]
  | UnimplementedFramebufferImageVersion v => [debug_fmt alt v]
  | HomeError e => [debug_fmt alt e]
  | UsbError e => [debug_fmt alt e]
  | USBDeviceNotFound vid pid => [debug_fmt alt vid; debug_fmt alt pid]
  | InvalidIntegrity expected got =>
      [debug_fmt alt expected; debug_fmt alt got]
  | Base64DecodeError e => [debug_fmt alt e]
  | Base64EncodeError e => [debug_fmt alt e]
  | RSAError e => [debug_fmt alt e]
  | TryFromSliceError e => [debug_fmt alt e]
  | RegexParsingError | ConversionError | ADBShellNotSupported
  | ADBDeviceNotPaired | FramebufferConversionError | NoHomeDirectory
  | USBNoDescriptorFound => []
  end.

(** [impl Debug for RustADBError] of [#[derive(Debug)]]: the name of the
    variant, followed by its fields as a tuple when it has any, on one
    line under [{:?}] and a line per field under [{:#?}]. *)
#[export] Instance Debug_RustADBError : Debug RustADBError := fun alt err =>
  (if alt then debug_tuple_pretty else debug_tuple)
    (variant_name err) (debug_fields alt err).

End debug.

(** Unfolds the [Debug] impl down to the [Debug] of the fields. *)
Ltac unfold_debug :=
  cbv [fmt_debug debug_fmt Debug_RustADBError debug_tuple debug_fields
       variant_name Debug_Z foldr] in *.

Ltac unfold_debug_alt :=
  cbv [fmt_debug_alt debug_fmt Debug_RustADBError debug_tuple_pretty
       debug_fields variant_name Debug_Z foldr] in *.

(** A second stand-in for the foreign crates: a wrapped error is its
    message, and [Debug] prints it as text. *)
Definition text_extern : Extern :=
  {| ext := fun _ => string;
     ext_Display := fun _ s => s;
     ext_Debug := fun _ => Debug_string;
     ext_Error := fun _ _ => None |}.

(** A third one, whose wrapped errors print their text as it is, line
    feeds included. *)
Definition raw_extern : Extern :=
  {| ext := fun _ => string;
     ext_Display := fun _ s => s;
     ext_Debug := fun _ _ s => s;
     ext_Error := fun _ _ => None |}.

Section debug_facts.
Context `{Extern}.
Implicit Types (err : RustADBError) (k : Wrapped).

(** ** [Debug] under [{:?}]

    [Debug_RustADBError false err] is the text [{:?}] prints for [err],
    the impl called with the flag [alternate] off. *)

(** C13: the [Debug] text names the variant, for all twenty-seven variants
    and whatever the wrapped crates print: two errors with the same
    [Debug] text are the same variant.  The name ends at the parenthesis
    or at the end of the text, and no name continues another. *)
Theorem debug_variant ea eb :
  Debug_RustADBError false ea = Debug_RustADBError false eb ->
  variant_name ea = variant_name eb.
Proof. destruct ea, eb; try done; by unfold_debug. Qed.

Lemma pretty_end_inj (a a' : Z) (c : ascii) (r r' : string) :
  0 <= a -> 0 <= a' -> is_digit c = false ->
  pretty a +:+ String c r = pretty a' +:+ String c r' -> a = a' /\ r = r'.
Proof.
  intros Ha Ha' Hc [Heq ->]%digits_sep_inj; auto using all_digits_pretty.
  split; [by apply (inj pretty)|done].
Qed.

(** The [Debug] text of an own variant ends where it ends: followed by
    any text, it still determines the error and the text that follows.
    The texts of the [String] fields are escaped, so a field cannot
    imitate the end of the tuple, and no name of a variant is the
    beginning of another. *)
Lemma debug_own_delimited ea eb r r' :
  is_transparent ea = false -> wf_error ea -> wf_error eb ->
  fmt_debug ea +:+ r = fmt_debug eb +:+ r' -> ea = eb /\ r = r'.
Proof.
  destruct ea; try done; intros _; destruct eb; unfold_debug;
    rewrite <-?string_app_assoc; try done;
    intros Hw1 Hw2 Heq; try (by apply (inj (String.app _)) in Heq as ->);
    do 2 apply (inj (String.app _)) in Heq;
    try (apply fmt_debug_string_inj in Heq as [-> Heq];
         by apply string_app_inv_head in Heq as ->);
    try (by destruct Hw1, Hw2; apply pretty_end_inj in Heq as [-> ->]);
    destruct Hw1 as [[] []], Hw2 as [[] []];
    (apply pretty_end_inj in Heq as [-> Heq]; [|done..]);
    injection Heq as Heq; by apply pretty_end_inj in Heq as [-> ->].
Qed.

Lemma debug_own_inj ea eb :
  is_transparent ea = false -> wf_error ea -> wf_error eb ->
  fmt_debug ea = fmt_debug eb -> ea = eb.
Proof.
  intros Ht Hwa Hwb Heq. apply (f_equal (fun t => t +:+ "")) in Heq.
  by apply debug_own_delimited in Heq as [-> _].
Qed.

(** The [Debug] text of a transparent variant determines the error when
    the [Debug] text of the wrapped type determines the wrapped error. *)
Lemma debug_transparent_inj ea eb :
  is_transparent ea = true ->
  (forall k, Inj (=) (=) (fmt_debug (T := ext k))) ->
  fmt_debug ea = fmt_debug eb -> ea = eb.
Proof.
  intros Ht Hinj. destruct ea; try done; clear Ht; destruct eb;
    unfold_debug; try done; intros Heq;
    do 2 apply (inj (String.app _)) in Heq;
    apply string_app_inv_tail in Heq; by apply Hinj in Heq as ->.
Qed.

(** C18: the [Debug] text determines the error: two well-formed errors
    with the same [Debug] text are equal, variant and fields, whenever the
    wrapped types have [Debug] texts that determine their values.  The
    name ends at the parenthesis, the texts of the [String] fields are
    escaped and the tuple is closed once, so no field imitates another
    variant or the end of the tuple. *)
Theorem debug_inj ea eb :
  wf_error ea -> wf_error eb ->
  (forall k, Inj (=) (=) (fmt_debug (T := ext k))) ->
  Debug_RustADBError false ea = Debug_RustADBError false eb -> ea = eb.
Proof.
  intros. destruct (is_transparent ea) eqn:Ht;
    eauto using debug_own_inj, debug_transparent_inj.
Qed.

(** C23: the [Debug] text is safe to log: for an own variant that carries
    ASCII text, whatever control characters are in it, the [Debug] text is
    printable ASCII, because the text is escaped; [Display] prints the
    text as it is. *)
Theorem debug_printable err :
  is_transparent err = false -> wf_error err ->
  is_ascii_text (payload_text err) ->
  all_printable (Debug_RustADBError false err).
Proof.
  destruct err; try done; intros _ Hwf Hp; unfold_debug; simpl in Hp;
    repeat apply all_printable_app; auto with adb; try done;
    apply all_printable_pretty; unfold wf_error, u32_range, u16_range in Hwf;
    lia.
Qed.

(** ** [Debug] inside a longer text *)

Lemma debug_transparent_delimited ea eb r r' :
  is_transparent ea = true ->
  (forall k (x x' : ext k) t t',
     fmt_debug x +:+ t = fmt_debug x' +:+ t' -> x = x' /\ t = t') ->
  fmt_debug ea +:+ r = fmt_debug eb +:+ r' -> ea = eb /\ r = r'.
Proof.
  intros Ht Hdel. destruct ea; try done; clear Ht; destruct eb;
    unfold_debug; rewrite <-?string_app_assoc; try done; intros Heq;
    do 2 apply (inj (String.app _)) in Heq;
    apply Hdel in Heq as [-> Heq];
    by apply string_app_inv_head in Heq as ->.
Qed.

(** C27: the [{:?}] text of an error ends where it ends: followed by any
    text, as inside the [{:?}] text of a [Result], a tuple or a vector, it
    determines the error and the text that follows, whenever the texts of
    the wrapped types do.  No name of a variant is the beginning of
    another, a variant without fields ends with its name, and the closing
    parenthesis of a tuple is the first one outside a quoted text. *)
Theorem debug_delimited ea eb r r' :
  wf_error ea -> wf_error eb ->
  (forall k (x x' : ext k) t t',
     fmt_debug x +:+ t = fmt_debug x' +:+ t' -> x = x' /\ t = t') ->
  Debug_RustADBError false ea +:+ r = Debug_RustADBError false eb +:+ r' ->
  ea = eb /\ r = r'.
Proof.
  intros. destruct (is_transparent ea) eqn:Ht;
    eauto using debug_own_delimited, debug_transparent_delimited.
Qed.

(** ** Lines

    [{:#?}] lays an error out on lines; [{:?}] keeps it on one. *)

Lemma no_newline_own_fields err alt :
  is_transparent err = false -> wf_error err ->
  Forall (fun f => no_newline f) (debug_fields alt err).
Proof.
  destruct err; try done; intros _ Hwf; simpl;
    repeat apply Forall_cons_2; try apply Forall_nil_2;
    try apply no_newline_debug_string;
    apply no_newline_debug_Z; unfold wf_error, u32_range, u16_range in Hwf;
    lia.
Qed.

(** C29: an own variant is one line under [{:?}], whatever bytes the
    caller put in the error, because a line feed in a [String] field is
    escaped; its message is one line exactly when the caller's text is,
    because [Display] prints the text as it is and the format strings
    have no line feed of their own. *)
Theorem debug_one_line err :
  is_transparent err = false -> wf_error err ->
  no_newline (Debug_RustADBError false err)
  /\ (no_newline (fmt err) <-> no_newline (payload_text err)).
Proof.
  intros Ht Hwf. pose proof (no_newline_own_fields err false Ht Hwf) as Hfs.
  split.
  - destruct err; try done; unfold_debug;
      repeat (apply Forall_cons_1 in Hfs as [? Hfs]);
      by repeat (apply no_newline_app; [try done|]).
  - destruct err; try done;
      cbv [fmt Display_RustADBError Display_string Display_Z payload_text];
      rewrite ?no_newline_app_iff; try done;
      repeat (apply Forall_cons_1 in Hfs as [? Hfs]); by intuition.
Qed.

(** The fields of an own variant print the same under both flags. *)
Lemma debug_fields_own_alt err alt :
  is_transparent err = false -> debug_fields alt err = debug_fields false err.
Proof. by destruct err. Qed.

(** C20: under [{:#?}] an own variant prints its name, and when it has
    fields a line per field: four spaces, the field as [{:?}] prints it,
    a comma.  A line feed in a [String] payload is escaped and starts no
    line of its own. *)
Theorem debug_pretty_layout err :
  is_transparent err = false -> wf_error err ->
  fmt_debug_alt err
  = match debug_fields false err with
    | [] => variant_name err
    | _ =>
        variant_name err +:+ String "(" (String newline "")
        +:+ foldr (fun f acc =>
                     "    " +:+ f +:+ String "," (String newline acc)) ")"
              (debug_fields false err)
    end.
Proof.
  intros Ht Hwf. rewrite <-(debug_fields_own_alt err true Ht).
  apply (debug_tuple_pretty_lines (variant_name err) (debug_fields true err)).
  by apply no_newline_own_fields.
Qed.

(** C28: under [{:#?}] a wrapped error is printed between the
    parentheses of its variant, every line of its own [{:#?}] text four
    columns to the right and a comma after the last one, for each of the
    thirteen wrapped types and however many lines the wrapped type
    prints. *)
Theorem debug_pretty_wrapped k (x : ext k) :
  Debug_RustADBError true (from_wrapped k x)
  = variant_name (from_wrapped k x) +:+ String "(" (String newline "")
    +:+ unlines (indent (lines (fmt_debug_alt x +:+ ","))) +:+ ")".
Proof. destruct k; apply debug_tuple_pretty_one. Qed.

(** The name comes first under [{:#?}] as well. *)
Lemma debug_alt_variant ea eb :
  fmt_debug_alt ea = fmt_debug_alt eb -> variant_name ea = variant_name eb.
Proof. destruct ea, eb; try done; by unfold_debug_alt. Qed.

Lemma variant_name_transparent ea eb :
  variant_name ea = variant_name eb -> is_transparent ea = is_transparent eb.
Proof. by destruct ea, eb. Qed.

(** The fields of an own variant determine its payload. *)
Lemma own_fields_inj ea eb :
  is_transparent ea = false -> variant_name ea = variant_name eb ->
  debug_fields false ea = debug_fields false eb -> ea = eb.
Proof.
  destruct ea; try done; intros _; destruct eb; try done; intros _;
    cbv [debug_fields debug_fmt Debug_Z]; intros Heq; simplify_eq; try done;
    match goal with
    | Hs : escape_debug _ +:+ _ = _ |- _ =>
        by apply escape_debug_inj in Hs as [-> _]
    end.
Qed.

Lemma debug_alt_own_inj ea eb :
  is_transparent ea = false -> wf_error ea -> wf_error eb ->
  fmt_debug_alt ea = fmt_debug_alt eb -> ea = eb.
Proof.
  intros Ht Hwa Hwb Heq. pose proof (debug_alt_variant _ _ Heq) as Hn.
  pose proof (variant_name_transparent _ _ Hn) as Ht'. rewrite Ht in Ht'.
  apply own_fields_inj; [done..|].
  rewrite <-(debug_fields_own_alt ea true), <-(debug_fields_own_alt eb true)
    by done.
  apply (debug_tuple_pretty_inj (variant_name ea));
    [by apply no_newline_own_fields..|].
  rewrite Hn at 2. exact Heq.
Qed.

Lemma debug_alt_transparent_inj ea eb :
  is_transparent ea = true ->
  (forall k, Inj (=) (=) (fmt_debug_alt (T := ext k))) ->
  fmt_debug_alt ea = fmt_debug_alt eb -> ea = eb.
Proof.
  intros Ht Hinj. destruct ea; try done; clear Ht; destruct eb;
    unfold_debug_alt; try done; intros Heq;
    do 2 apply (inj (String.app _)) in Heq;
    apply string_app_inv_tail, pad_adapter_inj, string_app_inv_tail in Heq;
    by apply Hinj in Heq as ->.
Qed.

(** C26: the [{:#?}] text determines the error as the [{:?}] text does:
    two well-formed errors with the same text under [{:#?}] are equal,
    variant and fields, whenever the wrapped types have [{:#?}] texts
    that determine their values.  The indentation loses nothing, and a
    field that prints on one line ends at the first line feed after
    it. *)
Theorem debug_alt_inj ea eb :
  wf_error ea -> wf_error eb ->
  (forall k, Inj (=) (=) (fmt_debug_alt (T := ext k))) ->
  Debug_RustADBError true ea = Debug_RustADBError true eb -> ea = eb.
Proof.
  intros. destruct (is_transparent ea) eqn:Ht;
    eauto using debug_alt_own_inj, debug_alt_transparent_inj.
Qed.

(** C32: the [Debug] text of an own variant is at most forty-eight bytes
    beside the text the caller put in the error, of which every byte
    prints as six bytes at most. *)
Theorem debug_length_bound err :
  is_transparent err = false -> wf_error err ->
  (String.length (Debug_RustADBError false err)
   <= 48 + 6 * String.length (payload_text err))%nat.
Proof.
  destruct err; try done; intros _ Hwf;
    cbv [fmt_debug debug_fmt Debug_RustADBError debug_tuple debug_fields
         variant_name payload_text foldr Debug_Z];
    rewrite ?length_string_app; cbn [String.length];
    try (pose proof (length_debug_string false s) as Hs;
         unfold debug_fmt in Hs); try lia.
  - pose proof (length_pretty_u32 _ Hwf). lia.
  - destruct Hwf as [Hv%length_pretty_u16 Hp%length_pretty_u16]. lia.
  - destruct Hwf as [He%length_pretty_u32 Hg%length_pretty_u32]. lia.
Qed.

End debug_facts.

(** A serial with a line break in it prints on one line. *)
Lemma debug_printable_witness :
  all_printable
    (fmt_debug (DeviceNotFound (H := dyn_extern)
                  ("emulator" +:+ String (ascii_of_N 10) "5554"))).
Proof. by apply debug_printable. Defined.

(** [Debug] tells [IOError] from [ConversionError] where [Display] does
    not. *)
Lemma debug_variant_witness :
  fmt_debug (IOError (H := dyn_extern) (root "Conversion error"))
    <> fmt_debug (ConversionError (H := dyn_extern)).
Proof. intros Heq%debug_variant. discriminate Heq. Defined.

(** A message that contains a quote and a parenthesis does not print as
    a shorter message. *)
Lemma debug_inj_witness :
  fmt_debug (IOError (H := text_extern) "a")
    <> fmt_debug (IOError (H := text_extern) ("a" +:+ String quote ")")).
Proof.
  intros Heq. apply debug_inj in Heq; [discriminate Heq|done..|].
  intros k. apply Debug_string_inj.
Defined.

(** A serial with a line feed prints on one line under [{:?}] and on two
    as a message. *)
Lemma debug_one_line_witness :
  no_newline
    (Debug_RustADBError false
       (DeviceNotFound (H := dyn_extern) ("emulator" +:+ String newline "5554")))
  /\ (no_newline
        (fmt (DeviceNotFound (H := dyn_extern)
                ("emulator" +:+ String newline "5554")))
      <-> no_newline ("emulator" +:+ String newline "5554")).
Proof. by apply debug_one_line. Defined.

(** A serial followed by a text is not a longer serial. *)
Lemma debug_delimited_witness :
  Debug_RustADBError false (DeviceNotFound (H := text_extern) "a") +:+ ", b"
    <> Debug_RustADBError false
         (DeviceNotFound (H := text_extern) ("a" +:+ String quote "), b"))
       +:+ "".
Proof.
  intros Heq. apply debug_delimited in Heq as [Heq _];
    [discriminate Heq|done..|].
  intros k. apply fmt_debug_string_inj.
Defined.

(** Two checksums on a line each are not mistaken for two others. *)
Lemma debug_alt_inj_witness :
  Debug_RustADBError true (InvalidIntegrity (H := text_extern) 1 23)
    <> Debug_RustADBError true (InvalidIntegrity (H := text_extern) 12 3).
Proof.
  intros Heq. apply debug_alt_inj in Heq;
    [discriminate Heq|by vm_compute..|].
  intros k. apply Debug_string_inj.
Defined.

(** A wrapped error that prints a struct on three lines. *)
Example debug_pretty_wrapped_struct :
  Debug_RustADBError true
    (IOError (H := raw_extern)
       ("Os {" +:+ String newline "    code: 2," +:+ String newline "}"))
  = "IOError(" +:+ String newline "    Os {"
    +:+ String newline "        code: 2,"
    +:+ String newline "    }," +:+ String newline ")".
Proof. reflexivity. Qed.

(** A serial with a line feed in it stays on the one line of its field. *)
Lemma debug_pretty_layout_witness :
  fmt_debug_alt
    (DeviceNotFound (H := dyn_extern) ("emulator" +:+ String newline "5554"))
  = "DeviceNotFound(" +:+ String newline "    "
    +:+ String quote "emulator" +:+ String backslash "n5554"
    +:+ String quote "," +:+ String newline ")".
Proof.
  exact (debug_pretty_layout
           (DeviceNotFound ("emulator" +:+ String newline "5554")) eq_refl I).
Defined.

(** The bound is reached: the longest name with the longest [u32]. *)
Lemma debug_length_bound_witness :
  String.length
    (fmt_debug
       (UnimplementedFramebufferImageVersion (H := dyn_extern) 4294967295))
  = 48%nat
  /\ (String.length
        (fmt_debug
           (UnimplementedFramebufferImageVersion (H := dyn_extern) 4294967295))
      <= 48 + 6 * 0)%nat.
Proof.
  split; [done|].
  apply (debug_length_bound (H := dyn_extern)
           (UnimplementedFramebufferImageVersion 4294967295));
    [done|by vm_compute].
Defined.

(** Two fields, a line each. *)
Example debug_pretty_two_fields :
  fmt_debug_alt (InvalidIntegrity (H := dyn_extern) 1 2)
  = "InvalidIntegrity(" +:+ String newline "    1,"
    +:+ String newline "    2," +:+ String newline ")".
Proof. reflexivity. Qed.

(** Three faults of conversion carry no context: [ConversionError],
    [FramebufferConversionError] and [RegexParsingError] have no field, so
    neither the message nor the [Debug] text has anything of the value
    that failed to convert. *)
Example conversion_faults_no_context :
  Forall (fun err : RustADBError (H := dyn_extern) =>
            display_fields err = [] /\ debug_fields false err = [])
    [ConversionError; FramebufferConversionError; RegexParsingError].
Proof. by repeat constructor. Qed.
