(* ===== verification/Bytes.v ===== *)
(** * Bytes and little-endian words

    The byte strings of the wire format: a byte is a [Byte.byte], a word of
    [n] bytes is a [Z] below [2 ^ (8 * n)].  [to_le_bytes] and
    [from_le_bytes] are [u32::to_le_bytes] and [u32::from_le_bytes] at four
    bytes; [u32_not] is the bitwise complement of a [u32]. *)

From S2P Require Import Prelude.
From Stdlib Require Export Strings.Byte.
From stdpp Require Import list_numbers.

#[local] Open Scope Z_scope.

Definition byte_to_Z (b : byte) : Z := Z.of_N (Byte.to_N b).

Definition byte_of_Z (z : Z) : byte :=
  default Byte.x00 (Byte.of_N (Z.to_N (z mod 2 ^ 8))).

Definition to_le_bytes (n : nat) (z : Z) : list byte :=
  byte_of_Z <$> Z_to_little_endian (Z.of_nat n) 8 z.

Definition from_le_bytes (bs : list byte) : Z :=
  little_endian_to_Z 8 (byte_to_Z <$> bs).

(** [x ^ 0xFFFFFFFF] *)
Definition u32_not (z : Z) : Z := Z.lxor z (Z.ones 32).

(** The bytes of an ASCII text. *)
Fixpoint bytes_of_string (s : string) : list byte :=
  match s with
  | EmptyString => []
  | String c s' => byte_of_ascii c :: bytes_of_string s'
  end.

(** ** Bytes *)

Lemma byte_to_Z_range (b : byte) : u8_range (byte_to_Z b).
Proof.
  unfold u8_range, byte_to_Z. pose proof (Byte.to_N_bounded b). lia.
Qed.

Lemma byte_to_of_Z (z : Z) : byte_to_Z (byte_of_Z z) = z mod 2 ^ 8.
Proof.
  unfold byte_to_Z, byte_of_Z.
  pose proof (Z.mod_pos_bound z (2 ^ 8) eq_refl) as Hz.
  destruct (Byte.of_N _) as [b|] eqn:Hb; simpl.
  - apply Byte.to_of_N in Hb. lia.
  - apply Byte.of_N_None_iff in Hb. lia.
Qed.

Lemma byte_of_to_Z (b : byte) : byte_of_Z (byte_to_Z b) = b.
Proof.
  unfold byte_of_Z. rewrite Z.mod_small by apply byte_to_Z_range.
  unfold byte_to_Z. by rewrite N2Z.id, Byte.of_to_N.
Qed.

#[export] Instance byte_to_Z_inj : Inj (=) (=) byte_to_Z.
Proof. intros b b' Heq. by rewrite <-(byte_of_to_Z b), Heq, byte_of_to_Z. Qed.

#[export] Instance byte_eq_dec : EqDecision byte := Byte.byte_eq_dec.

Lemma Forall_byte_to_Z (bs : list byte) :
  Forall (fun b => 0 <= b < 2 ^ 8) (byte_to_Z <$> bs).
Proof. apply Forall_fmap, Forall_true, byte_to_Z_range. Qed.

Lemma fmap_byte_to_of_Z (zs : list Z) :
  Forall (fun b => 0 <= b < 2 ^ 8) zs -> byte_to_Z <$> (byte_of_Z <$> zs) = zs.
Proof.
  induction 1 as [|z zs Hz _ IH]; csimpl; [done|].
  by rewrite IH, byte_to_of_Z, Z.mod_small.
Qed.

Lemma fmap_byte_of_to_Z (bs : list byte) :
  byte_of_Z <$> (byte_to_Z <$> bs) = bs.
Proof. induction bs as [|b bs IH]; csimpl; [done|]. by rewrite IH, byte_of_to_Z. Qed.

(** ** Little-endian words *)

Lemma length_to_le_bytes (n : nat) (z : Z) : length (to_le_bytes n z) = n.
Proof.
  unfold to_le_bytes. rewrite length_fmap. apply Nat2Z.inj.
  apply length_Z_to_little_endian. lia.
Qed.

Lemma from_to_le_bytes (n : nat) (z : Z) :
  from_le_bytes (to_le_bytes n z) = z mod 2 ^ (8 * Z.of_nat n).
Proof.
  unfold from_le_bytes, to_le_bytes.
  rewrite fmap_byte_to_of_Z by (apply Z_to_little_endian_bound; lia).
  rewrite little_endian_to_Z_to_little_endian by lia. f_equal. f_equal. lia.
Qed.

Lemma to_from_le_bytes (bs : list byte) :
  to_le_bytes (length bs) (from_le_bytes bs) = bs.
Proof.
  unfold from_le_bytes, to_le_bytes.
  rewrite Z_to_little_endian_to_Z;
    [apply fmap_byte_of_to_Z|by rewrite length_fmap|done|apply Forall_byte_to_Z].
Qed.

Lemma from_le_bytes_range (bs : list byte) :
  0 <= from_le_bytes bs < 2 ^ (8 * Z.of_nat (length bs)).
Proof.
  unfold from_le_bytes.
  pose proof (little_endian_to_Z_bound 8 (byte_to_Z <$> bs)) as Hb.
  rewrite length_fmap, Z.mul_comm in Hb. apply Hb; [done|apply Forall_byte_to_Z].
Qed.

(** A [u32] survives the trip through its four bytes. *)
Lemma from_to_le_bytes_u32 (z : Z) :
  u32_range z -> from_le_bytes (to_le_bytes 4 z) = z.
Proof. intros Hz. rewrite from_to_le_bytes. by apply Z.mod_small. Qed.

Lemma to_le_bytes_u32_inj (z z' : Z) :
  u32_range z -> u32_range z' -> to_le_bytes 4 z = to_le_bytes 4 z' -> z = z'.
Proof.
  intros Hz Hz' Heq.
  by rewrite <-(from_to_le_bytes_u32 z), Heq, from_to_le_bytes_u32.
Qed.

(** ** The complement of a [u32] *)

Lemma u32_not_range (z : Z) : u32_range z -> u32_range (u32_not z).
Proof.
  intros [Hz Hlt]. unfold u32_range, u32_not.
  apply Z.bounded_iff_bits_nonneg'; [lia|apply Z.lxor_nonneg; by split|].
  intros l Hl. rewrite Z.lxor_spec, Z.ones_spec_high by lia.
  rewrite (proj1 (Z.bounded_iff_bits_nonneg' 32 z ltac:(lia) Hz)); [done| |done].
  by split.
Qed.

Lemma u32_not_involutive (z : Z) : u32_not (u32_not z) = z.
Proof.
  unfold u32_not. by rewrite Z.lxor_assoc, Z.lxor_nilpotent, Z.lxor_0_r.
Qed.

#[export] Instance u32_not_inj : Inj (=) (=) u32_not.
Proof.
  intros z z' Heq. by rewrite <-(u32_not_involutive z), Heq, u32_not_involutive.
Qed.

#[export] Hint Resolve byte_to_Z_range u32_not_range from_le_bytes_range : adb.
#[export] Hint Rewrite length_to_le_bytes from_to_le_bytes to_from_le_bytes
  byte_to_of_Z byte_of_to_Z u32_not_involutive : adb_rw.

(** ** Exclusive or on words *)

Lemma lxor_range (n a b : Z) :
  0 <= n -> 0 <= a < 2 ^ n -> 0 <= b < 2 ^ n -> 0 <= Z.lxor a b < 2 ^ n.
Proof.
  intros Hn [Ha Ha'] [Hb Hb'].
  apply Z.bounded_iff_bits_nonneg'; [done|apply Z.lxor_nonneg; by split|].
  intros l Hl. rewrite Z.lxor_spec.
  rewrite (proj1 (Z.bounded_iff_bits_nonneg' n a Hn Ha)) by done.
  by rewrite (proj1 (Z.bounded_iff_bits_nonneg' n b Hn Hb)) by done.
Qed.

Lemma lxor_u32 (a b : Z) :
  u32_range a -> u32_range b -> u32_range (Z.lxor a b).
Proof. by apply lxor_range. Qed.

Lemma lxor_lxor_cancel (a c : Z) : Z.lxor (Z.lxor a c) c = a.
Proof. by rewrite Z.lxor_assoc, Z.lxor_nilpotent, Z.lxor_0_r. Qed.

Lemma lxor_cancel_r (a b c : Z) : Z.lxor a c = Z.lxor b c -> a = b.
Proof.
  intros Heq. by rewrite <-(lxor_lxor_cancel a c), Heq, lxor_lxor_cancel.
Qed.

Lemma lxor_cancel_l (a b c : Z) : Z.lxor c a = Z.lxor c b -> a = b.
Proof. rewrite !(Z.lxor_comm c). apply lxor_cancel_r. Qed.

Lemma u8_u32_range (z : Z) : u8_range z -> u32_range z.
Proof. unfold u8_range, u32_range. lia. Qed.

#[export] Hint Resolve lxor_u32 u8_u32_range : adb.
