(* ===== verification/Crc32.v ===== *)
(** * CRC-32

    The checksum of a payload: the reflected CRC-32 of IEEE 802.3
    (polynomial [0xEDB88320], initial value and final complement
    [0xFFFFFFFF]), computed bit by bit.  The register stays a [u32]; every
    step is injective on registers, which is why a change of one byte
    always changes the checksum. *)

From S2P Require Import Prelude Bytes.

#[local] Open Scope Z_scope.

(** One bit: shift right, and subtract the polynomial when a one fell out. *)
Definition crc_shift (c : Z) : Z :=
  if Z.odd c then Z.lxor (Z.shiftr c 1) 0xEDB88320 else Z.shiftr c 1.

(** One byte: exclusive or into the low byte, then eight bits. *)
Definition crc_update (c : Z) (b : byte) : Z :=
  Nat.iter 8 crc_shift (Z.lxor c (byte_to_Z b)).

Definition crc32 (data : list byte) : Z :=
  Z.lxor (foldl crc_update 0xFFFFFFFF data) 0xFFFFFFFF.

(** The check value of the CRC catalogue. *)
Example crc32_check : crc32 (bytes_of_string "123456789") = 0xCBF43926.
Proof. by vm_compute. Qed.

Example crc32_empty : crc32 [] = 0.
Proof. by vm_compute. Qed.

(** ** The register is a [u32] *)

Lemma poly_range : u32_range 0xEDB88320.
Proof. by vm_compute. Qed.

Lemma shiftr_1_range (c : Z) : u32_range c -> 0 <= Z.shiftr c 1 < 2 ^ 31.
Proof.
  intros [??]. rewrite Z.shiftr_div_pow2, Z.pow_1_r by done.
  Z.div_mod_to_equations. lia.
Qed.

Lemma crc_shift_range (c : Z) : u32_range c -> u32_range (crc_shift c).
Proof.
  intros Hc. pose proof (shiftr_1_range c Hc). unfold crc_shift.
  case_match; [apply lxor_u32; [|apply poly_range]|]; unfold u32_range; lia.
Qed.

Lemma iter_crc_shift_range (n : nat) (c : Z) :
  u32_range c -> u32_range (Nat.iter n crc_shift c).
Proof. induction n; simpl; auto using crc_shift_range. Qed.

Lemma crc_update_range (c : Z) (b : byte) :
  u32_range c -> u32_range (crc_update c b).
Proof.
  intros Hc. apply iter_crc_shift_range, lxor_u32; auto with adb.
Qed.

Lemma foldl_crc_update_range (data : list byte) (c : Z) :
  u32_range c -> u32_range (foldl crc_update c data).
Proof.
  revert c. induction data; simpl; auto using crc_update_range.
Qed.

Lemma u32_max_range : u32_range 0xFFFFFFFF.
Proof. by vm_compute. Qed.

Lemma crc32_range (data : list byte) : u32_range (crc32 data).
Proof.
  apply lxor_u32; [apply foldl_crc_update_range|]; apply u32_max_range.
Qed.

(** ** Every step is injective *)

Lemma half_inj (c c' : Z) :
  Z.odd c = Z.odd c' -> Z.shiftr c 1 = Z.shiftr c' 1 -> c = c'.
Proof.
  rewrite !Z.shiftr_div_pow2, !Z.pow_1_r by done.
  intros Hodd Hdiv. rewrite (Z.div_mod c 2), (Z.div_mod c' 2) by done.
  by rewrite !Zmod_odd, Hodd, Hdiv.
Qed.

(** The bit that fell out is the top bit of the next register. *)
Lemma crc_shift_top (c : Z) :
  u32_range c -> Z.testbit (crc_shift c) 31 = Z.odd c.
Proof.
  intros Hc. destruct (shiftr_1_range c Hc) as [Hs Hs'].
  assert (Z.testbit (Z.shiftr c 1) 31 = false) as Htop
    by (by apply (Z.bounded_iff_bits_nonneg' 31)).
  unfold crc_shift. case_match; [|done].
  by rewrite Z.lxor_spec, Htop.
Qed.

Lemma crc_shift_inj (c c' : Z) :
  u32_range c -> u32_range c' -> crc_shift c = crc_shift c' -> c = c'.
Proof.
  intros Hc Hc' Heq.
  assert (Z.odd c = Z.odd c') as Hodd
    by (by rewrite <-!crc_shift_top, Heq).
  apply half_inj; [done|]. unfold crc_shift in Heq. rewrite <-Hodd in Heq.
  destruct (Z.odd c); [by apply lxor_cancel_r in Heq|done].
Qed.

Lemma iter_crc_shift_inj (n : nat) (c c' : Z) :
  u32_range c -> u32_range c' ->
  Nat.iter n crc_shift c = Nat.iter n crc_shift c' -> c = c'.
Proof.
  intros Hc Hc'. induction n as [|n IH]; simpl; [done|].
  intros Heq. apply IH, crc_shift_inj; auto using iter_crc_shift_range.
Qed.

Lemma crc_update_inj_reg (c c' : Z) (b : byte) :
  u32_range c -> u32_range c' -> crc_update c b = crc_update c' b -> c = c'.
Proof.
  intros Hc Hc' Heq%iter_crc_shift_inj; [by apply lxor_cancel_r in Heq|..];
    apply lxor_u32; auto with adb.
Qed.

Lemma crc_update_inj_byte (c : Z) (b b' : byte) :
  u32_range c -> crc_update c b = crc_update c b' -> b = b'.
Proof.
  intros Hc Heq%iter_crc_shift_inj;
    [by apply lxor_cancel_l, (inj byte_to_Z) in Heq|..];
    apply lxor_u32; auto with adb.
Qed.

Lemma foldl_crc_update_inj (data : list byte) (c c' : Z) :
  u32_range c -> u32_range c' ->
  foldl crc_update c data = foldl crc_update c' data -> c = c'.
Proof.
  revert c c'. induction data as [|b data IH]; simpl; [done|].
  intros c c' Hc Hc' Heq%IH; [|by apply crc_update_range..].
  by apply crc_update_inj_reg in Heq.
Qed.

(** Two payloads that differ in one byte have different checksums. *)
Lemma crc32_single_byte (pre suf : list byte) (b b' : byte) :
  crc32 (pre ++ b :: suf) = crc32 (pre ++ b' :: suf) -> b = b'.
Proof.
  unfold crc32. intros Heq%lxor_cancel_r.
  rewrite !foldl_app in Heq. simpl in Heq.
  assert (u32_range (foldl crc_update 0xFFFFFFFF pre)) as Hpre
    by apply foldl_crc_update_range, u32_max_range.
  apply foldl_crc_update_inj in Heq; [|by apply crc_update_range..].
  by apply crc_update_inj_byte in Heq.
Qed.

#[export] Hint Resolve crc32_range : adb.
