(* ===== verification/Codec.v ===== *)
(** * The message codec (specification, section 4.1 and section 6)

    A frame is a 24-byte little-endian header, six [u32] words
    [command, arg0, arg1, data_length, data_crc32, magic] with
    [magic = command XOR 0xFFFFFFFF], followed by [data_length] bytes of
    payload.  The crate has no source for this part: [encode] and [decode]
    follow the specification.  The faults of [decode] are [Fault]: the
    crate's [InvalidIntegrity], and the two faults the specification names
    that [RustADBError] has no variant for. *)

From S2P Require Import Prelude Error Bytes Crc32.

#[local] Open Scope Z_scope.

Inductive Command : Type := CNXN | AUTH | OPEN | OKAY | CLSE | WRTE.

#[export] Instance Command_eq_dec : EqDecision Command.
Proof. solve_decision. Defined.

(** The four ASCII characters of a command packed into a [u32]: on the
    wire the command field reads as its name. *)
Definition command_tag (c : Command) : Z :=
  from_le_bytes (bytes_of_string
    match c with
    | CNXN => "CNXN" | AUTH => "AUTH" | OPEN => "OPEN"
    | OKAY => "OKAY" | CLSE => "CLSE" | WRTE => "WRTE"
    end).

Definition command_of_tag (tag : Z) : option Command :=
  List.find (fun c => bool_decide (command_tag c = tag))
    [CNXN; AUTH; OPEN; OKAY; CLSE; WRTE].

Record Message : Type := {
  command : Command;
  arg0 : Z;
  arg1 : Z;
  payload : list byte;
}.

(** The header of a message. *)
Definition encode_header (m : Message) : list byte :=
  to_le_bytes 4 (command_tag (command m))
  ++ to_le_bytes 4 (arg0 m)
  ++ to_le_bytes 4 (arg1 m)
  ++ to_le_bytes 4 (Z.of_nat (length (payload m)))
  ++ to_le_bytes 4 (crc32 (payload m))
  ++ to_le_bytes 4 (u32_not (command_tag (command m))).

Definition encode (m : Message) : list byte :=
  encode_header m ++ payload m.

(** The [i]-th word of a header. *)
Definition field (i : nat) (header_bytes : list byte) : Z :=
  from_le_bytes (take 4 (drop (4 * i) header_bytes)).

Section codec.
Context `{Extern}.

Inductive Fault : Type :=
| UnknownCommand (tag : Z)
| InvalidMagic
| Crate (err : RustADBError).

(** The checks in the order of the specification: the command tag, the
    magic, and only then the checksum of the payload. *)
Definition decode (header_bytes payload_bytes : list byte)
    : result Message Fault :=
  let tag := field 0 header_bytes in
  match command_of_tag tag with
  | None => Err (UnknownCommand tag)
  | Some c =>
      if decide (field 5 header_bytes = u32_not tag) then
        let expected := field 4 header_bytes in
        let got := crc32 payload_bytes in
        if decide (got = expected) then
          Ok {| command := c;
                arg0 := field 1 header_bytes;
                arg1 := field 2 header_bytes;
                payload := payload_bytes |}
        else Err (Crate (InvalidIntegrity expected got))
      else Err InvalidMagic
  end.

End codec.

(** ** Commands *)

Lemma command_tag_range (c : Command) : u32_range (command_tag c).
Proof. by destruct c; vm_compute. Qed.

Lemma command_of_tag_tag (c : Command) : command_of_tag (command_tag c) = Some c.
Proof. by destruct c; vm_compute. Qed.

Lemma command_of_tag_Some (tag : Z) (c : Command) :
  command_of_tag tag = Some c -> command_tag c = tag.
Proof.
  unfold command_of_tag. intros [_ Hc]%find_some. by apply bool_decide_eq_true in Hc.
Qed.

#[export] Instance command_tag_inj : Inj (=) (=) command_tag.
Proof.
  intros c c' Heq. apply (inj Some).
  by rewrite <-(command_of_tag_tag c), Heq, command_of_tag_tag.
Qed.

(** ** Words of a header *)

Lemma field_0_app (w rest : list byte) :
  length w = 4%nat -> field 0 (w ++ rest) = from_le_bytes w.
Proof. intros Hw. unfold field. by rewrite drop_0, take_app_length'. Qed.

Lemma field_S_app (i : nat) (w rest : list byte) :
  length w = 4%nat -> field (S i) (w ++ rest) = field i rest.
Proof.
  intros Hw. unfold field.
  replace (4 * S i)%nat with (length w + 4 * i)%nat by lia.
  by rewrite drop_app_add.
Qed.

Lemma field_0_to_le_bytes (z : Z) (rest : list byte) :
  field 0 (to_le_bytes 4 z ++ rest) = z mod 2 ^ 32.
Proof. by rewrite field_0_app, from_to_le_bytes by apply length_to_le_bytes. Qed.

Lemma field_S_to_le_bytes (i : nat) (z : Z) (rest : list byte) :
  field (S i) (to_le_bytes 4 z ++ rest) = field i rest.
Proof. apply field_S_app, length_to_le_bytes. Qed.

Lemma length_encode_header (m : Message) : length (encode_header m) = 24%nat.
Proof. unfold encode_header. by rewrite !length_app, !length_to_le_bytes. Qed.

Lemma length_encode (m : Message) :
  length (encode m) = (24 + length (payload m))%nat.
Proof. unfold encode. by rewrite length_app, length_encode_header. Qed.

Lemma take_encode (m : Message) : take 24 (encode m) = encode_header m.
Proof. apply take_app_length'. by rewrite length_encode_header. Qed.

Lemma drop_encode (m : Message) : drop 24 (encode m) = payload m.
Proof. apply drop_app_length'. by rewrite length_encode_header. Qed.

#[export] Hint Rewrite length_encode_header length_encode take_encode
  drop_encode command_of_tag_tag : adb_rw.
#[export] Hint Resolve command_tag_range : adb.

Lemma field_0_to_le_bytes_nil (z : Z) :
  field 0 (to_le_bytes 4 z) = z mod 2 ^ 32.
Proof. by rewrite <-(app_nil_r (to_le_bytes 4 z)), field_0_to_le_bytes. Qed.

Lemma mod_u32 (z : Z) : u32_range z -> z mod 2 ^ 32 = z.
Proof. intros ?. by apply Z.mod_small. Qed.

(** Reads a word off [encode_header]. *)
Ltac field_simp :=
  unfold encode_header;
  rewrite ?field_S_to_le_bytes, ?field_0_to_le_bytes, ?field_0_to_le_bytes_nil;
  rewrite ?mod_u32 by auto with adb.

Section header_fields.
Context (m : Message).

Lemma field_command : field 0 (encode_header m) = command_tag (command m).
Proof. by field_simp. Qed.

Lemma field_arg0 : u32_range (arg0 m) -> field 1 (encode_header m) = arg0 m.
Proof. intros. by field_simp. Qed.

Lemma field_arg1 : u32_range (arg1 m) -> field 2 (encode_header m) = arg1 m.
Proof. intros. by field_simp. Qed.

Lemma field_data_length :
  u32_range (Z.of_nat (length (payload m))) ->
  field 3 (encode_header m) = Z.of_nat (length (payload m)).
Proof. intros. by field_simp. Qed.

Lemma field_data_crc32 : field 4 (encode_header m) = crc32 (payload m).
Proof. by field_simp. Qed.

Lemma field_magic :
  field 5 (encode_header m) = u32_not (command_tag (command m)).
Proof. by field_simp. Qed.

End header_fields.

Lemma to_le_bytes_field (i : nat) (header_bytes : list byte) :
  (4 * i + 4 <= length header_bytes)%nat ->
  to_le_bytes 4 (field i header_bytes) = take 4 (drop (4 * i) header_bytes).
Proof.
  intros Hl. unfold field.
  rewrite <-(to_from_le_bytes (take 4 _)) at 2.
  by rewrite length_take, length_drop, Nat.min_l by lia.
Qed.

(** A header is its six words. *)
Lemma header_words (header_bytes : list byte) :
  length header_bytes = 24%nat ->
  to_le_bytes 4 (field 0 header_bytes) ++ to_le_bytes 4 (field 1 header_bytes)
  ++ to_le_bytes 4 (field 2 header_bytes) ++ to_le_bytes 4 (field 3 header_bytes)
  ++ to_le_bytes 4 (field 4 header_bytes) ++ to_le_bytes 4 (field 5 header_bytes)
  = header_bytes.
Proof.
  intros Hl. rewrite !to_le_bytes_field by lia.
  do 25 (destruct header_bytes as [|? header_bytes]; try done).
Qed.


(** ** Decoding *)

Section codec_facts.
Context `{Extern}.
Implicit Types (m : Message) (header_bytes payload_bytes : list byte).

Lemma decode_unknown_command header_bytes payload_bytes :
  command_of_tag (field 0 header_bytes) = None ->
  decode header_bytes payload_bytes
  = Err (UnknownCommand (field 0 header_bytes)).
Proof. intros Hc. unfold decode. by rewrite Hc. Qed.

Lemma decode_encode_header m :
  u32_range (arg0 m) -> u32_range (arg1 m) ->
  decode (encode_header m) (payload m) = Ok m.
Proof.
  intros Ha0 Ha1. unfold decode.
  rewrite field_command, command_of_tag_tag, field_magic, field_data_crc32,
    field_arg0, field_arg1 by done.
  rewrite !decide_True by done. by destruct m.
Qed.

(** C2: round trip: decoding the header and the payload of an encoded
    message gives the message back, for every command, every pair of
    [u32] arguments and every payload. *)
Theorem decode_encode m :
  u32_range (arg0 m) -> u32_range (arg1 m) ->
  decode (take 24 (encode m)) (drop 24 (encode m)) = Ok m.
Proof.
  intros Ha0 Ha1. rewrite take_encode, drop_encode.
  by apply decode_encode_header.
Qed.

(** The magic is checked before the checksum: a header of a known
    command whose magic is not the complement of the command is refused
    with [InvalidMagic] whatever the payload and the checksum field. *)
Theorem decode_magic_first header_bytes payload_bytes :
  is_Some (command_of_tag (field 0 header_bytes)) ->
  field 5 header_bytes <> u32_not (field 0 header_bytes) ->
  decode header_bytes payload_bytes = Err InvalidMagic.
Proof.
  intros [c Hc] Hmagic. unfold decode. rewrite Hc. by rewrite decide_False.
Qed.

(** C7: a payload received with one byte changed, under the header it was
    sent with, is refused with [InvalidIntegrity] carrying the checksum of
    the header and the checksum of the bytes received. *)
Theorem decode_corrupted m (pre suf : list byte) (b b' : byte) :
  payload m = pre ++ b :: suf -> b <> b' ->
  decode (encode_header m) (pre ++ b' :: suf)
  = Err (Crate (InvalidIntegrity (crc32 (pre ++ b :: suf))
                                 (crc32 (pre ++ b' :: suf)))).
Proof.
  intros Hp Hb. unfold decode.
  rewrite field_command, command_of_tag_tag, field_magic, field_data_crc32, Hp.
  rewrite decide_True, decide_False; [done| |done].
  by intros ?%eq_sym%crc32_single_byte.
Qed.

(** What reaches a higher layer has a known command, the magic of its
    command and the checksum of its payload. *)
Lemma decode_Ok_inv header_bytes payload_bytes m :
  decode header_bytes payload_bytes = Ok m ->
  command_tag (command m) = field 0 header_bytes
  /\ arg0 m = field 1 header_bytes /\ arg1 m = field 2 header_bytes
  /\ payload m = payload_bytes
  /\ crc32 payload_bytes = field 4 header_bytes
  /\ field 5 header_bytes = u32_not (field 0 header_bytes).
Proof.
  unfold decode. destruct (command_of_tag _) as [c|] eqn:Hc; [|done].
  apply command_of_tag_Some in Hc. repeat case_decide; try done.
  by intros [= <-].
Qed.

(** C24: the encoding is canonical: a 24-byte header and the payload it
    announces decode to a message only if together they are the encoding of
    that message. *)
Theorem encode_decode header_bytes payload_bytes m :
  length header_bytes = 24%nat ->
  field 3 header_bytes = Z.of_nat (length payload_bytes) ->
  decode header_bytes payload_bytes = Ok m ->
  encode m = header_bytes ++ payload_bytes.
Proof.
  intros Hl Hlen (Hc & Ha0 & Ha1 & Hp & Hcrc & Hmagic)%decode_Ok_inv.
  unfold encode, encode_header.
  rewrite Hc, Ha0, Ha1, Hp, Hcrc, <-Hlen, <-Hmagic. by rewrite header_words.
Qed.

End codec_facts.

(** *** The theorems at concrete frames *)

(** [OPEN(1, 0, "shell:ls")] *)
Definition open_shell : Message :=
  {| command := OPEN; arg0 := 1; arg1 := 0;
     payload := bytes_of_string "shell:ls" |}.

Lemma decode_encode_witness :
  decode (H := dyn_extern) (take 24 (encode open_shell))
    (drop 24 (encode open_shell)) = Ok open_shell.
Proof. apply decode_encode; by vm_compute. Defined.

Lemma decode_magic_first_witness :
  decode (H := dyn_extern)
    (to_le_bytes 4 (command_tag OKAY) ++ repeat Byte.x00 20) []
  = Err InvalidMagic.
Proof. apply decode_magic_first; [by eexists|by vm_compute]. Defined.

Lemma decode_corrupted_witness :
  decode (H := dyn_extern) (encode_header open_shell)
    (bytes_of_string "shell:lz")
  = Err (Crate (InvalidIntegrity (crc32 (bytes_of_string "shell:ls"))
                                 (crc32 (bytes_of_string "shell:lz")))).
Proof.
  apply (decode_corrupted open_shell (bytes_of_string "shell:l") []);
    [done|discriminate].
Defined.

Lemma encode_decode_witness :
  encode open_shell
  = encode_header open_shell ++ bytes_of_string "shell:ls".
Proof. by apply (encode_decode (H := dyn_extern)). Defined.
