(* ===== verification/Auth.v ===== *)
(** * The authentication handshake (specification, section 4.2)

    The client sends [CNXN]; the device accepts with [CNXN] or challenges
    with [AUTH TOKEN].  The client answers the first challenge with
    [AUTH SIGNATURE] and a later one with [AUTH RSAPUBLICKEY]; only a [CNXN]
    of the device ends the handshake with success.  The crate has no source
    for this part: [auth_step] and [handshake] follow the specification.
    Signing and the encoded public key belong to collaborators ([Client]). *)

From S2P Require Import Prelude Error Bytes Codec.

#[local] Open Scope Z_scope.

Inductive AuthState : Type :=
| AwaitingToken
| AwaitingPubkeyRequestOrAccept
| Authenticated
| Failed.

#[export] Instance AuthState_eq_dec : EqDecision AuthState.
Proof. solve_decision. Defined.

(** What the handshake takes from its collaborators: the banner of the
    client's [CNXN], the RSA signature of a token, and the base64 text of
    the public key, whose encoding can fail. *)
Class Client `{Extern} := {
  version : Z;
  banner : list byte;
  sign : list byte -> list byte;
  public_key : result (list byte) (ext base64_EncodeSliceError);
}.

Section auth.
Context `{Client}.

(** One reply of the device, [None] when it closed the transport.  The
    result is the next state and what the client does: a message to send,
    nothing, or the error the handshake ends with. *)
Definition auth_step (st : AuthState) (reply : option Message)
    : AuthState * Result (option Message) :=
  match st, reply with
  | (Authenticated | Failed), _ => (st, Ok None)
  | _, None =>
      (Failed, Err (ADBRequestFailed "transport closed during handshake"))
  | _, Some m =>
      match command m with
      | CNXN => (Authenticated, Ok None)
      | AUTH =>
          if decide (arg0 m = 1) then
            match st, public_key with
            | AwaitingToken, _ =>
                (AwaitingPubkeyRequestOrAccept,
                 Ok (Some {| command := AUTH; arg0 := 2; arg1 := 0;
                             payload := sign (payload m) |}))
            | _, Ok key =>
                (AwaitingPubkeyRequestOrAccept,
                 Ok (Some {| command := AUTH; arg0 := 3; arg1 := 0;
                             payload := key |}))
            | _, Err e => (Failed, Err (from e))
            end
          else (Failed, Err (UnknownResponseType (pretty (arg0 m))))
      | _ =>
          (Failed,
           Err (UnknownResponseType (pretty (command_tag (command m)))))
      end
  end.

(** The replies of the device consumed one by one from [st]: the final
    state, the messages sent in order, and the error that stopped the run,
    if one did. *)
Fixpoint auth_run (st : AuthState) (replies : list (option Message))
    : AuthState * list Message * option RustADBError :=
  match replies with
  | [] => (st, [], None)
  | reply :: replies =>
      match auth_step st reply with
      | (st', Ok out) =>
          let '(st'', sent, err) := auth_run st' replies in
          (st'', option_list out ++ sent, err)
      | (st', Err e) => (st', [], Some e)
      end
  end.

(** The handshake: the client's [CNXN], then the run from [AwaitingToken]. *)
Definition handshake (replies : list (option Message))
    : AuthState * list Message * option RustADBError :=
  let '(st, sent, err) := auth_run AwaitingToken replies in
  (st, {| command := CNXN; arg0 := version; arg1 := 0;
          payload := banner |} :: sent, err).

End auth.

(** A client for the concrete runs: protocol version [0x01000000], banner
    ["host::"], a signature that is the token reversed. *)
Definition demo_client : Client (H := dyn_extern) :=
  {| version := 0x01000000;
     banner := bytes_of_string "host::";
     sign := reverse;
     public_key := Ok (bytes_of_string "QUFBQQ== adb@host") |}.

(** ** One step *)

Section auth_facts.
Context `{Client}.
Implicit Types (st : AuthState) (reply : option Message)
  (replies : list (option Message)).

Lemma auth_step_terminal st reply :
  st = Authenticated \/ st = Failed -> auth_step st reply = (st, Ok None).
Proof. by intros [-> | ->]. Qed.

(** Nothing but a [CNXN] of the device leads to [Authenticated]. *)
Lemma auth_step_Authenticated st reply out :
  auth_step st reply = (Authenticated, out) ->
  st = Authenticated \/ exists m, reply = Some m /\ command m = CNXN.
Proof.
  unfold auth_step. intros Hstep.
  destruct st; try (by left); destruct reply as [m|]; try done;
    right; exists m; split; [done| |done|];
    destruct (command m); try done; repeat case_match; by simplify_eq.
Qed.

(** The client sends [AUTH] messages only, and only in answer to a token. *)
Lemma auth_step_sent st reply st' out :
  auth_step st reply = (st', Ok (Some out)) ->
  command out = AUTH
  /\ exists m, reply = Some m /\ command m = AUTH /\ arg0 m = 1.
Proof.
  unfold auth_step. intros Hstep.
  destruct st, reply as [m|]; try done; destruct (command m) eqn:Hm;
    try done; repeat case_match; simplify_eq; eauto.
Qed.

(** ** Runs *)

Lemma auth_run_terminal st replies :
  st = Authenticated \/ st = Failed -> auth_run st replies = (st, [], None).
Proof.
  intros Hst. induction replies as [|reply replies IH]; simpl; [done|].
  by rewrite auth_step_terminal, IH.
Qed.

(** No pipelining: the client sends at most one message per reply. *)
Lemma length_auth_run_sent st replies :
  (length (auth_run st replies).1.2 <= length replies)%nat.
Proof.
  revert st. induction replies as [|reply replies IH]; intros st; simpl; [done|].
  destruct (auth_step st reply) as [st' [out|e]]; simpl; [|lia].
  specialize (IH st'). destruct (auth_run st' replies) as [[st'' sent] err].
  simpl in *. rewrite length_app. destruct out; simpl; lia.
Qed.

Lemma auth_run_Authenticated st replies :
  (auth_run st replies).1.1 = Authenticated ->
  st = Authenticated \/ exists m, Some m ∈ replies /\ command m = CNXN.
Proof.
  revert st. induction replies as [|reply replies IH]; intros st; simpl.
  { by left. }
  destruct (auth_step st reply) as [st' [out|e]] eqn:Hstep.
  - destruct (auth_run st' replies) as [[st'' sent] err] eqn:Hrun. simpl.
    intros ->. specialize (IH st'). rewrite Hrun in IH.
    destruct (IH eq_refl) as [->|(m & ? & ?)].
    + apply auth_step_Authenticated in Hstep as [?|(m & -> & ?)]; [by left|].
      right. exists m. split; [left|done].
    + right. exists m. split; [by right|done].
  - simpl. intros ->.
    apply auth_step_Authenticated in Hstep as [?|(m & -> & ?)]; [by left|].
    right. exists m. split; [left|done].
Qed.

(** ** The handshake *)

(** C9: the device is the authority on acceptance: a handshake that ends
    [Authenticated] has received a [CNXN] from the device. *)
Theorem handshake_authenticated_by_device replies :
  (handshake replies).1.1 = Authenticated ->
  exists m, Some m ∈ replies /\ command m = CNXN.
Proof.
  unfold handshake. intros Hst.
  destruct (auth_run_Authenticated AwaitingToken replies) as [?|?]; try done.
  by destruct (auth_run AwaitingToken replies) as [[??]?].
Qed.

(** A device that answers [CNXN] at once is trusted already: the handshake
    ends [Authenticated] and no [AUTH] message is exchanged. *)
Lemma handshake_trusted (accept : Message) replies :
  command accept = CNXN ->
  handshake (Some accept :: replies)
  = (Authenticated,
     [{| command := CNXN; arg0 := version; arg1 := 0; payload := banner |}],
     None).
Proof.
  intros Hc. unfold handshake. simpl. rewrite Hc.
  by rewrite auth_run_terminal by auto.
Qed.

(** The signature is refused and the key accepted: against a device
    that sends a token, the token again and then [CNXN], the client sends
    [CNXN], the signature of the first token and its public key, in this
    order, and ends [Authenticated]. *)
Theorem handshake_pubkey (t1 t2 accept : Message) (key : list byte) :
  command t1 = AUTH -> arg0 t1 = 1 -> command t2 = AUTH -> arg0 t2 = 1 ->
  command accept = CNXN -> public_key = Ok key ->
  handshake [Some t1; Some t2; Some accept]
  = (Authenticated,
     [{| command := CNXN; arg0 := version; arg1 := 0; payload := banner |};
      {| command := AUTH; arg0 := 2; arg1 := 0; payload := sign (payload t1) |};
      {| command := AUTH; arg0 := 3; arg1 := 0; payload := key |}],
     None).
Proof.
  intros Hc1 Ha1 Hc2 Ha2 Hc Hkey. unfold handshake, auth_run, auth_step.
  rewrite Hc1, Ha1, decide_True by done. cbn iota beta.
  rewrite Hc2, Ha2, decide_True, Hkey by done. cbn iota beta.
  by rewrite Hc.
Qed.

(** ** A device that accepts in the end *)

(** A reply that is a token of the device. *)
Definition is_token (reply : option Message) : Prop :=
  exists t, reply = Some t /\ command t = AUTH /\ arg0 t = 1.

Lemma auth_step_token st reply (key : list byte) :
  st = AwaitingToken \/ st = AwaitingPubkeyRequestOrAccept ->
  is_token reply -> public_key = Ok key ->
  exists out,
    auth_step st reply = (AwaitingPubkeyRequestOrAccept, Ok (Some out)).
Proof.
  intros Hst (t & -> & Hc & Ha) Hkey. unfold auth_step.
  rewrite Hc, Ha, decide_True, Hkey by done. destruct Hst as [-> | ->]; eauto.
Qed.

Lemma auth_step_accept st (accept : Message) :
  st = AwaitingToken \/ st = AwaitingPubkeyRequestOrAccept ->
  command accept = CNXN ->
  auth_step st (Some accept) = (Authenticated, Ok None).
Proof. intros [-> | ->] Hc; unfold auth_step; by rewrite Hc. Qed.

Lemma auth_run_accepts st tokens (accept : Message) rest (key : list byte) :
  st = AwaitingToken \/ st = AwaitingPubkeyRequestOrAccept ->
  Forall is_token tokens -> command accept = CNXN -> public_key = Ok key ->
  exists sent,
    auth_run st (tokens ++ Some accept :: rest) = (Authenticated, sent, None)
    /\ length sent = length tokens.
Proof.
  intros Hst Htok Hc Hkey. revert st Hst.
  induction Htok as [|reply tokens Hr _ IH]; intros st Hst; simpl.
  - rewrite auth_step_accept, auth_run_terminal by auto. by exists [].
  - destruct (auth_step_token st reply key) as [out ->]; [done..|].
    destruct (IH AwaitingPubkeyRequestOrAccept) as (sent & -> & Hl); [auto|].
    exists (out :: sent). simpl. by rewrite Hl.
Qed.

(** C17: the handshake completes when the device accepts in the end: after
    any number of tokens, answered one message each, a [CNXN] of the device
    ends the handshake [Authenticated] with no error, whatever follows on
    the transport. *)
Theorem handshake_accepts tokens (accept : Message) rest (key : list byte) :
  Forall is_token tokens -> command accept = CNXN -> public_key = Ok key ->
  exists sent,
    handshake (tokens ++ Some accept :: rest)
    = (Authenticated,
       {| command := CNXN; arg0 := version; arg1 := 0; payload := banner |}
         :: sent, None)
    /\ length sent = length tokens.
Proof.
  intros Htok Hc Hkey. unfold handshake.
  destruct (auth_run_accepts AwaitingToken tokens accept rest key)
    as (sent & -> & Hl); eauto.
Qed.

End auth_facts.

(** *** The theorems at concrete runs *)

Definition token : Message :=
  {| command := AUTH; arg0 := 1; arg1 := 0;
     payload := bytes_of_string "0123456789abcdefghij" |}.

Definition accepted : Message :=
  {| command := CNXN; arg0 := 0x01000000; arg1 := 4096;
     payload := bytes_of_string "device::" |}.

Lemma handshake_authenticated_by_device_witness :
  exists m, Some m ∈ [Some token; Some accepted] /\ command m = CNXN.
Proof.
  by apply (handshake_authenticated_by_device (H0 := demo_client)).
Defined.

Lemma handshake_pubkey_witness :
  (handshake (H0 := demo_client) [Some token; Some token; Some accepted]).1.1
  = Authenticated.
Proof.
  by rewrite (handshake_pubkey token token accepted
    (bytes_of_string "QUFBQQ== adb@host")).
Defined.

Lemma handshake_accepts_witness :
  exists sent,
    handshake (H0 := demo_client)
      ([Some token; Some token; Some token] ++ Some accepted :: [None])
    = (Authenticated,
       {| command := CNXN; arg0 := 0x01000000; arg1 := 0;
          payload := bytes_of_string "host::" |} :: sent, None)
    /\ length sent = 3%nat.
Proof.
  assert (Forall is_token [Some token; Some token; Some token]) as Htok
    by (repeat constructor; by exists token).
  exact (handshake_accepts (H0 := demo_client) _ accepted [None]
           (bytes_of_string "QUFBQQ== adb@host") Htok eq_refl eq_refl).
Defined.
