(* ===== verification/Mux.v ===== *)
(** * The stream multiplexer (specification, section 4.3 and section 5)

    One transport carries several logical streams.  [Mux] is the state the
    receive loop and the callers share: the session table by local id, the
    next local id, the fault that ended the transport, and the frames sent
    so far in order.  [open], [write], [read] and [close] are the entry
    points of the callers, [recv] is one turn of the receive loop and
    [teardown] the failure of the transport.  A call that would suspend its
    caller returns [None] and leaves the state as it is: the caller is woken
    by a later [recv] or [teardown] and calls again.  The crate has no
    source for this part: the definitions follow the specification. *)

From stdpp Require Import gmap.
From S2P Require Import Prelude Error Bytes Codec.

#[local] Open Scope Z_scope.

Inductive SessionState : Type := Opening | Open | Closing | Closed.

#[export] Instance SessionState_eq_dec : EqDecision SessionState.
Proof. solve_decision. Defined.

Record Session : Type := {
  remote_id : option Z;
  destination : list byte;
  state : SessionState;
  write_pending : bool;
  inbox : list (list byte);
}.

Section mux.
Context `{Extern}.

Record Mux : Type := {
  sessions : gmap Z Session;
  next_id : Z;
  fault : option (ext std_io_Error);
  outbox : list Message;
}.

(** [open(destination)]: a fresh local id, [OPEN(local_id, 0, destination)]
    on the wire, and a session that is [Opening] until the device answers. *)
Definition open (m : Mux) (dest : list byte) : Result (Mux * Z) :=
  match fault m with
  | Some e => Err (IOError e)
  | None =>
      let id := next_id m in
      Ok ({| sessions :=
               <[id := {| remote_id := None; destination := dest;
                          state := Opening; write_pending := false;
                          inbox := [] |}]> (sessions m);
             next_id := id + 1;
             fault := None;
             outbox := outbox m ++
               [{| command := OPEN; arg0 := id; arg1 := 0; payload := dest |}]
          |}, id)
  end.

(** The wait of [open] for the answer of the device: suspended while the
    session is [Opening], the remote id once the [OKAY] arrived, and a
    failure after a [CLSE] of the device or the loss of the transport. *)
Definition await_open (m : Mux) (id : Z) : option (Result Z) :=
  match fault m, sessions m !! id with
  | Some e, _ => Some (Err (IOError e))
  | None, Some s =>
      match state s, remote_id s with
      | Opening, _ => None
      | Open, Some r => Some (Ok r)
      | _, _ => Some (Err (ADBRequestFailed "session closed"))
      end
  | None, None => Some (Err (ADBRequestFailed "session closed"))
  end.

(** [write(session, bytes)]: [WRTE(local_id, remote_id, bytes)] when the
    session holds the write credit, which the call takes; no credit
    suspends the caller. *)
Definition write (m : Mux) (id : Z) (bytes : list byte)
    : option (Result Mux) :=
  match fault m, sessions m !! id with
  | Some e, _ => Some (Err (IOError e))
  | None, Some {| remote_id := Some r; destination := dest; state := Open;
                  write_pending := pending; inbox := q |} =>
      if pending then None
      else Some (Ok
        {| sessions :=
             <[id := {| remote_id := Some r; destination := dest;
                        state := Open; write_pending := true;
                        inbox := q |}]> (sessions m);
           next_id := next_id m;
           fault := None;
           outbox := outbox m ++
             [{| command := WRTE; arg0 := id; arg1 := r; payload := bytes |}]
        |})
  | None, _ => Some (Err (ADBRequestFailed "session closed"))
  end.

(** [read(session)]: the oldest payload not yet read; none pending suspends
    the caller while the session is open. *)
Definition read (m : Mux) (id : Z) : option (Result (Mux * list byte)) :=
  match sessions m !! id with
  | Some s =>
      match inbox s, state s, fault m with
      | p :: q, _, _ =>
          Some (Ok ({| sessions :=
                         <[id := {| remote_id := remote_id s;
                                    destination := destination s;
                                    state := state s;
                                    write_pending := write_pending s;
                                    inbox := q |}]> (sessions m);
                       next_id := next_id m;
                       fault := fault m;
                       outbox := outbox m |}, p))
      | [], _, Some e => Some (Err (IOError e))
      | [], (Opening | Open), None => None
      | [], (Closing | Closed), None =>
          Some (Err (ADBRequestFailed "session closed"))
      end
  | None => Some (Err (ADBRequestFailed "session closed"))
  end.

(** [close(session)]: [CLSE(local_id, remote_id)] and the session is
    [Closing]; with the transport gone it is [Closed] at once. *)
Definition close (m : Mux) (id : Z) : Mux :=
  match sessions m !! id with
  | Some s =>
      match state s with
      | Opening | Open =>
          {| sessions :=
               <[id := {| remote_id := remote_id s;
                          destination := destination s;
                          state := if fault m is Some _ then Closed else Closing;
                          write_pending := write_pending s;
                          inbox := inbox s |}]> (sessions m);
             next_id := next_id m;
             fault := fault m;
             outbox :=
               if fault m is Some _ then outbox m
               else outbox m ++
                 [{| command := CLSE; arg0 := id;
                     arg1 := default 0 (remote_id s); payload := [] |}] |}
      | Closing | Closed => m
      end
  | None => m
  end.

(** One inbound frame, routed by [arg1] to the session of that local id:
    [OKAY] completes an open or returns the write credit, [WRTE] queues its
    payload, [CLSE] closes.  A frame for no session, or one the session
    does not expect, is dropped. *)
Definition recv (m : Mux) (f : Message) : Mux :=
  match sessions m !! arg1 f with
  | Some s =>
      let put (s' : Session) : Mux :=
        {| sessions := <[arg1 f := s']> (sessions m);
           next_id := next_id m; fault := fault m; outbox := outbox m |} in
      match command f, state s with
      | OKAY, Opening =>
          put {| remote_id := Some (arg0 f); destination := destination s;
                 state := Open; write_pending := false; inbox := inbox s |}
      | OKAY, Open =>
          put {| remote_id := remote_id s; destination := destination s;
                 state := Open; write_pending := false; inbox := inbox s |}
      | WRTE, Open =>
          put {| remote_id := remote_id s; destination := destination s;
                 state := Open; write_pending := write_pending s;
                 inbox := inbox s ++ [payload f] |}
      | CLSE, (Opening | Open | Closing) =>
          put {| remote_id := remote_id s; destination := destination s;
                 state := Closed; write_pending := false; inbox := inbox s |}
      | _, _ => m
      end
  | None => m
  end.

(** The transport failed with [e]: every session is [Closed] and the
    multiplexer keeps the fault for the callers it wakes. *)
Definition teardown (m : Mux) (e : ext std_io_Error) : Mux :=
  {| sessions :=
       (fun s => {| remote_id := remote_id s; destination := destination s;
                    state := Closed; write_pending := false;
                    inbox := inbox s |}) <$> sessions m;
     next_id := next_id m;
     fault := Some (default e (fault m));
     outbox := outbox m |}.

(** The multiplexer after the handshake: no session, local ids from 1. *)
Definition mux_init : Mux :=
  {| sessions := ∅; next_id := 1; fault := None; outbox := [] |}.

(** The callers and the receive loop take turns on the shared state: one
    step is one call that went through, one inbound frame, or the failure
    of the transport. *)
Inductive mux_step : Mux -> Mux -> Prop :=
  | step_open m dest m' id : open m dest = Ok (m', id) -> mux_step m m'
  | step_write m id bytes m' : write m id bytes = Some (Ok m') -> mux_step m m'
  | step_read m id m' p : read m id = Some (Ok (m', p)) -> mux_step m m'
  | step_close m id : mux_step m (close m id)
  | step_recv m f : mux_step m (recv m f)
  | step_teardown m e : mux_step m (teardown m e).

(** Local ids are positive and below the next one to hand out; an open
    session knows its peer; a failed transport leaves no session open. *)
Definition wf_mux (m : Mux) : Prop :=
  1 <= next_id m /\
  forall id s, sessions m !! id = Some s ->
    1 <= id < next_id m /\
    (state s = Open -> is_Some (remote_id s)) /\
    (is_Some (fault m) -> state s = Closed).

(** What the multiplexer has sent: [OPEN], [WRTE] and [CLSE] only, each
    under a local id it has handed out. *)
Definition wf_outbox (m : Mux) : Prop :=
  Forall (fun f =>
            (command f = OPEN \/ command f = WRTE \/ command f = CLSE)
            /\ 1 <= arg0 f < next_id m) (outbox m).

(** The payloads the frames [fs] carry for the session [id]. *)
Definition addressed (id : Z) (fs : list Message) : list (list byte) :=
  payload <$> filter (fun f => command f = WRTE /\ arg1 f = id) fs.

(** The frames of [fs] that return the write credit of the session [id]. *)
Definition credits (id : Z) (fs : list Message) : list Message :=
  filter (fun f => command f = OKAY /\ arg1 f = id) fs.

End mux.

(** ** The receive loop over a sequence of frames *)

Section mux_facts.
Context `{Extern}.
Implicit Types (m : Mux) (f : Message) (s : Session) (id : Z).

Lemma recv_other m f id :
  arg1 f <> id -> sessions (recv m f) !! id = sessions m !! id.
Proof.
  intros Hne. unfold recv. destruct (sessions m !! arg1 f) as [s|]; [|done].
  destruct (command f), (state s); simpl; by rewrite ?lookup_insert_ne.
Qed.

Lemma recv_fault m f : fault (recv m f) = fault m.
Proof.
  unfold recv. destruct (sessions m !! arg1 f) as [s|]; [|done].
  by destruct (command f), (state s).
Qed.

Lemma recv_outbox m f : outbox (recv m f) = outbox m.
Proof.
  unfold recv. destruct (sessions m !! arg1 f) as [s|]; [|done].
  by destruct (command f), (state s).
Qed.

Lemma recv_unknown m f : sessions m !! arg1 f = None -> recv m f = m.
Proof. unfold recv. by intros ->. Qed.

(** What one frame does to the open session it is addressed to. *)
Lemma recv_open m f s :
  sessions m !! arg1 f = Some s -> state s = Open -> command f <> CLSE ->
  exists s', sessions (recv m f) !! arg1 f = Some s' /\ state s' = Open /\
    remote_id s' = remote_id s /\
    inbox s' = inbox s ++ addressed (arg1 f) [f] /\
    write_pending s' =
      (if decide (command f = OKAY) then false else write_pending s).
Proof.
  intros Hs Hst Hc. unfold recv, addressed. rewrite Hs, Hst.
  destruct s as [r d st w q]; simpl in *; subst st.
  destruct (command f) eqn:Hcmd; try done; simpl;
    rewrite ?lookup_insert_eq, ?Hs; eexists; (split; [done|]); simpl;
    rewrite ?filter_cons_True, ?filter_cons_False
      by (rewrite ?Hcmd; intuition congruence);
    by rewrite ?app_nil_r.
Qed.

Lemma addressed_app id fs fs' :
  addressed id (fs ++ fs') = addressed id fs ++ addressed id fs'.
Proof. unfold addressed. by rewrite list.filter_app, fmap_app. Qed.

Lemma addressed_cons_other id f fs :
  arg1 f <> id -> addressed id (f :: fs) = addressed id fs.
Proof. intros ?. unfold addressed. by rewrite filter_cons_False by tauto. Qed.

Lemma credits_cons_other id f fs :
  arg1 f <> id \/ command f <> OKAY -> credits id (f :: fs) = credits id fs.
Proof. intros ?. unfold credits. by rewrite filter_cons_False by tauto. Qed.

Lemma foldl_recv_fault m fs : fault (foldl recv m fs) = fault m.
Proof.
  revert m. induction fs as [|f fs IH]; intros m; simpl; [done|].
  by rewrite IH, recv_fault.
Qed.

Lemma foldl_recv_outbox m fs : outbox (foldl recv m fs) = outbox m.
Proof.
  revert m. induction fs as [|f fs IH]; intros m; simpl; [done|].
  by rewrite IH, recv_outbox.
Qed.

(** An open session over a run of the receive loop in which the device
    does not close it: it stays open, with the same peer, its queue grows
    by the payloads addressed to it, and its credit is back once an [OKAY]
    for it was among the frames. *)
Lemma foldl_recv_open m fs id s :
  sessions m !! id = Some s -> state s = Open ->
  Forall (fun f => arg1 f = id -> command f <> CLSE) fs ->
  exists s', sessions (foldl recv m fs) !! id = Some s' /\ state s' = Open /\
    remote_id s' = remote_id s /\
    inbox s' = inbox s ++ addressed id fs /\
    write_pending s' =
      (if decide (credits id fs = []) then write_pending s else false).
Proof.
  intros Hs Hst Hfs. revert m s Hs Hst.
  induction Hfs as [|f fs Hf _ IH]; intros m s Hs Hst; simpl.
  { exists s. by rewrite app_nil_r. }
  destruct (decide (arg1 f = id)) as [<-|Hne].
  - destruct (recv_open m f s) as (s1 & Hs1 & Hst1 & Hr1 & Hq1 & Hw1); auto.
    destruct (IH _ _ Hs1 Hst1) as (s' & ? & ? & Hr & Hq & Hw).
    exists s'. repeat split; [done..|congruence| |].
    + by rewrite Hq, Hq1, <-app_assoc, <-addressed_app.
    + rewrite Hw, Hw1. unfold credits.
      destruct (decide (command f = OKAY));
        [rewrite filter_cons_True by done|rewrite filter_cons_False by tauto];
        by repeat case_decide.
  - destruct (IH (recv m f) s) as (s' & ? & ? & ? & Hq & Hw);
      [by rewrite recv_other|done|].
    exists s'. by rewrite addressed_cons_other, credits_cons_other by auto.
Qed.

(** ** The invariant of the session table *)

Lemma wf_mux_put m id s ss n o :
  wf_mux m -> next_id m <= n -> 1 <= id < n ->
  (state s = Open -> is_Some (remote_id s)) ->
  (is_Some (fault m) -> state s = Closed) ->
  ss = <[id := s]> (sessions m) ->
  wf_mux {| sessions := ss; next_id := n; fault := fault m; outbox := o |}.
Proof.
  intros [Hn Hwf] Hle Hid Hr Hf ->. split; simpl; [lia|].
  intros id' s' [[<- <-]|[_ Hs]]%lookup_insert_Some; [done|].
  destruct (Hwf _ _ Hs) as (? & ? & ?). split_and!; try done; lia.
Qed.

Lemma wf_mux_init : wf_mux mux_init.
Proof. split; [done|]. intros id s. simpl. by rewrite lookup_empty. Qed.

Lemma wf_mux_open m dest m' id : wf_mux m -> open m dest = Ok (m', id) -> wf_mux m'.
Proof.
  intros Hwf. unfold open. destruct (fault m) eqn:Hf; intros [= <- <-]; [].
  rewrite <-Hf. destruct Hwf as [Hn ?].
  eapply wf_mux_put; [done|..|done]; rewrite ?Hf; try done; lia.
Qed.

Lemma wf_mux_write m id bytes m' :
  wf_mux m -> write m id bytes = Some (Ok m') -> wf_mux m'.
Proof.
  intros Hwf. unfold write.
  destruct (fault m) eqn:Hf, (sessions m !! id) as [[[r|] d [] [] q]|] eqn:Hs;
    intros [= <-]. rewrite <-Hf.
  destruct (proj2 Hwf _ _ Hs) as (? & ? & ?).
  eapply wf_mux_put; [done|..|done]; rewrite ?Hf; try done; by intros [??].
Qed.

Lemma wf_mux_read m id m' p :
  wf_mux m -> read m id = Some (Ok (m', p)) -> wf_mux m'.
Proof.
  intros Hwf. unfold read. destruct (sessions m !! id) as [s|] eqn:Hs; [|done].
  destruct (proj2 Hwf _ _ Hs) as (? & ? & ?).
  destruct (inbox s); [by destruct (state s), (fault m)|]. intros [= <- _].
  eapply wf_mux_put; [done|..|done]; simpl; try done; lia.
Qed.

Lemma wf_mux_close m id : wf_mux m -> wf_mux (close m id).
Proof.
  intros Hwf. unfold close. destruct (sessions m !! id) as [s|] eqn:Hs; [|done].
  destruct (proj2 Hwf _ _ Hs) as (? & ? & Hf).
  destruct (state s) eqn:Hst; try done;
    (eapply wf_mux_put; [done|..|done]; simpl; try done;
     destruct (fault m); try done; by intros [??]).
Qed.

Lemma wf_mux_recv m f : wf_mux m -> wf_mux (recv m f).
Proof.
  intros Hwf. unfold recv. destruct (sessions m !! arg1 f) as [s|] eqn:Hs; [|done].
  destruct (proj2 Hwf _ _ Hs) as (? & ? & Hf).
  destruct (command f), (state s) eqn:Hst; try done;
    (eapply wf_mux_put; [done|..|done]; simpl; try done; intros Hsome;
     by specialize (Hf Hsome)).
Qed.

Lemma wf_mux_teardown m e : wf_mux m -> wf_mux (teardown m e).
Proof.
  intros [Hn Hwf]. split; simpl; [done|].
  intros id s (s0 & <- & Hs)%lookup_fmap_Some. simpl.
  destruct (Hwf _ _ Hs) as (? & ? & ?). done.
Qed.

Lemma wf_mux_step m m' : wf_mux m -> mux_step m m' -> wf_mux m'.
Proof.
  destruct 2; eauto using wf_mux_open, wf_mux_write, wf_mux_read,
    wf_mux_close, wf_mux_recv, wf_mux_teardown.
Qed.

Lemma wf_mux_reachable m : rtc mux_step mux_init m -> wf_mux m.
Proof.
  intros Hrtc. eapply (rtc_ind_r wf_mux); [apply wf_mux_init| |exact Hrtc].
  eauto using wf_mux_step.
Qed.

(** ** The invariant of the frames sent *)

Lemma recv_next_id m f : next_id (recv m f) = next_id m.
Proof.
  unfold recv. destruct (sessions m !! arg1 f) as [s|]; [|done].
  by destruct (command f), (state s).
Qed.

Lemma wf_outbox_step m m' :
  wf_mux m -> wf_outbox m -> mux_step m m' -> wf_outbox m'.
Proof.
  intros [Hn Hwf] Ho Hstep. unfold wf_outbox in *.
  destruct Hstep
    as [m dest m' id Hop|m id bytes m' Hw|m id m' p Hr|m id|m f|m e].
  - unfold open in Hop. destruct (fault m); simplify_eq. simpl.
    apply Forall_app.
    split; [|apply Forall_singleton; simpl; split; [auto|lia]].
    eapply Forall_impl; [done|]. intros f [? ?]. split; [done|lia].
  - unfold write in Hw.
    destruct (fault m), (sessions m !! id) as [[[r|] d [] [] q]|] eqn:Hs;
      simplify_eq. simpl. destruct (Hwf _ _ Hs) as [? _].
    apply Forall_app. split; [done|]. apply Forall_singleton. simpl. auto.
  - unfold read in Hr. destruct (sessions m !! id) as [s|]; [|done].
    destruct (inbox s); [by destruct (state s), (fault m)|]. by simplify_eq.
  - unfold close. destruct (sessions m !! id) as [s|] eqn:Hs; [|done].
    destruct (Hwf _ _ Hs) as [? _].
    destruct (state s); try done; simpl; destruct (fault m); try done;
      apply Forall_app; (split; [done|]); apply Forall_singleton; simpl; auto.
  - by rewrite recv_outbox, recv_next_id.
  - done.
Qed.

(** The multiplexer sends [OPEN], [WRTE] and [CLSE] and nothing else, and
    every frame it sends carries a local id it handed out before: it
    acknowledges no inbound [WRTE] and names no session of the device's
    choosing. *)
Lemma wf_outbox_reachable m : rtc mux_step mux_init m -> wf_outbox m.
Proof.
  intros Hrtc. cut (wf_mux m /\ wf_outbox m); [tauto|].
  eapply (rtc_ind_r (fun m => wf_mux m /\ wf_outbox m));
    [split; [apply wf_mux_init|by constructor]| |exact Hrtc].
  intros m1 m2 _ Hstep [? ?]. eauto using wf_mux_step, wf_outbox_step.
Qed.

(** ** Calls on an open session *)

Lemma write_open m id bytes s r :
  fault m = None -> sessions m !! id = Some s -> state s = Open ->
  remote_id s = Some r ->
  write m id bytes =
    if write_pending s then None
    else Some (Ok
      {| sessions :=
           <[id := {| remote_id := Some r; destination := destination s;
                      state := Open; write_pending := true;
                      inbox := inbox s |}]> (sessions m);
         next_id := next_id m; fault := None;
         outbox := outbox m ++
           [{| command := WRTE; arg0 := id; arg1 := r; payload := bytes |}] |}).
Proof.
  intros Hf Hs Hst Hr. unfold write. rewrite Hf, Hs.
  destruct s as [r' d st w q]; simpl in *. by subst.
Qed.

Lemma write_Ok_inv m id bytes m' :
  write m id bytes = Some (Ok m') ->
  fault m' = None /\
  exists s r, sessions m' !! id = Some s /\ state s = Open /\
    remote_id s = Some r /\ write_pending s = true /\
    outbox m' = outbox m ++
      [{| command := WRTE; arg0 := id; arg1 := r; payload := bytes |}].
Proof.
  unfold write.
  destruct (fault m), (sessions m !! id) as [[[r|] d [] [] q]|]; intros [= <-].
  split; [done|]. eexists _, r. simpl. by rewrite lookup_insert_eq.
Qed.

(** A transport fails once: a second failure changes nothing, and the
    callers keep the first fault. *)
Lemma teardown_idempotent m e e' :
  teardown (teardown m e) e' = teardown m e.
Proof.
  unfold teardown. simpl. f_equal. rewrite <-map_fmap_compose.
  by apply map_fmap_ext.
Qed.

(** ** The answer to [open] *)

Lemma open_Ok_inv m dest m' id :
  open m dest = Ok (m', id) ->
  fault m = None /\ id = next_id m /\ fault m' = None
  /\ sessions m' !! id
     = Some {| remote_id := None; destination := dest; state := Opening;
               write_pending := false; inbox := [] |}.
Proof.
  unfold open. destruct (fault m) eqn:Hf; intros [= <- <-]; simpl.
  by rewrite lookup_insert_eq.
Qed.

(** The caller of [open] is suspended until the device answers. *)
Lemma await_open_suspended m dest m' id :
  open m dest = Ok (m', id) -> await_open m' id = None.
Proof.
  intros (_ & _ & Hf & Hs)%open_Ok_inv. unfold await_open. by rewrite Hf, Hs.
Qed.

(** An [OKAY] for the session opens it under the remote id of the
    frame. *)
Lemma await_open_okay m dest m' id f :
  open m dest = Ok (m', id) -> command f = OKAY -> arg1 f = id ->
  await_open (recv m' f) id = Some (Ok (arg0 f)).
Proof.
  intros (_ & _ & Hf & Hs)%open_Ok_inv Hc <-. unfold await_open, recv.
  rewrite Hs, Hc. simpl. by rewrite Hf, lookup_insert_eq.
Qed.

(** A [CLSE] for the session fails the open. *)
Lemma await_open_refused m dest m' id f :
  open m dest = Ok (m', id) -> command f = CLSE -> arg1 f = id ->
  await_open (recv m' f) id = Some (Err (ADBRequestFailed "session closed")).
Proof.
  intros (_ & _ & Hf & Hs)%open_Ok_inv Hc <-. unfold await_open, recv.
  rewrite Hs, Hc. simpl. by rewrite Hf, lookup_insert_eq.
Qed.

(** A frame for another session leaves the caller suspended. *)
Lemma await_open_other m id f :
  arg1 f <> id -> await_open (recv m f) id = await_open m id.
Proof.
  intros Hne. unfold await_open. by rewrite recv_fault, recv_other.
Qed.

(** The loss of the transport wakes the caller with the fault. *)
Lemma await_open_teardown m id e :
  await_open (teardown m e) id = Some (Err (IOError (default e (fault m)))).
Proof. done. Qed.

(** A [CLSE] of the device wakes the writer: whatever the session was
    waiting for, the next write on it fails with the closed-session
    fault and does not suspend. *)
Lemma recv_close_fails_write m f s bytes :
  fault m = None -> sessions m !! arg1 f = Some s -> command f = CLSE ->
  write (recv m f) (arg1 f) bytes
  = Some (Err (ADBRequestFailed "session closed")).
Proof.
  intros Hf Hs Hc. unfold write, recv. rewrite Hs, Hc.
  destruct s as [[r|] d [] [] q]; simpl;
    by rewrite ?Hf, ?lookup_insert_eq, ?Hs.
Qed.

(** ** Routing, flow control, teardown and local ids *)

(** C4: Inbound frames are routed by their local id and keep their order:
    over any run of the receive loop in which the device does not close the
    open session [id], the session stays open and its queue grows by
    exactly the payloads of the [WRTE] frames whose [arg1] is [id], in the
    order of arrival; frames of other sessions and of unknown ids leave no
    trace in it. *)
Theorem recv_routes m fs id s :
  sessions m !! id = Some s -> state s = Open ->
  Forall (fun f => arg1 f = id -> command f <> CLSE) fs ->
  exists s', sessions (foldl recv m fs) !! id = Some s' /\ state s' = Open /\
    inbox s' = inbox s ++ addressed id fs.
Proof.
  intros Hs Hst Hfs.
  destruct (foldl_recv_open m fs id s) as (s' & ? & ? & _ & ? & _); eauto.
Qed.

(** C12: One write is outstanding per session: after a write went through,
    and over any run of the receive loop in which the device does not close
    the session, the next write on that session suspends its caller exactly
    when no [OKAY] for the session was among the frames. *)
Theorem write_blocked_iff m id bytes m1 fs bytes' :
  write m id bytes = Some (Ok m1) ->
  Forall (fun f => arg1 f = id -> command f <> CLSE) fs ->
  write (foldl recv m1 fs) id bytes' = None <-> credits id fs = [].
Proof.
  intros (Hf & s & r & Hs & Hst & Hr & Hw & _)%write_Ok_inv Hfs.
  destruct (foldl_recv_open m1 fs id s) as (s' & Hs' & Hst' & Hr' & _ & Hw');
    [done..|].
  rewrite (write_open _ _ _ s' r), Hw', Hw;
    [|by rewrite foldl_recv_fault|done|done|congruence].
  by case_decide.
Qed.

(** A failure of the transport tears every session down: after
    [teardown] each session of the table is [Closed], [open] and [write]
    fail with the transport fault, and so does [read] on a session with
    nothing queued. *)
Theorem teardown_closes m e :
  (forall id s, sessions (teardown m e) !! id = Some s -> state s = Closed) /\
  (forall dest,
     open (teardown m e) dest = Err (IOError (default e (fault m)))) /\
  (forall id bytes,
     write (teardown m e) id bytes =
       Some (Err (IOError (default e (fault m))))) /\
  (forall id s, sessions (teardown m e) !! id = Some s -> inbox s = [] ->
     read (teardown m e) id = Some (Err (IOError (default e (fault m))))).
Proof.
  split_and!; try done.
  - by intros id s (s0 & <- & _)%lookup_fmap_Some.
  - intros id s Hs Hq. unfold read. rewrite Hs, Hq. by destruct (state s).
Qed.

(** Closing wakes the suspended callers: once [close] was called on a
    session that was opening or open, with the transport alive, a [CLSE]
    for the session is the last frame sent, a write on it fails with
    "session closed", and so does a read once the queue is empty. *)
Theorem close_wakes m id s bytes :
  fault m = None -> sessions m !! id = Some s ->
  state s = Opening \/ state s = Open ->
  outbox (close m id) = outbox m ++
    [{| command := CLSE; arg0 := id; arg1 := default 0 (remote_id s);
        payload := [] |}] /\
  write (close m id) id bytes = Some (Err (ADBRequestFailed "session closed")) /\
  (inbox s = [] ->
   read (close m id) id = Some (Err (ADBRequestFailed "session closed"))).
Proof.
  intros Hf Hs Hst. unfold close, write, read. rewrite Hs, Hf.
  destruct s as [r d st w q]; simpl in *.
  destruct Hst as [->| ->]; simpl; rewrite ?Hf, lookup_insert_eq; simpl;
    (split_and!; [done|by destruct r|by intros ->]).
Qed.

(** C25: Local ids are fresh: in every state the callers and the receive
    loop can reach from the initial one, [open] hands out a positive id that
    no session of the table has, open or closed, and the new session is the
    only change to the table. *)
Theorem open_fresh m dest m' id :
  rtc mux_step mux_init m -> open m dest = Ok (m', id) ->
  1 <= id /\ sessions m !! id = None /\
  exists s, sessions m' = <[id := s]> (sessions m) /\ state s = Opening.
Proof.
  intros [Hn Hwf]%wf_mux_reachable. unfold open.
  destruct (fault m); intros [= <- <-]. split_and!; [done| |by eexists].
  destruct (sessions m !! next_id m) as [s|] eqn:Hs; [|done].
  destruct (Hwf _ _ Hs). lia.
Qed.

End mux_facts.

(** ** A session of the test double

    One stream to the shell service, opened and accepted by the device with
    the remote id 7, and three inbound frames: two for the stream and one
    for a local id that no session has. *)

Definition demo_mux : Mux (H := dyn_extern) :=
  match open mux_init (bytes_of_string "shell:") with
  | Ok (m, id) =>
      recv m {| command := OKAY; arg0 := 7; arg1 := id; payload := [] |}
  | Err _ => mux_init
  end.

Definition demo_frames : list Message :=
  [ {| command := WRTE; arg0 := 7; arg1 := 1; payload := bytes_of_string "a" |};
    {| command := WRTE; arg0 := 9; arg1 := 2; payload := bytes_of_string "x" |};
    {| command := WRTE; arg0 := 7; arg1 := 1; payload := bytes_of_string "b" |} ].

Lemma demo_frames_no_close :
  Forall (fun f => arg1 f = 1 -> command f <> CLSE) demo_frames.
Proof. by repeat constructor. Qed.

Definition demo_session : Session :=
  {| remote_id := Some 7; destination := bytes_of_string "shell:";
     state := Open; write_pending := false; inbox := [] |}.

Definition demo_written : Mux (H := dyn_extern) :=
  match write demo_mux 1 (bytes_of_string "id") with
  | Some (Ok m) => m
  | _ => demo_mux
  end.

Definition demo_second : Mux (H := dyn_extern) :=
  match open demo_mux (bytes_of_string "sync:") with
  | Ok (m, _) => m
  | Err _ => demo_mux
  end.

Lemma demo_mux_reachable : rtc mux_step mux_init demo_mux.
Proof.
  eapply rtc_l; [by eapply (step_open mux_init)|].
  eapply rtc_l; [apply step_recv|]. apply rtc_refl.
Qed.

Lemma recv_routes_witness :
  exists s', sessions (foldl recv demo_mux demo_frames) !! 1 = Some s' /\
    state s' = Open /\
    inbox s' = [bytes_of_string "a"; bytes_of_string "b"].
Proof.
  exact (recv_routes demo_mux demo_frames 1 demo_session
           eq_refl eq_refl demo_frames_no_close).
Defined.

Lemma write_blocked_iff_witness :
  write (foldl recv demo_written demo_frames) 1 (bytes_of_string "ls") = None
  <-> credits 1 demo_frames = [].
Proof.
  exact (write_blocked_iff demo_mux 1 (bytes_of_string "id") demo_written
           demo_frames (bytes_of_string "ls") eq_refl demo_frames_no_close).
Defined.

Lemma close_wakes_witness :
  outbox (close demo_mux 1) = outbox demo_mux ++
    [{| command := CLSE; arg0 := 1; arg1 := 7; payload := [] |}] /\
  write (close demo_mux 1) 1 (bytes_of_string "ls")
    = Some (Err (ADBRequestFailed "session closed")) /\
  (inbox demo_session = [] ->
   read (close demo_mux 1) 1 = Some (Err (ADBRequestFailed "session closed"))).
Proof.
  exact (close_wakes demo_mux 1 demo_session (bytes_of_string "ls")
           eq_refl eq_refl (or_intror eq_refl)).
Defined.

Lemma open_fresh_witness :
  1 <= 2 /\ sessions demo_mux !! 2 = None /\
  exists s, sessions demo_second = <[2 := s]> (sessions demo_mux)
            /\ state s = Opening.
Proof.
  exact (open_fresh demo_mux (bytes_of_string "sync:") demo_second 2
           demo_mux_reachable eq_refl).
Defined.
