(* ===== verification/Recv.v ===== *)
(** * The receive loop on the byte stream (specification, sections 4.1,
      4.3, 5 and 7)

    The transport is a stream of bytes.  [read_exact] takes a number of
    bytes off it, [read_frame] a header of 24 bytes and the payload the
    header announces, and [recv_loop] is the receive context of the
    multiplexer: it reads frame after frame, decodes each and hands the
    message to [recv].  A frame that fails the checksum is discarded and
    reported; an unknown command or a wrong magic tears the multiplexer
    down, and so does the end of the stream.  [wire] is the other
    direction: the bytes of whole frames, one after the other.  The crate
    has no source for this part: the definitions follow the
    specification. *)

From stdpp Require Import gmap.
From S2P Require Import Prelude Error Bytes Codec Mux.

#[local] Open Scope Z_scope.

(** The two I/O errors the engine makes itself: the one [read_exact]
    reports when the stream ends before the bytes asked for
    ([ErrorKind::UnexpectedEof]), and the one the sessions are told when a
    frame that is no ADB message ended the connection
    ([ErrorKind::InvalidData]). *)
Class Transport `{Extern} := {
  unexpected_eof : ext std_io_Error;
  invalid_data : ext std_io_Error;
}.

(** The bytes [write_all] puts on the transport for the frames [fs]: each
    frame whole, in order. *)
Definition wire (fs : list Message) : list byte := fs ≫= encode.

(** The sizes a frame can carry: [u32] arguments and a payload whose
    length is a [u32]. *)
Definition wf_message (f : Message) : Prop :=
  u32_range (arg0 f) /\ u32_range (arg1 f)
  /\ u32_range (Z.of_nat (length (payload f))).

Section recv.
Context `{Transport}.

(** [read_exact]: the first [n] bytes and the rest of the stream; a
    shorter stream is a fault of the transport. *)
Definition read_exact (n : nat) (s : list byte)
    : Result (list byte * list byte) :=
  if decide (n <= length s)%nat then Ok (take n s, drop n s)
  else Err (IOError unexpected_eof).

(** A header, the payload of the length in the fourth word of the header,
    and the rest of the stream. *)
Definition read_frame (s : list byte)
    : Result (list byte * list byte * list byte) :=
  let* hs := read_exact 24 s in
  let* ps := read_exact (Z.to_nat (field 3 hs.1)) hs.2 in
  Ok (hs.1, ps.1, ps.2).

(** The receive loop: the multiplexer at the end of the stream and the
    integrity faults reported on the way.  Every turn takes a frame off the
    stream, so [fuel] above the length of the stream is never used up. *)
Fixpoint recv_loop (fuel : nat) (m : Mux) (s : list byte)
    : option (Mux * list RustADBError) :=
  match fuel with
  | O => None
  | S fuel =>
      match read_frame s with
      | Err _ => Some (teardown m unexpected_eof, [])
      | Ok (header, payload, rest) =>
          match decode header payload with
          | Ok f => recv_loop fuel (recv m f) rest
          | Err (Crate e) =>
              r ← recv_loop fuel m rest; Some (r.1, e :: r.2)
          | Err _ => Some (teardown m invalid_data, [])
          end
      end
  end.

Definition recv_all (m : Mux) (s : list byte) : Mux * list RustADBError :=
  default (m, []) (recv_loop (S (length s)) m s).

End recv.

(** A transport for the concrete runs, with the messages std gives the
    two errors. *)
Definition demo_transport : Transport (H := dyn_extern) :=
  Build_Transport dyn_extern
    (root "failed to fill whole buffer") (root "invalid data").

(** ** Reading off the stream *)

Section recv_facts.
Context `{Transport}.
Implicit Types (m : Mux) (f : Message) (s h p rest : list byte).

Lemma read_exact_app (a rest : list byte) :
  read_exact (length a) (a ++ rest) = Ok (a, rest).
Proof.
  unfold read_exact. rewrite decide_True by (rewrite length_app; lia).
  by rewrite take_app_length, drop_app_length.
Qed.

Lemma read_exact_Ok_inv n s a rest :
  read_exact n s = Ok (a, rest) -> s = a ++ rest /\ length a = n.
Proof.
  unfold read_exact. case_decide; intros [= <- <-]; [].
  by rewrite take_drop, length_take, Nat.min_l.
Qed.

(** A frame read off the stream is a prefix of the stream: a header of 24
    bytes and as many bytes of payload as the header says. *)
Lemma read_frame_Ok_inv s h p rest :
  read_frame s = Ok (h, p, rest) ->
  s = h ++ p ++ rest /\ length h = 24%nat
  /\ field 3 h = Z.of_nat (length p).
Proof.
  unfold read_frame. intros ([h' s1] & Hh & Hp)%bind_Ok_inv.
  apply bind_Ok_inv in Hp as ([p' s2] & Hp & [= -> -> ->]).
  apply read_exact_Ok_inv in Hh as [-> Hh], Hp as [Hs1 Hp]. simpl in *.
  subst s1. split_and!; [done..|]. rewrite Hp, Z2Nat.id; [done|].
  apply from_le_bytes_range.
Qed.

Lemma read_frame_app h p rest :
  length h = 24%nat -> field 3 h = Z.of_nat (length p) ->
  read_frame (h ++ p ++ rest) = Ok (h, p, rest).
Proof.
  intros Hh Hp. unfold read_frame.
  rewrite <-Hh, read_exact_app. simpl. rewrite Hp, Nat2Z.id.
  by rewrite read_exact_app.
Qed.

Lemma read_frame_encode f rest :
  wf_message f ->
  read_frame (encode f ++ rest) = Ok (encode_header f, payload f, rest).
Proof.
  intros (_ & _ & Hl). unfold encode. rewrite <-app_assoc.
  apply read_frame_app; [apply length_encode_header|by apply field_data_length].
Qed.

Lemma read_frame_shorter s h p rest :
  read_frame s = Ok (h, p, rest) -> (length rest < length s)%nat.
Proof.
  intros (-> & Hh & _)%read_frame_Ok_inv. rewrite !length_app. lia.
Qed.

(** ** Fuel *)

Lemma recv_loop_mono fuel fuel' m s r :
  recv_loop fuel m s = Some r -> (fuel <= fuel')%nat ->
  recv_loop fuel' m s = Some r.
Proof.
  revert fuel' m s r. induction fuel as [|fuel IH]; intros [|fuel'] m s r;
    simpl; try done; try lia.
  intros Hr Hle. destruct (read_frame s) as [[[h p] rest]|]; [|done].
  destruct (decode h p) as [f|[| |e]]; try done.
  - apply IH; [done|lia].
  - destruct (recv_loop fuel m rest) as [r'|] eqn:Hr'; [|done].
    by rewrite (IH fuel' _ _ r') by (done || lia).
Qed.

Lemma recv_loop_total fuel m s :
  (length s < fuel)%nat -> is_Some (recv_loop fuel m s).
Proof.
  revert m s. induction fuel as [|fuel IH]; intros m s Hs; simpl; [lia|].
  destruct (read_frame s) as [[[h p] rest]|] eqn:Hf; [|done].
  apply read_frame_shorter in Hf.
  destruct (decode h p) as [f|[| |e]]; try done.
  - apply IH. lia.
  - destruct (IH m rest) as [r ->]; [lia|done].
Qed.

(** With fuel above the length of the stream the loop returns what
    [recv_all] returns. *)
Lemma recv_loop_recv_all fuel m s :
  (length s < fuel)%nat -> recv_loop fuel m s = Some (recv_all m s).
Proof.
  intros Hs. unfold recv_all.
  destruct (recv_loop_total (S (length s)) m s) as [r Hr]; [lia|].
  rewrite Hr. simpl. apply (recv_loop_mono _ _ _ _ _ Hr). lia.
Qed.

(** C15: the receive loop terminates: every turn takes a frame of at least
    24 bytes off the stream, so the loop returns with any fuel above the
    length of the stream, and what it returns does not depend on the
    fuel. *)
Theorem recv_loop_terminates fuel fuel' m s :
  (length s < fuel)%nat -> (length s < fuel')%nat ->
  is_Some (recv_loop fuel m s) /\ recv_loop fuel m s = recv_loop fuel' m s.
Proof. intros Hs Hs'. by rewrite !recv_loop_recv_all. Qed.

(** ** One turn of the loop *)

Lemma recv_all_eof m s :
  is_ok (read_frame s) = false -> recv_all m s = (teardown m unexpected_eof, []).
Proof. unfold recv_all. simpl. by destruct (read_frame s). Qed.

Lemma recv_all_frame m s h p rest :
  read_frame s = Ok (h, p, rest) ->
  recv_all m s =
    match decode h p with
    | Ok f => recv_all (recv m f) rest
    | Err (Crate e) => ((recv_all m rest).1, e :: (recv_all m rest).2)
    | Err _ => (teardown m invalid_data, [])
    end.
Proof.
  intros Hf. pose proof (read_frame_shorter _ _ _ _ Hf).
  unfold recv_all at 1. simpl. rewrite Hf.
  destruct (decode h p) as [f|[| |e]]; try done;
    by rewrite recv_loop_recv_all by lia.
Qed.

(** A frame that fails the checksum reaches no session: it is reported and
    the loop goes on with the next frame. *)
Lemma recv_all_discards m h p rest e :
  length h = 24%nat -> field 3 h = Z.of_nat (length p) ->
  decode h p = Err (Crate e) ->
  recv_all m (h ++ p ++ rest)
  = ((recv_all m rest).1, e :: (recv_all m rest).2).
Proof.
  intros Hh Hp Hd. by rewrite (recv_all_frame _ _ h p rest), Hd
    by by apply read_frame_app.
Qed.

Lemma recv_all_encode m f rest :
  wf_message f -> recv_all m (encode f ++ rest) = recv_all (recv m f) rest.
Proof.
  intros Hf. rewrite (recv_all_frame _ _ _ _ _ (read_frame_encode f rest Hf)).
  destruct Hf as (? & ? & _). by rewrite decode_encode_header.
Qed.

(** ** The loop and the frames *)

Lemma wire_cons f (fs : list Message) : wire (f :: fs) = encode f ++ wire fs.
Proof. unfold wire. by rewrite bind_cons. Qed.

(** The frames of [fs] are dispatched in order whatever ends the stream
    after them. *)
Lemma recv_all_wire_eof m fs s :
  Forall wf_message fs -> is_ok (read_frame s) = false ->
  recv_all m (wire fs ++ s) = (teardown (foldl recv m fs) unexpected_eof, []).
Proof.
  intros Hfs Hs. revert m. induction Hfs as [|f fs Hf _ IH]; intros m.
  - by apply recv_all_eof.
  - by rewrite wire_cons, <-app_assoc, recv_all_encode, IH.
Qed.

(** C6: the loop on bytes implements the dispatch of messages: on the
    bytes of the frames [fs], each written whole, the receive loop leaves
    the multiplexer as [recv] applied to the messages of [fs] in their
    order does, reports no fault, and tears the multiplexer down when the
    stream ends. *)
Theorem recv_all_wire m fs :
  Forall wf_message fs ->
  recv_all m (wire fs) = (teardown (foldl recv m fs) unexpected_eof, []).
Proof.
  intros Hfs. rewrite <-(app_nil_r (wire fs)). by apply recv_all_wire_eof.
Qed.

(** ** A stream that ends inside a frame *)

(** A frame cut short is a short read, in the header or in the payload. *)
Lemma read_frame_truncated f (n : nat) :
  wf_message f -> (n < length (encode f))%nat ->
  is_ok (read_frame (take n (encode f))) = false.
Proof.
  intros (_ & _ & Hl) Hn. rewrite length_encode in Hn.
  unfold read_frame, read_exact. case_decide as Hh; [|done]. simpl.
  rewrite length_take, length_encode in Hh.
  rewrite take_take, Nat.min_l, take_encode, field_data_length, Nat2Z.id
    by (done || lia).
  rewrite decide_False; [done|].
  rewrite length_drop, length_take, length_encode. lia.
Qed.

(** A short read is a fault of the transport and no fault of integrity:
    when the stream ends inside a frame, the frames before it are
    dispatched, the multiplexer is torn down with the end-of-stream error
    and no [InvalidIntegrity] is reported for the frame cut short. *)
Lemma recv_all_truncated m fs f (n : nat) :
  Forall wf_message fs -> wf_message f -> (n < length (encode f))%nat ->
  recv_all m (wire fs ++ take n (encode f))
  = (teardown (foldl recv m fs) unexpected_eof, []).
Proof. auto using recv_all_wire_eof, read_frame_truncated. Qed.

End recv_facts.

(** *** The theorems at a concrete stream *)

Lemma demo_frames_wf : Forall wf_message demo_frames.
Proof. repeat constructor; by vm_compute. Qed.

Lemma recv_loop_terminates_witness :
  is_Some (recv_loop (H0 := demo_transport) 100 demo_mux (wire demo_frames))
  /\ recv_loop (H0 := demo_transport) 100 demo_mux (wire demo_frames)
     = recv_loop (H0 := demo_transport) 200 demo_mux (wire demo_frames).
Proof. apply recv_loop_terminates; vm_compute; lia. Defined.

Lemma recv_all_wire_witness :
  recv_all (H0 := demo_transport) demo_mux (wire demo_frames)
  = (teardown (foldl recv demo_mux demo_frames)
       (root "failed to fill whole buffer"), []).
Proof. exact (recv_all_wire demo_mux demo_frames demo_frames_wf). Defined.
