(* ===== verification/Connect.v ===== *)
(** * [connect]: the handshake on the byte stream, then the multiplexer
      (specification, sections 2, 4.2, 5 and 6)

    The layers composed: the frames of the device are read off the
    transport ([read_frame]), decoded ([decode]) and handed to the
    handshake ([auth_step]) one at a time until the handshake ends
    ([auth_recv]); [connect] sends the client's [CNXN], runs the handshake
    and on success hands the rest of the stream to a fresh multiplexer.
    The crate has no source for this part: the definitions follow the
    specification. *)

From stdpp Require Import gmap.
From S2P Require Import Prelude Error Bytes Codec Auth Mux Recv.

#[local] Open Scope Z_scope.

Section connect.
Context `{Extern} {C : Client} {T : Transport}.

(** The handshake on the stream, from the state [st]: the final state, the
    messages sent in order, the error that ended the handshake if one did,
    and the bytes left on the stream.  The end of the stream is the
    transport closed by the device; a frame that is no message ends the
    handshake as it ends the receive loop.  Every turn takes a frame off
    the stream, so [fuel] above the length of the stream is never used
    up. *)
Fixpoint auth_recv (fuel : nat) (st : AuthState) (s : list byte)
    : option (AuthState * list Message * option RustADBError * list byte) :=
  match fuel with
  | O => None
  | S fuel =>
      if decide (st = Authenticated \/ st = Failed) then Some (st, [], None, s)
      else
        let step reply rest :=
          match auth_step st reply with
          | (st', Ok out) =>
              '(st'', sent, err, rest') ← auth_recv fuel st' rest;
              Some (st'', option_list out ++ sent, err, rest')
          | (st', Err e) => Some (st', [], Some e, rest)
          end in
        match read_frame s with
        | Err _ => step None s
        | Ok (header, payload, rest) =>
            match decode header payload with
            | Ok m => step (Some m) rest
            | Err (Crate e) => Some (Failed, [], Some e, rest)
            | Err _ => Some (Failed, [], Some (IOError invalid_data), rest)
            end
        end
  end.

(** [connect]: the frames sent, and the multiplexer with the bytes that
    follow the handshake on the stream, or the error of the handshake.
    Nothing but the state [Authenticated] makes a session. *)
Definition connect (s : list byte)
    : list Message * Result (Mux * list byte) :=
  let hello :=
    {| command := CNXN; arg0 := version; arg1 := 0; payload := banner |} in
  match auth_recv (S (length s)) AwaitingToken s with
  | Some (Authenticated, sent, None, rest) =>
      (hello :: sent, Ok (mux_init, rest))
  | Some (_, sent, Some e, _) => (hello :: sent, Err e)
  | _ => ([hello], Err (ADBRequestFailed "handshake not completed"))
  end.

End connect.

(** The states in which the handshake waits for the device. *)
Definition waiting (st : AuthState) : Prop :=
  st = AwaitingToken \/ st = AwaitingPubkeyRequestOrAccept.

(** ** One turn of the handshake on the stream *)

Section connect_facts.
Context `{Extern} {C : Client} {T : Transport}.
Implicit Types (st : AuthState) (m f accept : Message)
  (s h p rest : list byte) (replies : list Message).

Lemma waiting_not_terminal st :
  waiting st -> ~ (st = Authenticated \/ st = Failed).
Proof. intros [-> | ->] [?|?]; discriminate. Qed.

Lemma not_terminal_waiting st :
  ~ (st = Authenticated \/ st = Failed) -> waiting st.
Proof. unfold waiting. destruct st; intuition congruence. Qed.

Lemma auth_recv_terminal fuel st s :
  st = Authenticated \/ st = Failed ->
  auth_recv (S fuel) st s = Some (st, [], None, s).
Proof. intros Hst. simpl. by rewrite decide_True. Qed.

(** The device closed the transport: the handshake fails. *)
Lemma auth_step_closed st :
  waiting st ->
  auth_step st None
  = (Failed, Err (ADBRequestFailed "transport closed during handshake")).
Proof. by intros [-> | ->]. Qed.

Lemma auth_recv_closed fuel st s :
  waiting st -> is_ok (read_frame s) = false ->
  auth_recv (S fuel) st s
  = Some (Failed, [],
          Some (ADBRequestFailed "transport closed during handshake"), s).
Proof.
  intros Hst Hs. simpl. rewrite decide_False by by apply waiting_not_terminal.
  destruct (read_frame s); [done|]. by rewrite auth_step_closed.
Qed.

Lemma auth_recv_frame fuel st s h p rest m :
  waiting st -> read_frame s = Ok (h, p, rest) -> decode h p = Ok m ->
  auth_recv (S fuel) st s
  = match auth_step st (Some m) with
    | (st', Ok out) =>
        '(st'', sent, err, rest') ← auth_recv fuel st' rest;
        Some (st'', option_list out ++ sent, err, rest')
    | (st', Err e) => Some (st', [], Some e, rest)
    end.
Proof.
  intros Hst Hs Hd. simpl.
  by rewrite decide_False, Hs, Hd by by apply waiting_not_terminal.
Qed.

Lemma auth_recv_encode fuel st m rest :
  waiting st -> wf_message m ->
  auth_recv (S fuel) st (encode m ++ rest)
  = match auth_step st (Some m) with
    | (st', Ok out) =>
        '(st'', sent, err, rest') ← auth_recv fuel st' rest;
        Some (st'', option_list out ++ sent, err, rest')
    | (st', Err e) => Some (st', [], Some e, rest)
    end.
Proof.
  intros Hst Hm. apply (auth_recv_frame _ _ _ (encode_header m) (payload m));
    [done|by apply read_frame_encode|].
  destruct Hm as (? & ? & _). by apply decode_encode_header.
Qed.

(** A reply that is no [CNXN] leaves the handshake waiting, or fails
    it. *)
Lemma auth_step_waiting st m st' out :
  waiting st -> command m <> CNXN ->
  auth_step st (Some m) = (st', Ok out) -> waiting st'.
Proof.
  unfold auth_step, waiting. intros [-> | ->] Hm; destruct (command m);
    try done; repeat case_match; intros; simplify_eq; auto.
Qed.

(** ** Fuel *)

Lemma auth_recv_total fuel st s :
  (length s < fuel)%nat -> is_Some (auth_recv fuel st s).
Proof.
  revert st s. induction fuel as [|fuel IH]; intros st s Hs; [lia|].
  destruct (decide (st = Authenticated \/ st = Failed)) as [Hst|Hst].
  { by rewrite auth_recv_terminal. }
  apply not_terminal_waiting in Hst.
  destruct (read_frame s) as [[[h p] rest]|e] eqn:Hf.
  2: { rewrite auth_recv_closed; [done..|]. by rewrite Hf. }
  apply read_frame_shorter in Hf as Hlt. simpl.
  rewrite decide_False, Hf by by apply waiting_not_terminal.
  destruct (decode h p) as [m|[| |e]]; [|done..].
  destruct (auth_step st (Some m)) as [st' [out|e]]; [|done].
  destruct (IH st' rest) as [[[[st'' sent] err] rest'] ->]; [lia|done].
Qed.

(** ** The handshake on the frames of the device *)

(** On the bytes of the replies [replies], none of them a [CNXN], and of
    a [CNXN] after them, the handshake on the stream is the handshake on
    the messages; when no reply fails it, it ends [Authenticated] and
    leaves what follows the [CNXN] on the stream. *)
Lemma auth_recv_run fuel st replies accept rest :
  waiting st -> Forall wf_message replies -> wf_message accept ->
  Forall (fun m => command m <> CNXN) replies -> command accept = CNXN ->
  (length (wire (replies ++ [accept]) ++ rest) < fuel)%nat ->
  exists rest',
    auth_recv fuel st (wire (replies ++ [accept]) ++ rest)
    = Some (auth_run st (Some <$> replies ++ [accept]), rest')
    /\ ((auth_run st (Some <$> replies ++ [accept])).2 = None ->
        rest' = rest
        /\ (auth_run st (Some <$> replies ++ [accept])).1.1 = Authenticated).
Proof.
  intros Hst Hwf Ha Hno Hc. revert st fuel Hst.
  induction Hwf as [|m replies Hm _ IH]; intros st [|fuel] Hst;
    cbn [app]; rewrite wire_cons, <-app_assoc, length_app, length_encode;
    try lia; intros Hlen; rewrite auth_recv_encode by done; simpl auth_run.
  - rewrite auth_step_accept by done. destruct fuel as [|fuel]; [lia|].
    rewrite auth_recv_terminal by auto. by exists rest.
  - apply Forall_cons_1 in Hno as [Hn Hno].
    destruct (auth_step st (Some m)) as [st' [out|e]] eqn:Hstep;
      [|by exists (wire (replies ++ [accept]) ++ rest)].
    destruct (IH Hno st' fuel) as (rest' & -> & Hrest);
      [by eapply auth_step_waiting|lia|].
    exists rest'. by destruct (auth_run st' _) as [[st'' sent] err].
Qed.

(** C10: framing is transparent to the handshake: on the bytes of the
    replies of the device, each framed whole, ending with the first
    [CNXN], [connect] sends what the handshake on the messages sends and
    fails with the error it fails with; when it fails with none, the
    multiplexer starts fresh on the bytes that follow the [CNXN]. *)
Theorem connect_handshake replies accept rest :
  Forall wf_message replies -> wf_message accept ->
  Forall (fun m => command m <> CNXN) replies -> command accept = CNXN ->
  connect (wire (replies ++ [accept]) ++ rest)
  = ((handshake (Some <$> replies ++ [accept])).1.2,
     match (handshake (Some <$> replies ++ [accept])).2 with
     | None => Ok (mux_init, rest)
     | Some e => Err e
     end).
Proof.
  intros Hwf Ha Hno Hc. unfold connect, handshake.
  destruct (auth_recv_run (S (length (wire (replies ++ [accept]) ++ rest)))
              AwaitingToken replies accept rest)
    as (rest' & -> & Hrest); [by left|done..|lia|].
  destruct (auth_run AwaitingToken _) as [[st sent] [e|]]; simpl in *.
  - by destruct st.
  - by destruct Hrest as [-> ->].
Qed.

(** ** What authenticates *)

Lemma auth_recv_Authenticated fuel st s sent rest :
  waiting st -> auth_recv fuel st s = Some (Authenticated, sent, None, rest) ->
  exists pre h p f,
    s = pre ++ h ++ p ++ rest /\ decode h p = Ok f /\ command f = CNXN.
Proof.
  revert st s sent. induction fuel as [|fuel IH]; intros st s sent Hst; [done|].
  destruct (read_frame s) as [[[h p] r]|e] eqn:Hf.
  2: { rewrite auth_recv_closed; [done..|]. by rewrite Hf. }
  destruct (decode h p) as [f|fault] eqn:Hd.
  2: { simpl. rewrite decide_False, Hf, Hd by by apply waiting_not_terminal.
       by destruct fault. }
  rewrite (auth_recv_frame _ _ _ h p r f) by done.
  apply read_frame_Ok_inv in Hf as (-> & _ & _).
  destruct (auth_step st (Some f)) as [st' [out|e]] eqn:Hstep; [|done].
  destruct (decide (st' = Authenticated \/ st' = Failed)) as [Hst'|Hst'].
  - destruct fuel as [|fuel]; [done|]. rewrite auth_recv_terminal by done.
    intros [= -> _ ->]. exists [], h, p, f. split_and!; [done..|].
    apply auth_step_Authenticated in Hstep as [->|(? & [= <-] & ?)]; [|done].
    by destruct Hst.
  - destruct (auth_recv fuel st' r) as [[[[st'' sent'] err] rest']|] eqn:Hr;
      [|done].
    intros [= -> _ -> ->].
    apply IH in Hr as (pre & h' & p' & f' & -> & ? & ?);
      [|by apply not_terminal_waiting].
    exists (h ++ p ++ pre), h', p', f'. by rewrite <-!app_assoc.
Qed.

(** C8: the device is the authority on acceptance, down to the bytes:
    whatever is on the stream, [connect] makes a session only after a
    frame that decodes to a [CNXN], the session is the fresh multiplexer,
    and the bytes handed to it are those that follow that frame. *)
Theorem connect_authenticated s sent (m : Mux) rest :
  connect s = (sent, Ok (m, rest)) ->
  m = mux_init
  /\ exists pre h p f,
       s = pre ++ h ++ p ++ rest /\ decode h p = Ok f /\ command f = CNXN.
Proof.
  unfold connect.
  destruct (auth_recv _ _ s) as [[[[st sent'] err] rest']|] eqn:Hr; [|done].
  destruct st, err; try done. intros [= _ <- <-]. split; [done|].
  apply auth_recv_Authenticated in Hr; [done|by left].
Qed.

(** ** The device goes away *)

Lemma auth_recv_tokens fuel st (tokens : list Message) (key : list byte) s :
  waiting st -> Forall wf_message tokens ->
  Forall (fun t => command t = AUTH /\ arg0 t = 1) tokens ->
  public_key = Ok key -> is_ok (read_frame s) = false ->
  (length (wire tokens ++ s) < fuel)%nat ->
  exists sent,
    auth_recv fuel st (wire tokens ++ s)
    = Some (Failed, sent,
            Some (ADBRequestFailed "transport closed during handshake"), s)
    /\ length sent = length tokens.
Proof.
  intros Hst Hwf Htok Hkey Hs. revert st fuel Hst Htok.
  induction Hwf as [|t tokens Ht _ IH]; intros st [|fuel] Hst Htok; try lia.
  { intros _. rewrite auth_recv_closed by done. by exists []. }
  apply Forall_cons_1 in Htok as [[Hc Ha] Htok].
  rewrite wire_cons, <-app_assoc, length_app, length_encode. intros Hlen.
  rewrite auth_recv_encode by done.
  destruct (auth_step_token st (Some t) key) as [out ->];
    [done|by exists t|done|].
  destruct (IH AwaitingPubkeyRequestOrAccept fuel) as (sent & -> & Hl);
    [by right|done|lia|].
  exists (out :: sent). simpl. by rewrite Hl.
Qed.

(** C19: a device that goes away during the handshake fails [connect]
    with [ADBRequestFailed]: after any number of challenges, each
    answered, a stream that ends, at a frame boundary or inside a frame,
    is the transport closed and no fault of integrity. *)
Theorem connect_closed (tokens : list Message) (key : list byte) s :
  Forall wf_message tokens ->
  Forall (fun t => command t = AUTH /\ arg0 t = 1) tokens ->
  public_key = Ok key -> is_ok (read_frame s) = false ->
  (connect (wire tokens ++ s)).2
  = Err (ADBRequestFailed "transport closed during handshake")
  /\ length (connect (wire tokens ++ s)).1 = S (length tokens).
Proof.
  intros Hwf Htok Hkey Hs. unfold connect.
  destruct (auth_recv_tokens (S (length (wire tokens ++ s))) AwaitingToken
              tokens key s) as (sent & -> & Hl); [by left|done..|lia|].
  simpl. by rewrite Hl.
Qed.

(** ** How the handshake ends *)

Lemma auth_step_Err st reply st' e :
  auth_step st reply = (st', Err e) -> st' = Failed.
Proof.
  unfold auth_step. destruct st, reply as [m|]; try done;
    try (by intros [= <- _]); destruct (command m); repeat case_match;
    by intros [= <- _].
Qed.

Lemma auth_step_Ok_not_Failed st reply out :
  waiting st -> auth_step st reply <> (Failed, Ok out).
Proof.
  unfold auth_step. intros [-> | ->]; destruct reply as [m|]; try done;
    destruct (command m); repeat case_match; done.
Qed.

(** The handshake on the stream ends [Authenticated] without an error or
    [Failed] with one, and in no other way. *)
Lemma auth_recv_outcome fuel st s st' sent err rest :
  waiting st -> auth_recv fuel st s = Some (st', sent, err, rest) ->
  (st' = Authenticated /\ err = None) \/ (st' = Failed /\ is_Some err).
Proof.
  revert st s sent. induction fuel as [|fuel IH]; intros st s sent Hst; [done|].
  simpl. rewrite decide_False by by apply waiting_not_terminal.
  assert (forall reply r,
    match auth_step st reply with
    | (st1, Ok out) =>
        '(st2, sent, err, rest') ← auth_recv fuel st1 r;
        Some (st2, option_list out ++ sent, err, rest')
    | (st1, Err e) => Some (st1, [], Some e, r)
    end = Some (st', sent, err, rest) ->
    (st' = Authenticated /\ err = None) \/ (st' = Failed /\ is_Some err))
    as Hstep.
  { intros reply r. destruct (auth_step st reply) as [st1 [out|e]] eqn:Hs.
    2: { apply auth_step_Err in Hs as ->. intros [= <- _ <- _]. eauto. }
    destruct (auth_recv fuel st1 r) as [[[[st2 sent2] err2] rest2]|] eqn:Hr;
      [|done].
    intros [= -> _ -> ->]. destruct st1; try (by eapply IH, Hr; red; auto).
    - destruct fuel; [done|]. rewrite auth_recv_terminal in Hr by auto.
      injection Hr as <- _ <- _. auto.
    - by apply auth_step_Ok_not_Failed in Hs. }
  destruct (read_frame s) as [[[h p] r]|e]; [|by apply Hstep].
  destruct (decode h p) as [m|[| |e]]; [by apply Hstep|..];
    intros [= <- _ <- _]; eauto.
Qed.

End connect_facts.

(** *** The theorems at concrete streams *)

Lemma token_wf : wf_message token.
Proof. by vm_compute. Qed.

Lemma accepted_wf : wf_message accepted.
Proof. by vm_compute. Qed.

(** The device refuses the signature, takes the key and accepts; a frame
    for the multiplexer follows on the stream. *)
Lemma connect_handshake_witness :
  connect (H := dyn_extern) (C := demo_client) (T := demo_transport)
    (wire ([token; token] ++ [accepted]) ++ wire demo_frames)
  = ([{| command := CNXN; arg0 := 0x01000000; arg1 := 0;
         payload := bytes_of_string "host::" |};
      {| command := AUTH; arg0 := 2; arg1 := 0;
         payload := reverse (payload token) |};
      {| command := AUTH; arg0 := 3; arg1 := 0;
         payload := bytes_of_string "QUFBQQ== adb@host" |}],
     Ok (mux_init, wire demo_frames)).
Proof.
  assert (Forall wf_message [token; token]) as Hwf
    by (repeat constructor; apply token_wf).
  assert (Forall (fun m => command m <> CNXN) [token; token]) as Hno
    by by repeat constructor.
  exact (connect_handshake (C := demo_client) (T := demo_transport)
           [token; token] accepted (wire demo_frames)
           Hwf accepted_wf Hno eq_refl).
Defined.

(** The stream ends six bytes into the payload of the second challenge. *)
Lemma connect_closed_witness :
  (connect (H := dyn_extern) (C := demo_client) (T := demo_transport)
     (wire [token] ++ take 30 (encode token))).2
  = Err (ADBRequestFailed "transport closed during handshake")
  /\ length
       (connect (H := dyn_extern) (C := demo_client) (T := demo_transport)
          (wire [token] ++ take 30 (encode token))).1 = 2%nat.
Proof.
  assert (Forall wf_message [token]) as Hwf
    by (repeat constructor; apply token_wf).
  assert (Forall (fun t => command t = AUTH /\ arg0 t = 1) [token]) as Htok
    by by repeat constructor.
  exact (connect_closed (C := demo_client) (T := demo_transport) [token]
           (bytes_of_string "QUFBQQ== adb@host") (take 30 (encode token))
           Hwf Htok eq_refl eq_refl).
Defined.

Lemma connect_authenticated_witness :
  mux_init (H := dyn_extern) = mux_init
  /\ exists pre h p f,
       encode accepted ++ encode token
       = pre ++ h ++ p ++ encode token
       /\ decode (H := dyn_extern) h p = Ok f /\ command f = CNXN.
Proof.
  exact (connect_authenticated (C := demo_client) (T := demo_transport)
           (encode accepted ++ encode token)
           [{| command := CNXN; arg0 := 0x01000000; arg1 := 0;
               payload := bytes_of_string "host::" |}]
           mux_init (encode token) eq_refl).
Defined.
