(* ===== verification/Channels.v ===== *)
(** * The contract of the stream multiplexer (specification, sections 4.3
      and 5)

    What the multiplexer promises its callers, apart from how it keeps its
    table: one queue of payloads per session, which starts empty when the
    session is opened, gets payloads at its back and gives them at its
    front.  The abstract state is a finite map of queues.  A step carries
    the event a caller or the device can see of it ([ChanEvent]: a session
    opened, a payload queued, a payload handed to a reader), and on the
    queues every event allows one step at most ([chan_step_det]).
    [mux_event] is the multiplexer with the event of each of its steps and
    [channels] the abstraction function from its table.  The theorem is
    that a run of the multiplexer is a run of the queues with the same
    events; hence what the readers of a session got, followed by what is
    still queued, is what the device sent the open session, in its order
    ([mux_fifo]). *)

From stdpp Require Import gmap.
From S2P Require Import Prelude Error Bytes Codec Mux.

#[local] Open Scope Z_scope.

(** What is seen of a step: the local id [open] returned, the payload of
    an inbound [WRTE] that an open session took, the payload [read]
    returned. *)
Inductive ChanEvent : Type :=
  | Opened (id : Z)
  | Queued (id : Z) (p : list byte)
  | Delivered (id : Z) (p : list byte).

(** The state is the queue of each session, by local id. *)
Inductive chan_step
    : gmap Z (list (list byte)) -> option ChanEvent
      -> gmap Z (list (list byte)) -> Prop :=
  | chan_open c id :
      c !! id = None -> chan_step c (Some (Opened id)) (<[id := []]> c)
  | chan_push c id q p :
      c !! id = Some q ->
      chan_step c (Some (Queued id p)) (<[id := q ++ [p]]> c)
  | chan_pop c id p q :
      c !! id = Some (p :: q) ->
      chan_step c (Some (Delivered id p)) (<[id := q]> c)
  | chan_silent c : chan_step c None c.

(** The payloads the events queue for the session [id], and the payloads
    they hand to its readers. *)
Definition queued (id : Z) (evs : list (option ChanEvent))
    : list (list byte) :=
  omap (fun ev => match ev with
                  | Some (Queued i p) => if decide (i = id) then Some p else None
                  | _ => None
                  end) evs.

Definition delivered (id : Z) (evs : list (option ChanEvent))
    : list (list byte) :=
  omap (fun ev => match ev with
                  | Some (Delivered i p) =>
                      if decide (i = id) then Some p else None
                  | _ => None
                  end) evs.

(** ** The queues alone *)

(** An event allows one step at most. *)
Lemma chan_step_det c ev c1 c2 :
  chan_step c ev c1 -> chan_step c ev c2 -> c1 = c2.
Proof. destruct 1; inversion 1; by simplify_eq. Qed.

Lemma delivered_cons id ev evs :
  delivered id (ev :: evs) = delivered id [ev] ++ delivered id evs.
Proof. apply (omap_app _ [ev]). Qed.

Lemma queued_cons id ev evs :
  queued id (ev :: evs) = queued id [ev] ++ queued id evs.
Proof. apply (omap_app _ [ev]). Qed.

(** One step: what it hands out of a queue, followed by what the queue
    holds after it, is what the queue held followed by what the step put
    in. *)
Lemma chan_step_fifo c ev c' id :
  chan_step c ev c' ->
  delivered id [ev] ++ default [] (c' !! id)
  = default [] (c !! id) ++ queued id [ev].
Proof.
  unfold delivered, queued.
  destruct 1 as [c i Hi|c i q p Hi|c i p q Hi|c]; simpl;
    try destruct (decide (i = id)) as [->|Hne]; simpl;
    rewrite ?lookup_insert_eq, ?lookup_insert_ne, ?Hi by done; simpl;
    by rewrite ?app_nil_r.
Qed.

(** First in, first out, along a run. *)
Lemma chan_fifo c evs c' id :
  trace chan_step c evs c' ->
  delivered id evs ++ default [] (c' !! id)
  = default [] (c !! id) ++ queued id evs.
Proof.
  induction 1 as [c|c ev c1 evs c' Hstep _ IH]; [by rewrite app_nil_r|].
  rewrite delivered_cons, queued_cons, <-app_assoc, IH, !app_assoc.
  by rewrite (chan_step_fifo _ _ _ id Hstep).
Qed.

Section channels.
Context `{Extern}.
Implicit Types (m : Mux) (s : Session) (id : Z).

(** The queues of the multiplexer. *)
Definition channels (m : Mux) : gmap Z (list (list byte)) :=
  inbox <$> sessions m.

(** A session rewritten with the queue it had leaves the queues alone;
    with another queue it changes its own queue only. *)
Lemma channels_put m id s s' ss n fl o :
  sessions m !! id = Some s -> ss = <[id := s']> (sessions m) ->
  channels {| sessions := ss; next_id := n; fault := fl; outbox := o |}
  = <[id := inbox s']> (channels m).
Proof. intros _ ->. unfold channels. simpl. by rewrite fmap_insert. Qed.

Lemma channels_put_same m id s s' ss n fl o :
  sessions m !! id = Some s -> ss = <[id := s']> (sessions m) ->
  inbox s' = inbox s ->
  channels {| sessions := ss; next_id := n; fault := fl; outbox := o |}
  = channels m.
Proof.
  intros Hs -> Hq. erewrite channels_put by done. rewrite Hq.
  apply insert_id. unfold channels. by rewrite lookup_fmap, Hs.
Qed.

Lemma channels_lookup m id s :
  sessions m !! id = Some s -> channels m !! id = Some (inbox s).
Proof. intros Hs. unfold channels. by rewrite lookup_fmap, Hs. Qed.

(** ** Each operation on the queues *)

Lemma channels_open m dest m' id :
  wf_mux m -> open m dest = Ok (m', id) ->
  chan_step (channels m) (Some (Opened id)) (channels m').
Proof.
  intros [_ Hwf]. unfold open. destruct (fault m); intros [= <- <-].
  unfold channels. simpl. rewrite fmap_insert. apply chan_open.
  rewrite lookup_fmap. destruct (sessions m !! next_id m) as [s|] eqn:Hs;
    [|done].
  destruct (Hwf _ _ Hs). lia.
Qed.

Lemma channels_write m id bytes m' :
  write m id bytes = Some (Ok m') -> channels m' = channels m.
Proof.
  unfold write.
  destruct (fault m), (sessions m !! id) as [[[r|] d [] [] q]|] eqn:Hs;
    intros [= <-].
  by eapply channels_put_same.
Qed.

Lemma channels_read m id m' p :
  read m id = Some (Ok (m', p)) ->
  chan_step (channels m) (Some (Delivered id p)) (channels m').
Proof.
  unfold read. destruct (sessions m !! id) as [s|] eqn:Hs; [|done].
  destruct (inbox s) as [|p' q] eqn:Hq; [by destruct (state s), (fault m)|].
  intros [= <- <-]. erewrite channels_put by done. simpl.
  apply chan_pop. by rewrite (channels_lookup _ _ s), Hq.
Qed.

Lemma channels_close m id : channels (close m id) = channels m.
Proof.
  unfold close. destruct (sessions m !! id) as [s|] eqn:Hs; [|done].
  destruct (state s); try done; by eapply (channels_put_same _ _ s).
Qed.

Lemma channels_teardown m e : channels (teardown m e) = channels m.
Proof.
  unfold channels, teardown. simpl. rewrite <-map_fmap_compose.
  by apply map_fmap_ext.
Qed.

End channels.

(** ** The multiplexer with its events *)

Section events.
Context `{Extern}.
Implicit Types (m : Mux) (s : Session) (id : Z).

(** What an inbound frame shows: a [WRTE] for a session that is [Open]
    queues its payload; every other frame changes no queue. *)
Definition inbound_event (m : Mux) (f : Message) : option ChanEvent :=
  match command f, sessions m !! arg1 f with
  | WRTE, Some s =>
      if decide (state s = Open) then Some (Queued (arg1 f) (payload f))
      else None
  | _, _ => None
  end.

(** [mux_step] with the event of each step: [open] shows the id it
    returns and [read] the payload it returns. *)
Inductive mux_event : Mux -> option ChanEvent -> Mux -> Prop :=
  | event_open m dest m' id :
      open m dest = Ok (m', id) -> mux_event m (Some (Opened id)) m'
  | event_write m id bytes m' :
      write m id bytes = Some (Ok m') -> mux_event m None m'
  | event_read m id m' p :
      read m id = Some (Ok (m', p)) -> mux_event m (Some (Delivered id p)) m'
  | event_close m id : mux_event m None (close m id)
  | event_recv m f : mux_event m (inbound_event m f) (recv m f)
  | event_teardown m e : mux_event m None (teardown m e).

(** The events of the receive loop on the frames [fs]. *)
Fixpoint inbound_events (m : Mux) (fs : list Message)
    : list (option ChanEvent) :=
  match fs with
  | [] => []
  | f :: fs => inbound_event m f :: inbound_events (recv m f) fs
  end.

Lemma trace_recv m fs :
  trace mux_event m (inbound_events m fs) (foldl recv m fs).
Proof.
  revert m. induction fs as [|f fs IH]; intros m; simpl;
    eauto using @trace, @mux_event.
Qed.

(** The steps with an event are the steps of [mux_step]. *)
Lemma mux_event_step m ev m' : mux_event m ev m' -> mux_step m m'.
Proof. destruct 1; eauto using @mux_step. Qed.

Lemma mux_step_event m m' : mux_step m m' -> exists ev, mux_event m ev m'.
Proof. destruct 1; eauto using @mux_event. Qed.

Lemma mux_event_reachable evs m :
  trace mux_event mux_init evs m -> rtc mux_step mux_init m.
Proof. apply trace_rtc, mux_event_step. Qed.

Lemma channels_inbound m f :
  chan_step (channels m) (inbound_event m f) (channels (recv m f)).
Proof.
  unfold inbound_event, recv.
  destruct (sessions m !! arg1 f) as [s|] eqn:Hs;
    [|destruct (command f); apply chan_silent].
  destruct (command f), (state s) eqn:Hst; simpl;
    try (erewrite channels_put_same by done; apply chan_silent);
    try apply chan_silent.
  erewrite channels_put by done. apply chan_push. by apply channels_lookup.
Qed.

(** One step of the multiplexer is the step of the queues its event
    names. *)
Lemma channels_event m ev m' :
  wf_mux m -> mux_event m ev m' -> chan_step (channels m) ev (channels m').
Proof.
  intros Hwf. destruct 1 as [m dest m' id Ho|m id bytes m' Hw|m id m' p Hr
                             |m id|m f|m e].
  - by apply (channels_open _ dest).
  - rewrite (channels_write _ _ _ _ Hw). apply chan_silent.
  - by apply channels_read.
  - rewrite channels_close. apply chan_silent.
  - apply channels_inbound.
  - rewrite channels_teardown. apply chan_silent.
Qed.

Lemma channels_trace m evs m' :
  wf_mux m -> trace mux_event m evs m' ->
  trace chan_step (channels m) evs (channels m').
Proof.
  apply (simulation_trace mux_event chan_step channels wf_mux);
    eauto using wf_mux_step, mux_event_step, channels_event.
Qed.

(** C14: the multiplexer implements its contract: a run of calls, inbound
    frames and transport failures from the initial state is, on the queues
    of the sessions, a run of [chan_step] with the same events.  The
    events allow one step each, so the queues are what the ids returned by
    [open], the payloads taken from the device and the payloads returned
    by [read] say they are: a queue starts empty, grows at its back by the
    payload of each [WRTE] its open session takes, and shrinks at its
    front by the payload each [read] returns. *)
Theorem mux_refines_channels evs m :
  trace mux_event mux_init evs m -> trace chan_step ∅ evs (channels m).
Proof.
  intros Htr. change ∅ with (channels mux_init).
  by apply channels_trace; [apply wf_mux_init|].
Qed.

(** First in, first out, for the callers: the payloads the readers of a
    session got, followed by the payloads still queued, are the payloads
    the open session took from the device, in the order of their frames:
    no interleaving reorders, repeats or loses one. *)
Theorem mux_fifo evs m id s :
  trace mux_event mux_init evs m -> sessions m !! id = Some s ->
  delivered id evs ++ inbox s = queued id evs.
Proof.
  intros Htr%(channels_trace _ _ _ wf_mux_init) Hs.
  apply (chan_fifo _ _ _ id) in Htr.
  by rewrite (channels_lookup _ _ _ Hs) in Htr.
Qed.

End events.

(** The session of the test double is opened, accepted, given two
    payloads and read once. *)
Definition demo_events : list (option ChanEvent) :=
  [Some (Opened 1); None; Some (Queued 1 (bytes_of_string "a")); None;
   Some (Queued 1 (bytes_of_string "b"));
   Some (Delivered 1 (bytes_of_string "a"))].

Definition demo_read : Mux (H := dyn_extern) :=
  match read (foldl recv demo_mux demo_frames) 1 with
  | Some (Ok (m, _)) => m
  | _ => demo_mux
  end.

Lemma demo_events_trace : trace mux_event mux_init demo_events demo_read.
Proof.
  change demo_events with
    ([Some (Opened 1); None] ++ inbound_events demo_mux demo_frames
     ++ [Some (Delivered 1 (bytes_of_string "a"))]).
  eapply trace_cons;
    [by eapply (event_open mux_init (bytes_of_string "shell:"))|].
  eapply trace_cons;
    [apply (event_recv _ {| command := OKAY; arg0 := 7; arg1 := 1;
                            payload := [] |})|].
  eapply trace_app; [apply trace_recv|].
  eapply trace_cons; [by eapply (event_read _ 1)|]. apply trace_nil.
Qed.

(** The queue of the one session holds the second payload. *)
Lemma mux_refines_channels_witness :
  trace chan_step ∅ demo_events (channels demo_read).
Proof. apply mux_refines_channels, demo_events_trace. Defined.

Example mux_fifo_demo :
  exists s, sessions demo_read !! 1 = Some s
            /\ inbox s = [bytes_of_string "b"].
Proof. by eexists. Qed.
