(* ===== verification/View.v ===== *)
(** * The frames sent are a log (specification, section 4.3)

    The multiplexer records the frames it sends ([outbox]); nothing it
    does afterwards depends on them.  [same_view] relates two multiplexers
    with the same session table, next local id and fault, which may have
    sent different frames.  It is an equivalence, every operation is a
    morphism for it ([Proper] instances), and so it is a bisimulation for
    [mux_step]: what a caller or the device can make a multiplexer do is
    decided by the view alone. *)

From stdpp Require Import gmap.
From S2P Require Import Prelude Error Bytes Codec Mux Channels.

#[local] Open Scope Z_scope.

Section view.
Context `{Extern}.
Implicit Types (m : Mux) (id : Z).

Definition same_view : relation Mux := fun m m' =>
  sessions m = sessions m' /\ next_id m = next_id m' /\ fault m = fault m'.

#[export] Instance same_view_equivalence : Equivalence same_view.
Proof.
  unfold same_view. split.
  - by intros m.
  - by intros m m' (-> & -> & ->).
  - by intros m1 m2 m3 (-> & -> & ->).
Qed.

(** ** The operations are morphisms *)

#[export] Instance open_proper :
  Proper (same_view ==> (=) ==> result_rel (prod_relation same_view (=))) open.
Proof.
  intros m m' (Hs & Hn & Hf) dest ? <-. unfold open.
  rewrite <-Hs, <-Hn, <-Hf. by destruct (fault m).
Qed.

#[export] Instance write_proper :
  Proper (same_view ==> (=) ==> (=) ==> option_Forall2 (result_rel same_view))
    write.
Proof.
  intros m m' (Hs & Hn & Hf) id ? <- bytes ? <-. unfold write.
  rewrite <-Hs, <-Hn, <-Hf.
  destruct (fault m), (sessions m !! id) as [[[r|] d [] [] q]|];
    by constructor.
Qed.

#[export] Instance read_proper :
  Proper (same_view ==> (=) ==>
          option_Forall2 (result_rel (prod_relation same_view (=)))) read.
Proof.
  intros m m' (Hs & Hn & Hf) id ? <-. unfold read. rewrite <-Hs, <-Hn, <-Hf.
  destruct (sessions m !! id) as [s|]; [|by constructor; simpl].
  destruct (inbox s), (state s), (fault m); constructor; by repeat split.
Qed.

#[export] Instance close_proper : Proper (same_view ==> (=) ==> same_view) close.
Proof.
  intros m m' Hv id ? <-. pose proof Hv as (Hs & Hn & Hf). unfold close.
  rewrite <-Hs, <-Hn, <-Hf.
  destruct (sessions m !! id) as [s|]; [|done].
  destruct (state s), (fault m); done || by repeat split.
Qed.

#[export] Instance recv_proper : Proper (same_view ==> (=) ==> same_view) recv.
Proof.
  intros m m' Hv f ? <-. pose proof Hv as (Hs & Hn & Hf). unfold recv.
  rewrite <-Hs, <-Hn, <-Hf.
  destruct (sessions m !! arg1 f) as [s|]; [|done].
  destruct (command f), (state s); done || by repeat split.
Qed.

#[export] Instance await_open_proper :
  Proper (same_view ==> (=) ==> (=)) await_open.
Proof.
  intros m m' (Hs & Hn & Hf) id ? <-. unfold await_open. by rewrite Hs, Hf.
Qed.

#[export] Instance teardown_proper :
  Proper (same_view ==> (=) ==> same_view) teardown.
Proof.
  intros m m' (Hs & Hn & Hf) e ? <-. unfold teardown, same_view. simpl.
  by rewrite Hs, Hf.
Qed.

#[export] Instance channels_proper : Proper (same_view ==> (=)) channels.
Proof. intros m m' (Hs & _). unfold channels. by rewrite Hs. Qed.

(** The receive loop over a sequence of frames is a morphism. *)
Lemma foldl_recv_proper (fs : list Message) :
  Proper (same_view ==> same_view) (fun m => foldl recv m fs).
Proof.
  induction fs as [|f fs IH]; intros m m' Hv; simpl; [done|].
  apply IH. by rewrite Hv.
Qed.

(** ** The view is a bisimulation *)

(** Whatever step one multiplexer takes, a multiplexer with the same view
    takes a step to the same view: the frames sent so far decide
    nothing. *)
Lemma mux_step_same_view m1 m2 m1' :
  same_view m1 m2 -> mux_step m1 m1' ->
  exists m2', mux_step m2 m2' /\ same_view m1' m2'.
Proof.
  intros Hv Hstep.
  destruct Hstep as [m dest m' id Ho|m id bytes m' Hw|m id m' p Hr|m id|m f|m e].
  - pose proof (open_proper _ _ Hv dest _ eq_refl) as Hp. rewrite Ho in Hp.
    destruct (open m2 dest) as [[m2' id']|] eqn:Ho2; [|done].
    destruct Hp as [? ?]. exists m2'. eauto using mux_step.
  - pose proof (write_proper _ _ Hv id _ eq_refl bytes _ eq_refl) as Hp.
    rewrite Hw in Hp.
    destruct (write m2 id bytes) as [[m2'|]|] eqn:Hw2; inversion_clear Hp;
      [|done]. exists m2'. eauto using mux_step.
  - pose proof (read_proper _ _ Hv id _ eq_refl) as Hp. rewrite Hr in Hp.
    destruct (read m2 id) as [[[m2' p']|]|] eqn:Hr2;
      inversion_clear Hp as [?? Hm|]; [|done]. destruct Hm as [? Hp].
    simpl in Hp. subst p'. exists m2'. eauto using mux_step.
  - exists (close m2 id). split; [constructor|by rewrite Hv].
  - exists (recv m2 f). split; [constructor|by rewrite Hv].
  - exists (teardown m2 e). split; [constructor|by rewrite Hv].
Qed.

Lemma rtc_mux_step_same_view m1 m2 m1' :
  same_view m1 m2 -> rtc mux_step m1 m1' ->
  exists m2', rtc mux_step m2 m2' /\ same_view m1' m2'.
Proof.
  intros Hv Hrtc. revert m2 Hv.
  induction Hrtc as [m|m m' m'' Hstep _ IH]; intros m2 Hv.
  { exists m2. by split. }
  destruct (mux_step_same_view _ _ _ Hv Hstep) as (m2' & ? & Hv').
  destruct (IH _ Hv') as (m2'' & ? & ?). exists m2''. eauto using rtc_l.
Qed.

(** ** The log grows *)

(** A step appends to the frames sent and rewrites none. *)
Lemma mux_step_outbox m m' : mux_step m m' -> outbox m `prefix_of` outbox m'.
Proof.
  destruct 1 as [m dest m' id Ho|m id bytes m' Hw|m id m' p Hr|m id|m f|m e].
  - unfold open in Ho. destruct (fault m); simplify_eq. by eexists.
  - unfold write in Hw.
    destruct (fault m), (sessions m !! id) as [[[r|] d [] [] q]|];
      simplify_eq. by eexists.
  - unfold read in Hr. destruct (sessions m !! id) as [s|]; [|done].
    destruct (inbox s); [by destruct (state s), (fault m)|]. by simplify_eq.
  - unfold close. destruct (sessions m !! id) as [s|]; [|done].
    destruct (state s), (fault m); simpl; done || by eexists.
  - by rewrite recv_outbox.
  - done.
Qed.

Lemma rtc_mux_step_outbox m m' :
  rtc mux_step m m' -> outbox m `prefix_of` outbox m'.
Proof.
  induction 1 as [|m1 m2 m3 Hstep _ IH]; [done|].
  by etrans; [apply mux_step_outbox|].
Qed.

End view.
