(* ===== verification/Scenarios.v ===== *)
(** * The scenarios of the specification on a mock transport (section 8)

    The testable properties of the specification that are scenarios, run
    end to end on the definitions: the bytes of the device's frames go
    through [connect] or the receive loop, and what the callers see is
    read off the result.  The mock transport is the byte stream [wire]
    makes of the frames; the collaborators are [demo_client] and
    [demo_transport].  The general theorems are in the files of the
    components; here the definitions are evaluated. *)

From stdpp Require Import gmap.
From S2P Require Import Prelude Error Bytes Crc32 Codec Auth Mux Recv.
From S2P Require Import Connect Channels.

#[local] Open Scope Z_scope.

(** Two sessions opened one after the other: [shell:ls] gets the local id
    1 and [sync:] the local id 2. *)
Definition two_sessions : Mux (H := dyn_extern) :=
  match open mux_init (bytes_of_string "shell:ls") with
  | Ok (m, _) =>
      match open m (bytes_of_string "sync:") with
      | Ok (m', _) => m'
      | Err _ => m
      end
  | Err _ => mux_init
  end.

(** The device accepts both and writes to them in turn. *)
Definition interleaved : list Message :=
  [ {| command := OKAY; arg0 := 10; arg1 := 1; payload := [] |};
    {| command := OKAY; arg0 := 20; arg1 := 2; payload := [] |};
    {| command := WRTE; arg0 := 10; arg1 := 1;
       payload := bytes_of_string "a1" |};
    {| command := WRTE; arg0 := 20; arg1 := 2;
       payload := bytes_of_string "b1" |};
    {| command := WRTE; arg0 := 10; arg1 := 1;
       payload := bytes_of_string "a2" |};
    {| command := WRTE; arg0 := 20; arg1 := 2;
       payload := bytes_of_string "b2" |} ].

(** The shell session, open, after one write went through. *)
Definition shell_written : Mux (H := dyn_extern) :=
  match write (foldl recv two_sessions (take 2 interleaved)) 1
          (bytes_of_string "ls") with
  | Some (Ok m) => m
  | _ => two_sessions
  end.

(** ** The handshake *)

(** A device that answers [CNXN] at once: the handshake completes with
    the client's [CNXN] alone, no [AUTH] is exchanged, and the multiplexer
    gets the bytes that follow. *)
Example connect_trusted :
  connect (C := demo_client) (T := demo_transport)
    (wire [accepted] ++ wire interleaved)
  = ([{| command := CNXN; arg0 := 0x01000000; arg1 := 0;
         payload := bytes_of_string "host::" |}],
     Ok (mux_init, wire interleaved)).
Proof. reflexivity. Qed.

(** A frame of the device with one byte of its payload changed fails the
    handshake with the integrity fault. *)
Example connect_corrupted :
  (connect (C := demo_client) (T := demo_transport)
     (encode_header token ++ bytes_of_string "0123456789abcdefghiJ")).2
  = Err (InvalidIntegrity (crc32 (payload token))
           (crc32 (bytes_of_string "0123456789abcdefghiJ"))).
Proof. reflexivity. Qed.

(** ** Opening a stream *)

(** The caller of [open] waits until the device answers with [OKAY], and
    then holds the remote id of the frame. *)
Example open_stream_waits :
  await_open two_sessions 1 = None
  /\ await_open (foldl recv two_sessions (take 1 interleaved)) 1
     = Some (Ok 10).
Proof. split; reflexivity. Qed.

(** ** Multiplexing *)

(** Frames for the two sessions alternate on the transport: each session
    gets its own payloads, in the order of arrival. *)
Example multiplexing_interleaved :
  channels (recv_all (H0 := demo_transport) two_sessions (wire interleaved)).1
  = {[ 1 := [bytes_of_string "a1"; bytes_of_string "a2"];
       2 := [bytes_of_string "b1"; bytes_of_string "b2"] ]}.
Proof. by vm_compute. Qed.

(** The reader of the shell session gets [a1] and leaves [a2] in the
    queue; the queue of the other session is not touched. *)
Example multiplexing_reads :
  match read (recv_all (H0 := demo_transport) two_sessions
                (wire interleaved)).1 1 with
  | Some (Ok (m, p)) =>
      p = bytes_of_string "a1"
      /\ channels m
         = {[ 1 := [bytes_of_string "a2"];
              2 := [bytes_of_string "b1"; bytes_of_string "b2"] ]}
  | _ => False
  end.
Proof. by vm_compute. Qed.

(** ** Flow control *)

(** A second write on the session suspends its caller; after the [OKAY]
    of the device it goes through, and after a [CLSE] of the device it
    fails: the caller is woken either way. *)
Example flow_control_blocks :
  match write shell_written 1 (bytes_of_string "pwd") with
  | None => True
  | Some _ => False
  end.
Proof. by vm_compute. Qed.

Example flow_control_credit :
  match write
          (recv shell_written
             {| command := OKAY; arg0 := 10; arg1 := 1; payload := [] |})
          1 (bytes_of_string "pwd") with
  | Some (Ok m) =>
      last (outbox m)
      = Some {| command := WRTE; arg0 := 1; arg1 := 10;
                payload := bytes_of_string "pwd" |}
  | _ => False
  end.
Proof. by vm_compute. Qed.

Example flow_control_closed :
  match write
          (recv shell_written
             {| command := CLSE; arg0 := 10; arg1 := 1; payload := [] |})
          1 (bytes_of_string "pwd") with
  | Some (Err e) => fmt e = "ADB request failed - session closed"
  | _ => False
  end.
Proof. by vm_compute. Qed.

(** ** The framebuffer *)

(** The error of an unknown framebuffer version names the version. *)
Example framebuffer_version_99 :
  fmt (UnimplementedFramebufferImageVersion (H := dyn_extern) 99)
  = "Unimplemented framebuffer image version: 99".
Proof. reflexivity. Qed.
